(** * Portfolio analyzer: a shallow embedding of [PortfolioAnalyzer]

    The development follows [src/analyzers/portfolio_analyzer.py]; the
    price fetchers of [src/fetchers], the currency converter of
    [src/utils/currency_converter.py] and the choice of the fetcher in
    [scripts/analyze_portfolio.py] come after the analyzer.

    - Floating-point cells are rationals in canonical form ([Qc]) extended
      with [NaN] and the two infinities.  Arithmetic on finite values is
      exact: rounding, overflow of float operations and the sign of zero
      are outside the model.  The conversion of an integer that is too
      large for a float raises, and is modelled where the fetchers and the
      currency converter compute their delays.
    - [numpy] and [scipy] routines whose values are not rational ([np.sqrt],
      [np.log], [norm.ppf]) and the [pandas] correlation routines are
      parameters of the development.
    - [pandas] objects are mutable and passed by reference: data frames live
      in a store and the analyzer's methods are written in a state-and-error
      monad over that store, the analyzer's [risk_free_rate] attribute and
      the log of the calls made to the price fetcher. *)

From Stdlib Require Import QArith Qcanon Qround ZArith Lia Lqa String Ascii.
From stdpp Require Import base numbers option list gmap strings.

Local Open Scope string_scope.
Local Open Scope list_scope.
Local Open Scope Z_scope.

(** ** Floats *)

Inductive float : Type :=
  | NaN
  | PInf
  | NInf
  | Num (q : Qc).

#[global] Instance float_eq_dec : EqDecision float.
Proof. solve_decision. Defined.

Definition Qc_eqb (x y : Qc) : bool := Qeq_bool (this x) (this y).
Definition Qc_leb (x y : Qc) : bool := Qle_bool (this x) (this y).
Definition Qc_ltb (x y : Qc) : bool := negb (Qle_bool (this y) (this x)).

Definition Qc_of_nat (n : nat) : Qc := Qc_of_Z (Z.of_nat n).

Definition isna (x : float) : bool :=
  match x with NaN => true | _ => false end.

Definition notna (x : float) : bool := negb (isna x).

Definition fneg (x : float) : float :=
  match x with
  | NaN => NaN
  | PInf => NInf
  | NInf => PInf
  | Num a => Num (- a)%Qc
  end.

Definition fadd (x y : float) : float :=
  match x, y with
  | NaN, _ | _, NaN => NaN
  | PInf, NInf | NInf, PInf => NaN
  | PInf, _ | _, PInf => PInf
  | NInf, _ | _, NInf => NInf
  | Num a, Num b => Num (a + b)%Qc
  end.

Definition fsub (x y : float) : float :=
  match x, y with
  | NaN, _ | _, NaN => NaN
  | PInf, PInf | NInf, NInf => NaN
  | PInf, _ | _, NInf => PInf
  | NInf, _ | _, PInf => NInf
  | Num a, Num b => Num (a - b)%Qc
  end.

(** Sign of a float that is not [NaN]: [Lt] negative, [Eq] zero, [Gt] positive. *)
Definition fsign (x : float) : comparison :=
  match x with
  | NaN => Eq
  | PInf => Gt
  | NInf => Lt
  | Num a => (a ?= 0)%Qc
  end.

Definition fmul (x y : float) : float :=
  match x, y with
  | NaN, _ | _, NaN => NaN
  | Num a, Num b => Num (a * b)%Qc
  | _, _ =>
      match fsign x, fsign y with
      | Eq, _ | _, Eq => NaN
      | Lt, Lt | Gt, Gt => PInf
      | _, _ => NInf
      end
  end.

Definition fdiv (x y : float) : float :=
  match x, y with
  | NaN, _ | _, NaN => NaN
  | Num a, Num b =>
      if Qc_eqb b 0 then
        if Qc_eqb a 0 then NaN else if Qc_ltb 0 a then PInf else NInf
      else Num (a / b)%Qc
  | Num _, _ => Num 0%Qc
  | PInf, Num b => if Qc_leb 0 b then PInf else NInf
  | NInf, Num b => if Qc_leb 0 b then NInf else PInf
  | _, _ => NaN
  end.

(** Comparisons are [False] as soon as one side is [NaN]. *)
Definition fle (x y : float) : bool :=
  match x, y with
  | NaN, _ | _, NaN => false
  | NInf, _ | _, PInf => true
  | PInf, _ | _, NInf => false
  | Num a, Num b => Qc_leb a b
  end.

Definition flt (x y : float) : bool :=
  match x, y with
  | NaN, _ | _, NaN => false
  | PInf, _ | _, NInf => false
  | NInf, _ | _, PInf => true
  | Num a, Num b => Qc_ltb a b
  end.

Definition fmax (x y : float) : float := if fle x y then y else x.
Definition fmin (x y : float) : float := if fle x y then x else y.

Definition float_of_Z (n : Z) : float := Num (Qc_of_Z n).
Definition float_of_nat (n : nat) : float := Num (Qc_of_nat n).

(** ** Labels, series and data frames *)

(** A row label is a timestamp (the proleptic Gregorian ordinal of its day)
    or a symbol name; column labels are strings. *)
Inductive label : Type :=
  | Date (d : Z)
  | Sym (s : string).

#[global] Instance label_eq_dec : EqDecision label.
Proof. solve_decision. Defined.

Definition Series : Type := list (label * float).

Record DataFrame : Type := mkDataFrame {
  index : list label;
  columns : list (string * list float)
}.

#[global] Instance DataFrame_eq_dec : EqDecision DataFrame.
Proof. solve_decision. Defined.

Definition sr_index (s : Series) : list label := map fst s.
Definition sr_values (s : Series) : list float := map snd s.
Definition col_names (df : DataFrame) : list string := map fst (columns df).
Definition nrows (df : DataFrame) : nat := length (index df).

(** *** Sorting *)

Section Sorting.
Context {A : Type} (leb : A -> A -> bool).

Fixpoint insert_sorted (x : A) (l : list A) : list A :=
  match l with
  | [] => [x]
  | y :: r => if leb x y then x :: l else y :: insert_sorted x r
  end.

Definition sort_by (l : list A) : list A := foldr insert_sorted [] l.
End Sorting.

Definition is_date (l : label) : bool :=
  match l with Date _ => true | Sym _ => false end.

Definition label_leb (a b : label) : bool :=
  match a, b with
  | Date x, Date y => x <=? y
  | Sym x, Sym y => String.leb x y
  | _, _ => false
  end.

(** [Index.union]: the labels of both, sorted when they can be compared;
    when one side is empty the other is returned as it is. *)
Definition index_union (a b : list label) : list label :=
  match a, b with
  | [], _ => b
  | _, [] => a
  | _, _ =>
      let u := a ++ filter (fun x => negb (bool_decide (x ∈ a))) b in
      if forallb is_date u || forallb (fun l => negb (is_date l)) u
      then sort_by label_leb u else u
  end.

(** *** Series *)

Fixpoint sr_get (s : Series) (l : label) : float :=
  match s with
  | [] => NaN
  | (k, x) :: r => if decide (k = l) then x else sr_get r l
  end.

Definition sr_map (f : float -> float) (s : Series) : Series :=
  map (fun p => (fst p, f (snd p))) s.

(** Binary operators on two series align the operands on the union of their
    indexes unless the indexes are equal; a label missing on one side gives
    [NaN]. *)
Definition sr_binop (f : float -> float -> float) (a b : Series) : Series :=
  if decide (sr_index a = sr_index b)
  then zip_with (fun p q => (fst p, f (snd p) (snd q))) a b
  else map (fun l => (l, f (sr_get a l) (sr_get b l)))
           (index_union (sr_index a) (sr_index b)).

Definition sr_reindex (s : Series) (idx : list label) : list float :=
  if decide (sr_index s = idx) then sr_values s else map (sr_get s) idx.

(** *** Reductions over the cells of one column; missing cells are skipped *)

Definition valid (xs : list float) : list float := filter (fun x => notna x) xs.

Definition fsum (xs : list float) : float := foldl fadd (Num 0%Qc) xs.

Definition pd_mean (xs : list float) : float :=
  match valid xs with
  | [] => NaN
  | v => fdiv (fsum v) (float_of_nat (length v))
  end.

Definition fsquare (x : float) : float := fmul x x.

(** Sample variance ([ddof = 1]); [NaN] when fewer than two observations. *)
Definition pd_var (xs : list float) : float :=
  let v := valid xs in
  if (length v <=? 1)%nat then NaN
  else
    let avg := fdiv (fsum v) (float_of_nat (length v)) in
    fdiv (fsum (map (fun x => fsquare (fsub x avg)) v))
         (float_of_nat (length v - 1)).

Definition pd_min (xs : list float) : float :=
  match valid xs with
  | [] => NaN
  | x :: r => foldl fmin x r
  end.

(** Quantile with linear interpolation between the two nearest order
    statistics. *)
Definition pd_quantile (q : Qc) (xs : list float) : float :=
  let v := sort_by fle (valid xs) in
  match v with
  | [] => NaN
  | _ =>
      let pos := (q * Qc_of_nat (length v - 1))%Qc in
      let lo := Z.to_nat (Qfloor (this pos)) in
      let hi := Nat.min (S lo) (length v - 1) in
      let a := nth lo v NaN in
      let b := nth hi v NaN in
      fadd a (fmul (fsub b a) (Num (pos - Qc_of_nat lo)%Qc))
  end.

Fixpoint cummax_from (cur : option float) (xs : list float) : list float :=
  match xs with
  | [] => []
  | x :: r =>
      if isna x then NaN :: cummax_from cur r
      else
        let m := match cur with None => x | Some c => fmax c x end in
        m :: cummax_from (Some m) r
  end.

Definition pd_cummax (xs : list float) : list float := cummax_from None xs.

Fixpoint ffill_from (last : float) (xs : list float) : list float :=
  match xs with
  | [] => []
  | x :: r =>
      let y := if isna x then last else x in
      y :: ffill_from y r
  end.

Definition pd_ffill (xs : list float) : list float := ffill_from NaN xs.
Definition pd_bfill (xs : list float) : list float := rev (pd_ffill (rev xs)).

Definition pd_shift (xs : list float) : list float :=
  match xs with
  | [] => []
  | _ => NaN :: removelast xs
  end.

(** Covariance of two series ([ddof = 1]) over the labels they share, the
    pairs with a missing value dropped. *)
Definition cov_pairs (a b : Series) : list (float * float) :=
  filter (fun p => notna (fst p) && notna (snd p))
    (omap (fun p =>
             if bool_decide (fst p ∈ sr_index b)
             then Some (snd p, sr_get b (fst p)) else None) a).

Definition pd_cov (a b : Series) : float :=
  let ps := cov_pairs a b in
  match ps with
  | [] => NaN
  | _ =>
      let n := float_of_nat (length ps) in
      let ma := fdiv (fsum (map fst ps)) n in
      let mb := fdiv (fsum (map snd ps)) n in
      fdiv (fsum (map (fun p => fmul (fsub (fst p) ma) (fsub (snd p) mb)) ps))
           (float_of_nat (length ps - 1))
  end.

(** *** Data frames *)

Definition df_map (f : list float -> list float) (df : DataFrame) : DataFrame :=
  mkDataFrame (index df) (map (fun c => (fst c, f (snd c))) (columns df)).

Definition df_reduce (f : list float -> float) (df : DataFrame) : Series :=
  map (fun c => (Sym (fst c), f (snd c))) (columns df).

(** Cell-wise operator on two frames that carry the same labels (every use
    below combines a frame with a frame derived from it, for which the
    alignment of [pandas] is the identity). *)
Definition df_zip_with (f : float -> float -> float) (a b : DataFrame) : DataFrame :=
  mkDataFrame (index a)
    (zip_with (fun c d => (fst c, zip_with f (snd c) (snd d)))
              (columns a) (columns b)).

Fixpoint select {A} (mask : list bool) (xs : list A) : list A :=
  match mask, xs with
  | m :: ms, x :: r => if m then x :: select ms r else select ms r
  | _, _ => []
  end.

(** [dropna]: a row is kept when none of its cells is missing. *)
Definition row_mask (df : DataFrame) : list bool :=
  foldr (fun c acc => zip_with andb (map notna (snd c)) acc)
        (replicate (nrows df) true) (columns df).

Definition df_dropna (df : DataFrame) : DataFrame :=
  let mask := row_mask df in
  mkDataFrame (select mask (index df))
    (map (fun c => (fst c, select mask (snd c))) (columns df)).

Fixpoint assoc_get {A} (k : string) (l : list (string * A)) : option A :=
  match l with
  | [] => None
  | (k', v) :: r => if decide (k' = k) then Some v else assoc_get k r
  end.

(** [d[k] = v] on an insertion-ordered mapping: an existing key keeps its
    position, a new key is appended. *)
Fixpoint assoc_set {A} (k : string) (v : A) (l : list (string * A)) : list (string * A) :=
  match l with
  | [] => [(k, v)]
  | (k', v') :: r => if decide (k' = k) then (k, v) :: r else (k', v') :: assoc_set k v r
  end.

(** [df[name]]: the column as a series over the frame's index. *)
Definition df_col (df : DataFrame) (name : string) : option Series :=
  (fun xs => zip (index df) xs) <$> assoc_get name (columns df).

(** [df[names]]: the sub-frame of the listed columns, [None] when one is absent. *)
Definition df_cols (df : DataFrame) (names : list string) : option DataFrame :=
  mkDataFrame (index df) <$>
    mapM (fun n => (fun xs => (n, xs)) <$> assoc_get n (columns df)) names.

(** [df[name] = series]: the series is aligned on the frame's index. *)
Definition df_setitem (df : DataFrame) (name : string) (s : Series) : DataFrame :=
  mkDataFrame (index df) (assoc_set name (sr_reindex s (index df)) (columns df)).

(** [df.subtract(series, axis=0)]: rows aligned on the union of the two indexes. *)
Definition df_sub_series (df : DataFrame) (s : Series) : DataFrame :=
  if decide (index df = sr_index s)
  then df_map (fun xs => zip_with fsub xs (sr_values s)) df
  else
    let idx := index_union (index df) (sr_index s) in
    mkDataFrame idx
      (map (fun c => (fst c,
                      map (fun l => fsub (sr_get (zip (index df) (snd c)) l) (sr_get s l)) idx))
           (columns df)).

(** ** Exceptions, the store and the monad of the analyzer's methods *)

Inductive exn : Type :=
  | ValueError
  | KeyError
  | InvalidReference   (* a location that holds no frame; no Python counterpart *)
  | OutOfFuel.         (* the bound given to a loop was too small; no Python counterpart *)

Inductive result (A : Type) : Type :=
  | Ok (a : A)
  | Raise (e : exn).
Arguments Ok {A} a.
Arguments Raise {A} e.

Definition loc : Type := nat.

(** What a call to [fetcher.fetch_price] does: it returns a record whose
    ['price'] may be null, or it raises. *)
Inductive fetch_outcome : Type :=
  | Fetched (price : option float)
  | FetchFailed.

Definition Fetcher : Type := string -> Z -> fetch_outcome.

Record heap : Type := mkHeap {
  self_risk_free_rate : float;          (* [self.risk_free_rate] *)
  frames : gmap loc DataFrame;          (* the data frames, by reference *)
  fetch_log : list (string * Z)         (* calls made to [fetch_price], oldest first *)
}.

(** [PortfolioAnalyzer.__init__] *)
Definition init (risk_free_rate : float) : heap := mkHeap risk_free_rate ∅ [].

Definition M (A : Type) : Type := heap -> result A * heap.

Definition ret {A} (a : A) : M A := fun h => (Ok a, h).
Definition raise {A} (e : exn) : M A := fun h => (Raise e, h).
Definition bind {A B} (m : M A) (k : A -> M B) : M B :=
  fun h => match m h with
           | (Ok a, h') => k a h'
           | (Raise e, h') => (Raise e, h')
           end.

Notation "'let*' x ':=' m 'in' k" := (bind m (fun x => k))
  (at level 10, x name, m at level 100, k at level 200).
Notation "m ';;' k" := (bind m (fun _ => k))
  (at level 100, k at level 200, right associativity).

Definition lift {A} (r : result A) : M A := fun h => (r, h).
Definition lift_opt {A} (e : exn) (o : option A) : M A :=
  match o with Some a => ret a | None => raise e end.

Definition eval {A} (m : M A) (h : heap) : result A := fst (m h).
Definition exec {A} (m : M A) (h : heap) : heap := snd (m h).

Definition get_risk_free_rate : M float := fun h => (Ok (self_risk_free_rate h), h).

Definition load (l : loc) : M DataFrame :=
  fun h => match frames h !! l with
           | Some df => (Ok df, h)
           | None => (Raise InvalidReference, h)
           end.

Definition alloc (df : DataFrame) : M loc :=
  fun h => let l := fresh (dom (frames h)) in
           (Ok l, mkHeap (self_risk_free_rate h) (<[l := df]> (frames h)) (fetch_log h)).

(** In-place update of the frame at [l]. *)
Definition modify (l : loc) (f : DataFrame -> DataFrame) : M unit :=
  fun h => match frames h !! l with
           | Some df =>
               (Ok tt, mkHeap (self_risk_free_rate h) (<[l := f df]> (frames h)) (fetch_log h))
           | None => (Raise InvalidReference, h)
           end.

Definition call_fetch_price (fetcher : Fetcher) (symbol : string) (date : Z) : M fetch_outcome :=
  fun h => (Ok (fetcher symbol date),
            mkHeap (self_risk_free_rate h) (frames h) (fetch_log h ++ [(symbol, date)])).

Fixpoint for_each {A B} (f : A -> M B) (l : list A) : M (list B) :=
  match l with
  | [] => ret []
  | x :: r => let* y := f x in let* ys := for_each f r in ret (y :: ys)
  end.

Fixpoint fold_each {A S} (f : S -> A -> M S) (l : list A) (s : S) : M S :=
  match l with
  | [] => ret s
  | x :: r => let* s' := f s x in fold_each f r s'
  end.

(** [series[l] = x] *)
Fixpoint sr_set (s : Series) (l : label) (x : float) : Series :=
  match s with
  | [] => [(l, x)]
  | (k, y) :: r => if decide (k = l) then (l, x) :: r else (k, y) :: sr_set r l x
  end.

(** [pd.Series(index=..., dtype=float)] *)
Definition sr_empty (idx : list label) : Series := map (fun l => (l, NaN)) idx.

(** [df.quantile(q)]; the probability is validated first. *)
Definition df_quantile (q : float) (df : DataFrame) : result Series :=
  match q with
  | Num r =>
      if Qc_leb 0 r && Qc_leb r 1 then Ok (df_reduce (pd_quantile r) df)
      else Raise ValueError
  | _ => Raise ValueError
  end.

(** The dates visited by [while current <= end: ...; current += delta],
    with a bound on the number of iterations. *)
Fixpoint date_range (fuel : nat) (current end_ delta : Z) : option (list Z) :=
  if current <=? end_ then
    match fuel with
    | O => None
    | S fuel' => cons current <$> date_range fuel' (current + delta) end_ delta
    end
  else Some [].

(** ** Example data

    A price matrix of three days and two symbols, the matrix of its simple
    returns, a market series over the same dates, and a heap holding the
    two matrices. *)

Definition example_dates : list label := [Date 738886; Date 738887; Date 738888].

Definition example_price_columns : list (string * list Qc) :=
  [("A", [Qc_of_Z 100; Qc_of_Z 110; Qc_of_Z 121]);
   ("B", [Qc_of_Z 100; Qc_of_Z 50; Qc_of_Z 75])].

Definition example_prices : DataFrame :=
  mkDataFrame example_dates
    (map (fun c => (fst c, map Num (snd c))) example_price_columns).

Definition example_returns : DataFrame :=
  mkDataFrame (tail example_dates)
    [("A", [Num (Q2Qc (1 # 10)); Num (Q2Qc (1 # 10))]);
     ("B", [Num (Q2Qc (-1 # 2)); Num (Q2Qc (1 # 2))])].

Definition example_market : Series :=
  [(Date 738887, Num (Q2Qc (1 # 20))); (Date 738888, Num (Q2Qc (-1 # 50)))].

Definition example_heap : heap :=
  mkHeap (Num (Q2Qc (4 # 100)))
         (<[0%nat := example_prices]> (<[1%nat := example_returns]> ∅)) [].

(** Two days at a price of zero. *)
Definition zero_prices : DataFrame :=
  mkDataFrame [Date 738886; Date 738887] [("A", [Num 0%Qc; Num 0%Qc])].

Definition zero_heap : heap :=
  mkHeap (Num (Q2Qc (4 # 100))) (<[0%nat := zero_prices]> ∅) [].

(** Twenty-two days of returns of one symbol with unbounded values (log
    returns are unbounded when a price falls to zero and comes back). *)
Definition unbounded_returns : DataFrame :=
  mkDataFrame (map (fun k => Date (738887 + Z.of_nat k)) (seq 0 22))
    [("A", [NInf; Num 0%Qc] ++ replicate 20 PInf)].

Definition unbounded_heap : heap :=
  mkHeap (Num (Q2Qc (4 # 100))) (<[0%nat := unbounded_returns]> ∅) [].

(** A fetcher with no data. *)
Definition no_fetcher : Fetcher := fun _ _ => FetchFailed.

(** Rational stand-ins for the numeric routines, used to run the methods on
    the example data: the square root rounded down to the denominator of
    its argument, the first-order logarithm and the 5% point of the normal
    distribution. *)
Definition example_sqrt (q : Qc) : Qc :=
  Q2Qc (Z.sqrt (Qnum (this q) * Zpos (Qden (this q))) # Qden (this q)).
Definition example_ln (q : Qc) : Qc := (q - 1)%Qc.
Definition example_norm_ppf (_ : float) : float := Num (Q2Qc (-1645 # 1000)).

(** ** The analyzer *)

Section Analyzer.

#[local] Set Default Proof Using "Type".

(** Numeric routines of [numpy] and [scipy] on finite arguments, and the
    correlation routines of [pandas]. *)
Variable sqrt : Qc -> Qc.
Variable ln : Qc -> Qc.
Variable norm_ppf : float -> float.
Variable corr_matrix : string -> DataFrame -> result DataFrame.
Variable corr_pair : string -> Series -> Series -> result float.
(** The day returned by [datetime.now()]. *)
Variable today : Z.

Definition np_sqrt (x : float) : float :=
  match x with
  | NaN | NInf => NaN
  | PInf => PInf
  | Num a => if Qc_ltb a 0 then NaN else Num (sqrt a)
  end.

Definition np_log (x : float) : float :=
  match x with
  | NaN | NInf => NaN
  | PInf => PInf
  | Num a => if Qc_ltb 0 a then Num (ln a) else if Qc_eqb a 0 then NInf else NaN
  end.

Definition pd_std (xs : list float) : float := np_sqrt (pd_var xs).

(** [df.pct_change()]: gaps are padded forward, then [df / df.shift(1) - 1]. *)
Definition df_pct_change (df : DataFrame) : DataFrame :=
  let d := df_map pd_ffill df in
  df_map (map (fun x => fsub x (Num 1%Qc))) (df_zip_with fdiv d (df_map pd_shift d)).

Definition delta_of_interval (interval : string) : option Z :=
  if decide (interval = "daily") then Some 1
  else if decide (interval = "weekly") then Some 7
  else if decide (interval = "monthly") then Some 30
  else None.

Definition fetch_symbol (fetcher : Fetcher) (dates : list Z) (symbol : string)
  : M (list float) :=
  for_each (fun date =>
              let* result := call_fetch_price fetcher symbol date in
              ret (match result with
                   | Fetched (Some price) => price
                   | Fetched None | FetchFailed => NaN
                   end))
           dates.

Definition fetch_historical_data (fetcher : Fetcher) (symbols : list string)
    (start_date : Z) (end_date : option Z) (interval : string) : M loc :=
  let end_date := match end_date with Some d => d | None => today end in
  let start := start_date in
  let end_ := end_date in
  let* delta := lift_opt ValueError (delta_of_interval interval) in
  let* dates := lift_opt OutOfFuel
                  (date_range (Z.to_nat (end_ - start + 1)) start end_ delta) in
  let* price_data :=
    fold_each (fun price_data symbol =>
                 let* symbol_prices := fetch_symbol fetcher dates symbol in
                 ret (assoc_set symbol symbol_prices price_data))
              symbols [] in
  let df := mkDataFrame (map Date dates) price_data in
  let df := df_map pd_ffill df in
  let df := df_map pd_bfill df in
  alloc df.

Definition calculate_returns (prices : loc) (return_type : string) : M loc :=
  let* returns :=
    if decide (return_type = "simple") then
      let* prices := load prices in
      ret (df_pct_change prices)
    else if decide (return_type = "log") then
      let* prices := load prices in
      ret (df_map (map np_log) (df_zip_with fdiv prices (df_map pd_shift prices)))
    else raise ValueError in
  let returns := df_dropna returns in
  alloc returns.

Definition calculate_correlation_matrix (returns : loc) (method : string) : M loc :=
  let* returns := load returns in
  let* correlation := lift (corr_matrix method returns) in
  alloc correlation.

Definition calculate_pairwise_correlation (returns : loc) (symbol1 symbol2 method : string)
  : M float :=
  let* returns := load returns in
  match df_col returns symbol1, df_col returns symbol2 with
  | Some s1, Some s2 => lift (corr_pair method s1 s2)
  | _, _ => raise ValueError
  end.

Definition scale (k : float) (s : Series) : Series := sr_map (fun x => fmul x k) s.

Definition calculate_volatility (returns : loc) (annualize : bool) (trading_days : Z)
  : M Series :=
  let* returns := load returns in
  let volatility := df_reduce pd_std returns in
  let volatility :=
    if annualize then scale (np_sqrt (float_of_Z trading_days)) volatility
    else volatility in
  ret volatility.

Definition calculate_variance (returns : loc) (annualize : bool) (trading_days : Z)
  : M Series :=
  let* returns := load returns in
  let variance := df_reduce pd_var returns in
  let variance :=
    if annualize then scale (float_of_Z trading_days) variance
    else variance in
  ret variance.

Definition or_instance_rate (risk_free_rate : option float) : M float :=
  match risk_free_rate with
  | None => get_risk_free_rate
  | Some r => ret r
  end.

Definition calculate_sharpe_ratio (returns : loc) (risk_free_rate : option float)
    (trading_days : Z) : M Series :=
  let* risk_free_rate := or_instance_rate risk_free_rate in
  let* returns := load returns in
  let mean_return := scale (float_of_Z trading_days) (df_reduce pd_mean returns) in
  let volatility := scale (np_sqrt (float_of_Z trading_days)) (df_reduce pd_std returns) in
  let sharpe := sr_binop fdiv (sr_map (fun x => fsub x risk_free_rate) mean_return) volatility in
  ret sharpe.

(** [df[df > 0] = 0], in place. *)
Definition clamp_positive (df : DataFrame) : DataFrame :=
  df_map (map (fun x => if flt (Num 0%Qc) x then Num 0%Qc else x)) df.

Definition calculate_sortino_ratio (returns : loc) (risk_free_rate : option float)
    (trading_days : Z) : M Series :=
  let* risk_free_rate := or_instance_rate risk_free_rate in
  let* returns_df := load returns in
  let mean_return := scale (float_of_Z trading_days) (df_reduce pd_mean returns_df) in
  let* downside_returns := alloc returns_df in            (* returns.copy() *)
  modify downside_returns clamp_positive ;;
  let* downside_df := load downside_returns in
  let downside_deviation :=
    scale (np_sqrt (float_of_Z trading_days)) (df_reduce pd_std downside_df) in
  let sortino :=
    sr_binop fdiv (sr_map (fun x => fsub x risk_free_rate) mean_return) downside_deviation in
  ret sortino.

Definition calculate_max_drawdown (prices : loc) : M Series :=
  let* prices := load prices in
  let cumulative_max := df_map pd_cummax prices in
  let drawdown := df_zip_with fdiv (df_zip_with fsub prices cumulative_max) cumulative_max in
  let max_drawdown := df_reduce pd_min drawdown in
  ret max_drawdown.

Definition calculate_value_at_risk (returns : loc) (confidence_level : float)
    (method : string) : M Series :=
  if decide (method = "historical") then
    let* returns := load returns in
    lift (df_quantile (fsub (Num 1%Qc) confidence_level) returns)
  else if decide (method = "parametric") then
    let z_score := norm_ppf (fsub (Num 1%Qc) confidence_level) in
    let* returns := load returns in
    ret (sr_binop fadd (df_reduce pd_mean returns)
                  (sr_map (fun x => fmul z_score x) (df_reduce pd_std returns)))
  else raise ValueError.

(** The cells of a column at or below the threshold. *)
Definition tail_of (threshold : float) (xs : list float) : list float :=
  filter (fun x => fle x threshold) xs.

Definition calculate_conditional_var (returns : loc) (confidence_level : float)
  : M Series :=
  let* returns := load returns in
  let* var_threshold := lift (df_quantile (fsub (Num 1%Qc) confidence_level) returns) in
  let cvar := sr_empty (map Sym (col_names returns)) in
  fold_each (fun cvar symbol =>
               let* symbol_returns := lift_opt KeyError (df_col returns symbol) in
               let threshold := sr_get var_threshold (Sym symbol) in
               let tail_returns := tail_of threshold (sr_values symbol_returns) in
               ret (sr_set cvar (Sym symbol)
                      (if (0 <? length tail_returns)%nat then pd_mean tail_returns
                       else threshold)))
            (col_names returns) cvar.

(** Truth value of an optional string argument: [None] and [''] are false. *)
Definition truthy (symbol : option string) : option string :=
  match symbol with
  | Some s => if decide (s = "") then None else Some s
  | None => None
  end.

Definition calculate_beta (returns : loc) (market_returns : Series)
    (symbol : option string) : M Series :=
  let* returns := load returns in
  let symbols_to_calc :=
    match truthy symbol with Some s => [s] | None => col_names returns end in
  let beta := sr_empty (map Sym symbols_to_calc) in
  fold_each (fun beta sym =>
               match df_col returns sym with
               | None => raise ValueError
               | Some column =>
                   let covariance := pd_cov column market_returns in
                   let market_variance := pd_var (sr_values market_returns) in
                   ret (sr_set beta (Sym sym) (fdiv covariance market_variance))
               end)
            symbols_to_calc beta.

Definition calculate_alpha (returns : loc) (market_returns : Series)
    (risk_free_rate : option float) (trading_days : Z) (symbol : option string)
  : M Series :=
  let* risk_free_rate := or_instance_rate risk_free_rate in
  let* returns_df := load returns in
  let symbols_to_calc :=
    match truthy symbol with Some s => [s] | None => col_names returns_df end in
  let* beta := calculate_beta returns market_returns None in
  let* selected := lift_opt KeyError (df_cols returns_df symbols_to_calc) in
  let stock_returns := scale (float_of_Z trading_days) (df_reduce pd_mean selected) in
  let market_return := fmul (pd_mean (sr_values market_returns)) (float_of_Z trading_days) in
  let expected_return :=
    sr_map (fun b => fadd risk_free_rate (fmul b (fsub market_return risk_free_rate))) beta in
  let alpha := sr_binop fsub stock_returns expected_return in
  ret alpha.

Definition calculate_information_ratio (returns : loc) (benchmark_returns : Series)
    (trading_days : Z) : M Series :=
  let* returns := load returns in
  let excess_returns := df_sub_series returns benchmark_returns in
  let mean_excess := scale (float_of_Z trading_days) (df_reduce pd_mean excess_returns) in
  let tracking_error :=
    scale (np_sqrt (float_of_Z trading_days)) (df_reduce pd_std excess_returns) in
  let information_ratio := sr_binop fdiv mean_excess tracking_error in
  ret information_ratio.

(** [report[name] = series], in place. *)
Definition setitem (report : loc) (name : string) (s : Series) : M unit :=
  modify report (fun df => df_setitem df name s).

Definition generate_risk_report (returns prices : loc) (market_returns : option Series)
  : M loc :=
  let* returns_df := load returns in
  let* report := alloc (mkDataFrame (map Sym (col_names returns_df)) []) in
  setitem report "Mean Return (Annual)"
          (scale (float_of_Z 252) (df_reduce pd_mean returns_df)) ;;
  let* s := calculate_volatility returns true 252 in
  setitem report "Volatility (Annual)" s ;;
  let* s := calculate_variance returns true 252 in
  setitem report "Variance (Annual)" s ;;
  let* s := calculate_sharpe_ratio returns None 252 in
  setitem report "Sharpe Ratio" s ;;
  let* s := calculate_sortino_ratio returns None 252 in
  setitem report "Sortino Ratio" s ;;
  let* s := calculate_max_drawdown prices in
  setitem report "Max Drawdown" s ;;
  let* s := calculate_value_at_risk returns (Num (Q2Qc (95 # 100))) "historical" in
  setitem report "VaR (95%)" s ;;
  let* s := calculate_conditional_var returns (Num (Q2Qc (95 # 100))) in
  setitem report "CVaR (95%)" s ;;
  match market_returns with
  | Some market_returns =>
      let* s := calculate_beta returns market_returns None in
      setitem report "Beta" s ;;
      let* s := calculate_alpha returns market_returns None 252 None in
      setitem report "Alpha (Annual)" s ;;
      let* s := calculate_information_ratio returns market_returns 252 in
      setitem report "Information Ratio" s ;;
      ret report
  | None => ret report
  end.

(** Every public method of the analyzer, as a call with its arguments. *)
Inductive method_call : Type :=
  | FetchHistoricalData (fetcher : Fetcher) (symbols : list string)
      (start_date : Z) (end_date : option Z) (interval : string)
  | CalculateReturns (prices : loc) (return_type : string)
  | CalculateCorrelationMatrix (returns : loc) (method : string)
  | CalculatePairwiseCorrelation (returns : loc) (symbol1 symbol2 method : string)
  | CalculateVolatility (returns : loc) (annualize : bool) (trading_days : Z)
  | CalculateVariance (returns : loc) (annualize : bool) (trading_days : Z)
  | CalculateSharpeRatio (returns : loc) (risk_free_rate : option float) (trading_days : Z)
  | CalculateSortinoRatio (returns : loc) (risk_free_rate : option float) (trading_days : Z)
  | CalculateMaxDrawdown (prices : loc)
  | CalculateValueAtRisk (returns : loc) (confidence_level : float) (method : string)
  | CalculateConditionalVar (returns : loc) (confidence_level : float)
  | CalculateBeta (returns : loc) (market_returns : Series) (symbol : option string)
  | CalculateAlpha (returns : loc) (market_returns : Series)
      (risk_free_rate : option float) (trading_days : Z) (symbol : option string)
  | CalculateInformationRatio (returns : loc) (benchmark_returns : Series) (trading_days : Z)
  | GenerateRiskReport (returns prices : loc) (market_returns : option Series).

Definition discard {A} (m : M A) : M unit := let* _ := m in ret tt.

Definition call (c : method_call) : M unit :=
  match c with
  | FetchHistoricalData f s a b i => discard (fetch_historical_data f s a b i)
  | CalculateReturns p r => discard (calculate_returns p r)
  | CalculateCorrelationMatrix r m => discard (calculate_correlation_matrix r m)
  | CalculatePairwiseCorrelation r a b m => discard (calculate_pairwise_correlation r a b m)
  | CalculateVolatility r a t => discard (calculate_volatility r a t)
  | CalculateVariance r a t => discard (calculate_variance r a t)
  | CalculateSharpeRatio r f t => discard (calculate_sharpe_ratio r f t)
  | CalculateSortinoRatio r f t => discard (calculate_sortino_ratio r f t)
  | CalculateMaxDrawdown p => discard (calculate_max_drawdown p)
  | CalculateValueAtRisk r c m => discard (calculate_value_at_risk r c m)
  | CalculateConditionalVar r c => discard (calculate_conditional_var r c)
  | CalculateBeta r m s => discard (calculate_beta r m s)
  | CalculateAlpha r m f t s => discard (calculate_alpha r m f t s)
  | CalculateInformationRatio r b t => discard (calculate_information_ratio r b t)
  | GenerateRiskReport r p m => discard (generate_risk_report r p m)
  end.

(** A heap extends another when the configured rate and every frame of
    the older heap are the same in the newer one. *)
Definition extends (h h' : heap) : Prop :=
  self_risk_free_rate h' = self_risk_free_rate h /\
  forall l df, frames h !! l = Some df -> frames h' !! l = Some df.

(** [frame_safe m]: whatever [m] does, the configured rate and the frames
    that existed before the call are left as they were. *)
Definition frame_safe {A} (m : M A) : Prop := forall h, extends h (exec m h).

(** [preserves h0 m]: [m] keeps a heap that extends [h0] an extension of [h0]. *)
Definition preserves {A} (h0 : heap) (m : M A) : Prop :=
  forall h, extends h0 h -> extends h0 (exec m h).

(** Total correctness: from a heap satisfying [P], [m] returns normally
    with a value and a heap satisfying [Q]. *)
Definition hoare {A} (P : heap -> Prop) (m : M A) (Q : A -> heap -> Prop) : Prop :=
  forall h, P h -> exists a h', m h = (Ok a, h') /\ Q a h'.

(** The value stored in [cvar[symbol]] for a column and its threshold. *)
Definition cvar_of (threshold : float) (xs : list float) : float :=
  let tail_returns := tail_of threshold xs in
  if (0 <? length tail_returns)%nat then pd_mean tail_returns else threshold.

Definition beta_of (market_returns : Series) (column : Series) : float :=
  fdiv (pd_cov column market_returns) (pd_var (sr_values market_returns)).

(** Assigning [g n] at every label [Sym n], in the order of [names]. *)
Definition fill (g : string -> float) (names : list string) (acc : Series) : Series :=
  foldl (fun acc n => sr_set acc (Sym n) (g n)) acc names.

(** Fractional decline of each cell from the running maximum of its column. *)
Definition drawdown_of (xs : list float) : list float :=
  zip_with fdiv (zip_with fsub xs (pd_cummax xs)) (pd_cummax xs).

(** While the report is assembled: the inputs are where they were and the
    report at [report] has one row per symbol and the columns [names]. *)
Definition report_inv (returns prices report : loc) (dfr dfp : DataFrame)
    (names : list string) (h : heap) : Prop :=
  frames h !! returns = Some dfr /\
  frames h !! prices = Some dfp /\
  exists rep,
    frames h !! report = Some rep /\
    index rep = map Sym (col_names dfr) /\
    col_names rep = names /\
    Forall (fun c => length (snd c) = length (col_names dfr)) (columns rep).

(** The confidence level 0.95. *)
Definition confidence_95 : float := Num (Q2Qc (95 # 100)).

Definition result_map {A B} (f : A -> B) (r : result A) : result B :=
  match r with Ok a => Ok (f a) | Raise e => Raise e end.

(** The dates [start, start + delta, ...] up to [end_]. *)
Definition date_grid (start end_ delta : Z) : list Z :=
  map (fun k => start + Z.of_nat k * delta)
      (seq 0 (Z.to_nat ((end_ - start) / delta) + 1)).

(** Period returns of a column of finite prices. *)
Definition simple_returns (ps : list Qc) : list Qc :=
  zip_with (fun prev cur => (cur / prev - 1)%Qc) ps (tail ps).

Definition log_returns (ps : list Qc) : list Qc :=
  zip_with (fun prev cur => ln (cur / prev)%Qc) ps (tail ps).

(** A frame all of whose cells are finite. *)
Definition finite_frame (idx : list label) (cols : list (string * list Qc)) : DataFrame :=
  mkDataFrame idx (map (fun c => (fst c, map Num (snd c))) cols).

Definition is_finite_or_nan (x : float) : Prop :=
  match x with NaN | Num _ => True | _ => False end.

Definition base_metrics : list string :=
  ["Mean Return (Annual)"; "Volatility (Annual)"; "Variance (Annual)";
   "Sharpe Ratio"; "Sortino Ratio"; "Max Drawdown"; "VaR (95%)"; "CVaR (95%)"].

Definition market_metrics : list string :=
  ["Beta"; "Alpha (Annual)"; "Information Ratio"].

Fixpoint nondecreasing (ps : list Qc) : Prop :=
  match ps with
  | [] => True
  | p :: r => match r with [] => True | p' :: _ => (p <= p')%Qc end /\ nondecreasing r
  end.

(** ** The price matrix built by [fetch_historical_data] *)

(** The cell recorded for one call to the fetcher: the price of the record
    it returned, a missing value when the record has none or the call
    raised. *)
Definition price_of (o : fetch_outcome) : float :=
  match o with
  | Fetched (Some price) => price
  | Fetched None | FetchFailed => NaN
  end.

(** The dates visited by the loop over the dates. *)
Definition dates_of (start end_ delta : Z) : list Z :=
  if start <=? end_ then date_grid start end_ delta else [].

(** The calls made for [symbols] over [dates]: symbol by symbol, each over
    all the dates in order. *)
Definition fetch_calls (symbols : list string) (dates : list Z) : list (string * Z) :=
  flat_map (fun s => map (fun d => (s, d)) dates) symbols.

Definition fetched_prices (fetcher : Fetcher) (dates : list Z) (symbol : string)
  : list float :=
  map (fun d => price_of (fetcher symbol d)) dates.

(** The mapping [price_data] after the loop over [symbols]. *)
Definition price_data (fetcher : Fetcher) (dates : list Z) (symbols : list string)
    (acc : list (string * list float)) : list (string * list float) :=
  foldl (fun acc s => assoc_set s (fetched_prices fetcher dates s) acc) acc symbols.

(** Backward fill, read from the end of the column. *)
Fixpoint bfill_to (xs : list float) : list float :=
  match xs with
  | [] => []
  | x :: r =>
      let t := bfill_to r in
      (if isna x then hd NaN t else x) :: t
  end.

(** A fetcher that knows the price of [A] on two days of a week. *)
Definition example_fetcher : Fetcher :=
  fun symbol date =>
    if decide (symbol = "A") then
      if date =? 738887 then Fetched (Some (Num (Qc_of_Z 110)))
      else if date =? 738889 then Fetched (Some (Num (Qc_of_Z 121)))
      else if date =? 738888 then FetchFailed
      else Fetched None
    else FetchFailed.

(** ** Shapes and round trips *)

(** A frame is rectangular when every column has one cell per row. *)
Definition rectangular (df : DataFrame) : Prop :=
  Forall (fun c => length (snd c) = nrows df) (columns df).

(** The prices rebuilt from a first price and the simple returns that
    follow it: each price is the previous one times one plus the return. *)
Fixpoint compound (p : Qc) (rs : list Qc) : list Qc :=
  match rs with
  | [] => [p]
  | r :: rs' => p :: compound (p * (1 + r))%Qc rs'
  end.

(** The running maximum of a column of finite prices, starting from [c]. *)
Fixpoint peaks_from (c : Qc) (qs : list Qc) : list Qc :=
  match qs with
  | [] => []
  | q :: r =>
      let m := if Qc_leb c q then q else c in
      m :: peaks_from m r
  end.

(** ** What the ratio methods compute *)

(** Annualized excess return over annualized deviation; the deviation is
    taken on [risk], the returns themselves for the Sharpe ratio and the
    returns with the gains set to zero for the Sortino ratio. *)
Definition ratio_of (rate : float) (trading_days : Z) (returns risk : DataFrame)
  : Series :=
  sr_binop fdiv
    (sr_map (fun x => fsub x rate)
            (scale (float_of_Z trading_days) (df_reduce pd_mean returns)))
    (scale (np_sqrt (float_of_Z trading_days)) (df_reduce pd_std risk)).

(** The return expected from each beta under the CAPM. *)
Definition expected_return (rate market_return : float) (beta : Series) : Series :=
  sr_map (fun b => fadd rate (fmul b (fsub market_return rate))) beta.

(** [quiet m]: [m] makes no call to the fetcher. *)
Definition quiet {A} (m : M A) : Prop :=
  forall h, fetch_log (exec m h) = fetch_log h.

(** ** The cells of the risk report *)

(** The columns of the report after the mean return, each with the call
    whose result is assigned to it. *)
Definition report_methods (returns prices : loc) (market_returns : option Series)
  : list (string * M Series) :=
  [("Volatility (Annual)", calculate_volatility returns true 252);
   ("Variance (Annual)", calculate_variance returns true 252);
   ("Sharpe Ratio", calculate_sharpe_ratio returns None 252);
   ("Sortino Ratio", calculate_sortino_ratio returns None 252);
   ("Max Drawdown", calculate_max_drawdown prices);
   ("VaR (95%)", calculate_value_at_risk returns confidence_95 "historical");
   ("CVaR (95%)", calculate_conditional_var returns confidence_95)] ++
  match market_returns with
  | Some market_returns =>
      [("Beta", calculate_beta returns market_returns None);
       ("Alpha (Annual)", calculate_alpha returns market_returns None 252 None);
       ("Information Ratio", calculate_information_ratio returns market_returns 252)]
  | None => []
  end.

(** [report[name] = method(...)] for each entry of [l] in turn, then [k]. *)
Definition fill_report (report : loc) (l : list (string * M Series)) (k : M loc)
  : M loc :=
  foldr (fun e k => let* s := snd e in setitem report (fst e) s ;; k) k l.

(** The inputs of the report are where they were, with the rate of the
    analyzer. *)
Definition inputs_at (returns prices : loc) (dfr dfp : DataFrame) (rate : float)
    (h : heap) : Prop :=
  frames h !! returns = Some dfr /\
  frames h !! prices = Some dfp /\
  self_risk_free_rate h = rate.

(** While the report is filled: the inputs are where they were and the
    column of every entry of [known] holds the entry's series, aligned on
    the symbols of the returns. *)
Definition report_holds (returns prices report : loc) (dfr dfp : DataFrame)
    (rate : float) (known : list (string * Series)) (h : heap) : Prop :=
  inputs_at returns prices dfr dfp rate h /\
  exists rep,
    frames h !! report = Some rep /\
    index rep = map Sym (col_names dfr) /\
    Forall (fun e => assoc_get (fst e) (columns rep) =
                     Some (sr_reindex (snd e) (map Sym (col_names dfr)))) known.

(** [m] returns the same series from every heap that holds the inputs,
    and leaves them in place. *)
Definition returns_value (P : heap -> Prop) (m : M Series) (v : Series) : Prop :=
  forall h, P h -> exists h', m h = (Ok v, h') /\ extends h h'.

Definition methods_return (P : heap -> Prop) (l : list (string * M Series))
    (vs : list Series) : Prop :=
  Forall2 (fun e v => returns_value P (snd e) v) l vs.

(** ** Price fetchers ([src/fetchers])

    The services behind the fetchers are parameters: the answer to the
    queries of each attempt is given by a function of the symbol, the
    date and the number of the attempt.  A call returns the record it
    builds (or [None] when it falls off the end of its loop), or the
    exception that escapes it, together with what it did: the requests it
    made and the pauses it took. *)

(** The exception that can escape the functions below, and the end of a
    call: the value it returns or the exception it raises. *)
Inductive py_error : Type :=
  | OverflowError.

Inductive outcome (A : Type) : Type :=
  | Returned (a : A)
  | Raised (e : py_error).
#[global] Arguments Returned {A} a.
#[global] Arguments Raised {A} e.

(** [float * int] converts the [int] to a [float] first; the conversion
    raises [OverflowError] (int too large to convert to float) when the
    integer rounds to a magnitude beyond the largest double, that is from
    [2 ** 1024 - 2 ** 970] on. *)
Definition float_of_int_bound : Z := 2 ^ 1024 - 2 ^ 970.

Definition float_of_int (n : Z) : outcome float :=
  if Z.abs n <? float_of_int_bound then Returned (float_of_Z n)
  else Raised OverflowError.

(** [min(a, b)] of Python: [b] when it is strictly smaller, [a] otherwise. *)
Definition py_min (a b : float) : float := if flt b a then b else a.

(** [BaseFetcher.exponential_backoff] *)
Definition exponential_backoff (attempt : nat) (base_delay max_delay : float)
  : outcome float :=
  match float_of_int (2 ^ Z.of_nat attempt) with
  | Returned power =>
      let delay := py_min (fmul base_delay power) max_delay in
      Returned delay
  | Raised e => Raised e
  end.

(** The record returned by [fetch_price]. *)
Record price_record : Type := mkPriceRecord {
  price : option float;
  date : option string;
  currency : option string
}.

Inductive event : Type :=
  | Request (symbol : string) (date : option string)
  | Sleep (seconds : float).

Definition requested (events : list event) : list (string * option string) :=
  omap (fun e => match e with Request s d => Some (s, d) | Sleep _ => None end) events.

Definition sleeps (events : list event) : list float :=
  omap (fun e => match e with Sleep d => Some d | Request _ _ => None end) events.

(** The record of a failed fetch. *)
Definition no_price : price_record := mkPriceRecord None None (Some "USD").

(** The handler of a failed attempt ([except Exception]): pause and go on
    to the next attempt ([next]), or give up after the last one.  An
    exception raised by [exponential_backoff] in the handler escapes the
    call. *)
Definition retry_or_give_up (max_retries : Z) (attempt : nat)
    (request : event) (next : list event * outcome (option price_record))
  : list event * outcome (option price_record) :=
  if Z.of_nat attempt <? max_retries - 1 then
    match exponential_backoff attempt (Num 1%Qc) (Num (Qc_of_Z 60)) with
    | Returned delay => (request :: Sleep delay :: fst next, snd next)
    | Raised e => ([request], Raised e)
    end
  else ([request], Returned (Some no_price)).

(** *** Yahoo Finance *)

(** What the queries of one attempt give: an exception somewhere in the
    [try] block, or the [info] mapping of the ticker and the rows (day,
    close) of the history asked for. *)
Inductive yf_response : Type :=
  | YfRaises
  | YfData (info : list (string * option string)) (hist : list (string * float)).

Definition Yahoo : Type := string -> option string -> nat -> yf_response.

(** The record built in the [try] block from the data of the ticker. *)
Definition yf_record (date : option string) (info : list (string * option string))
    (hist : list (string * float)) : price_record :=
  let currency := default (Some "USD") (assoc_get "currency" info) in
  match truthy date with
  | Some date =>
      match hist with
      | row :: _ => mkPriceRecord (Some (snd row)) (Some (fst row)) currency
      | [] => mkPriceRecord None (Some date) currency
      end
  | None =>
      match last hist with
      | Some row => mkPriceRecord (Some (snd row)) (Some (fst row)) currency
      | None => mkPriceRecord None None currency
      end
  end.

Fixpoint yf_attempts (yahoo : Yahoo) (max_retries : Z) (symbol : string)
    (date : option string) (attempts : list nat)
  : list event * outcome (option price_record) :=
  match attempts with
  | [] => ([], Returned None)
  | attempt :: rest =>
      match yahoo symbol date attempt with
      | YfData info hist =>
          ([Request symbol date], Returned (Some (yf_record date info hist)))
      | YfRaises =>
          retry_or_give_up max_retries attempt (Request symbol date)
            (yf_attempts yahoo max_retries symbol date rest)
      end
  end.

(** [YFinanceFetcher.fetch_price]: [for attempt in range(self.max_retries)]. *)
Definition yfinance_fetch_price (yahoo : Yahoo) (max_retries : Z) (symbol : string)
    (date : option string) : list event * outcome (option price_record) :=
  yf_attempts yahoo max_retries symbol date (seq 0 (Z.to_nat max_retries)).

(** *** Polygon.io *)

(** What one request gives: an exception (from the request, from
    [raise_for_status] or from the decoding), the status 429, or the
    decoded document with its ['close'] and, for each entry of its
    ['results'], the close ['c'] and the timestamp ['t']. *)
Inductive polygon_response : Type :=
  | PgRaises
  | PgRateLimited
  | PgData (close : option float) (results : list (option float * option Z)).

Definition PolygonApi : Type := string -> option string -> nat -> polygon_response.

(** [symbol.replace('.TW', '')] *)
Fixpoint remove_TW (s : string) : string :=
  match s with
  | EmptyString => EmptyString
  | String c s1 =>
      match c, s1 with
      | "."%char, String "T"%char (String "W"%char s3) => remove_TW s3
      | _, _ => String c (remove_TW s1)
      end
  end.

Record PolygonFetcher : Type := mkPolygonFetcher {
  self_api_key : string;
  self_max_retries : Z
}.

(** [PolygonFetcher.__init__]; [getenv] is the environment. *)
Definition polygon_init (getenv : string -> option string) (api_key : option string)
    (max_retries : Z) : result PolygonFetcher :=
  let api_key :=
    match truthy api_key with
    | Some key => Some key
    | None => getenv "POLYGON_API_KEY"
    end in
  match truthy api_key with
  | Some key => Ok (mkPolygonFetcher key max_retries)
  | None => Raise ValueError
  end.

(** The pause taken after an answered request. *)
Definition polygon_pause : float := Num (Q2Qc (25 # 2)).

Fixpoint pg_attempts (polygon : PolygonApi) (local_day : Z -> string) (max_retries : Z)
    (clean_symbol : string) (date : option string) (attempts : list nat)
  : list event * outcome (option price_record) :=
  match attempts with
  | [] => ([], Returned None)
  | attempt :: rest =>
      let request := Request clean_symbol date in
      let next := pg_attempts polygon local_day max_retries clean_symbol date rest in
      let answered r := ([request; Sleep polygon_pause], Returned (Some r)) in
      let handler := retry_or_give_up max_retries attempt request next in
      match polygon clean_symbol date attempt with
      | PgRateLimited =>
          if Z.of_nat attempt <? max_retries - 1 then
            match exponential_backoff attempt (Num (Qc_of_Z 2)) (Num (Qc_of_Z 60)) with
            | Returned delay => (request :: Sleep delay :: fst next, snd next)
            | Raised _ => handler   (* raised in the [try] block *)
            end
          else ([request], Returned (Some no_price))
      | PgRaises => handler
      | PgData close results =>
          match truthy date with
          | Some date => answered (mkPriceRecord close (Some date) (Some "USD"))
          | None =>
              match results with
              | [] => answered (mkPriceRecord None None (Some "USD"))
              | (c, Some timestamp) :: _ =>
                  answered (mkPriceRecord c (Some (local_day timestamp)) (Some "USD"))
              | (c, None) :: _ =>
                  (* [timestamp / 1000] raises *)
                  handler
              end
          end
      end
  end.

(** [PolygonFetcher.fetch_price]; [local_day] is the day of a timestamp in
    milliseconds, as formatted by [datetime.fromtimestamp(...).strftime]. *)
Definition polygon_fetch_price (polygon : PolygonApi) (local_day : Z -> string)
    (self : PolygonFetcher) (symbol : string) (date : option string)
  : list event * outcome (option price_record) :=
  let clean_symbol := remove_TW symbol in
  pg_attempts polygon local_day (self_max_retries self) clean_symbol date
              (seq 0 (Z.to_nat (self_max_retries self))).

(** *** The choice of the fetcher ([scripts/analyze_portfolio.py]) *)

Inductive fetcher_object : Type :=
  | YFinanceFetcher (max_retries : Z)
  | PolygonFetcherObject (self : PolygonFetcher).

Definition determine_backend (getenv : string -> option string) : string :=
  let polygon_key := getenv "POLYGON_API_KEY" in
  match truthy polygon_key with
  | Some _ => "polygon"
  | None => "yfinance"
  end.

Definition get_fetcher (getenv : string -> option string) (backend : option string)
  : result fetcher_object :=
  let backend :=
    match backend with
    | None => determine_backend getenv
    | Some backend => backend
    end in
  if decide (backend = "yfinance") then Ok (YFinanceFetcher 3)
  else if decide (backend = "polygon") then
    result_map PolygonFetcherObject (polygon_init getenv None 3)
  else Raise ValueError.

(** An answer of Yahoo Finance on the third attempt, and a service that
    always limits the rate. *)
Definition example_yahoo : Yahoo :=
  fun symbol date attempt =>
    if (attempt <? 2)%nat then YfRaises
    else YfData [("currency", Some "TWD")] [("2024-01-03", Num (Qc_of_Z 593))].

Definition busy_polygon : PolygonApi := fun _ _ _ => PgRateLimited.

Definition example_env : string -> option string :=
  fun name => if decide (name = "POLYGON_API_KEY") then Some "key" else None.

(** Two days of losses, and a heap holding them. *)
Definition falling_returns : DataFrame :=
  mkDataFrame (tail example_dates)
    [("A", [Num (Q2Qc (-1 # 10)); Num 0%Qc]);
     ("B", [Num (Q2Qc (-1 # 2)); Num (Q2Qc (-1 # 4))])].

Definition falling_heap : heap :=
  mkHeap (Num (Q2Qc (4 # 100))) (<[0%nat := falling_returns]> ∅) [].

(** The returns of [B] as a market series. *)
Definition example_own_market : Series :=
  [(Date 738887, Num (Q2Qc (-1 # 2))); (Date 738888, Num (Q2Qc (1 # 2)))].

(** Stand-ins for the correlation routines. *)
Definition example_corr_matrix (_ : string) (df : DataFrame) : result DataFrame := Ok df.
Definition example_corr_pair (_ : string) (_ _ : Series) : result float := Ok NaN.

(** Services that never answer, and one that limits the rate once. *)
Definition failing_yahoo : Yahoo := fun _ _ _ => YfRaises.

Definition example_polygon : PolygonApi :=
  fun _ _ attempt =>
    if (attempt <? 1)%nat then PgRateLimited
    else PgData (Some (Num (Qc_of_Z 10))) [].

Definition example_local_day (_ : Z) : string := "2024-01-02".

(** ** Currency conversion ([src/utils/currency_converter.py])

    The converter keeps the rates it has obtained in [self._cache]; the
    cache is passed in and returned.  The exchange-rate service is a
    parameter, as for the fetchers. *)

(** What one request for the rates of a currency gives: an exception, the
    status 429, or the ['rates'] of the decoded document. *)
Inductive rate_response : Type :=
  | RateRaises
  | RateLimited
  | RateData (rates : list (string * float)).

Definition RateApi : Type := string -> nat -> rate_response.

Inductive rate_event : Type :=
  | RateRequest (from_currency : string)
  | RateSleep (seconds : float).

Definition rate_requests (events : list rate_event) : list string :=
  omap (fun e => match e with RateRequest c => Some c | RateSleep _ => None end) events.

(** Truth value of a float: zero is false, everything else is true. *)
Definition float_truthy (x : float) : bool :=
  match x with
  | Num q => negb (Qc_eqb q 0)
  | _ => true
  end.

(** [CurrencyConverter._exponential_backoff] *)
Definition _exponential_backoff (attempt : nat) (base_delay max_delay : float)
  : outcome float :=
  match float_of_int (2 ^ Z.of_nat attempt) with
  | Returned power =>
      let delay := py_min (fmul base_delay power) max_delay in
      Returned delay
  | Raised e => Raised e
  end.

Definition cache_key (from_currency to_currency : string) : string :=
  from_currency ++ "_" ++ to_currency.

(** The handler of a failed attempt of [get_rate] ([except Exception]);
    an exception raised by [_exponential_backoff] in the handler escapes
    the call. *)
Definition rate_retry_or_give_up (max_retries : Z) (attempt : nat)
    (request : rate_event) (cache : gmap string float)
    (next : list rate_event * outcome (option float) * gmap string float)
  : list rate_event * outcome (option float) * gmap string float :=
  if Z.of_nat attempt <? max_retries - 1 then
    match _exponential_backoff attempt (Num 1%Qc) (Num (Qc_of_Z 60)) with
    | Returned delay =>
        (request :: RateSleep delay :: fst (fst next), snd (fst next), snd next)
    | Raised e => ([request], Raised e, cache)
    end
  else ([request], Returned None, cache).

Fixpoint rate_attempts (api : RateApi) (max_retries : Z)
    (from_currency to_currency : string) (cache : gmap string float)
    (attempts : list nat)
  : list rate_event * outcome (option float) * gmap string float :=
  match attempts with
  | [] => ([], Returned None, cache)
  | attempt :: rest =>
      let request := RateRequest from_currency in
      let next := rate_attempts api max_retries from_currency to_currency cache rest in
      let handler := rate_retry_or_give_up max_retries attempt request cache next in
      match api from_currency attempt with
      | RateLimited =>
          if Z.of_nat attempt <? max_retries - 1 then
            match _exponential_backoff attempt (Num (Qc_of_Z 2)) (Num (Qc_of_Z 60)) with
            | Returned delay =>
                (request :: RateSleep delay :: fst (fst next), snd (fst next), snd next)
            | Raised _ => handler   (* raised in the [try] block *)
            end
          else ([request], Returned None, cache)
      | RateRaises => handler
      | RateData rates =>
          match assoc_get to_currency rates with
          | Some rate =>
              if float_truthy rate
              then ([request], Returned (Some rate),
                    <[cache_key from_currency to_currency := rate]> cache)
              else ([request], Returned None, cache)
          | None => ([request], Returned None, cache)
          end
      end
  end.

(** [CurrencyConverter.get_rate] *)
Definition get_rate (api : RateApi) (cache : gmap string float)
    (from_currency to_currency : string) (max_retries : Z)
  : list rate_event * outcome (option float) * gmap string float :=
  if decide (from_currency = to_currency) then ([], Returned (Some (Num 1%Qc)), cache)
  else
    match cache !! cache_key from_currency to_currency with
    | Some rate => ([], Returned (Some rate), cache)
    | None =>
        rate_attempts api max_retries from_currency to_currency cache
                      (seq 0 (Z.to_nat max_retries))
    end.

(** [CurrencyConverter.convert] *)
Definition convert (api : RateApi) (cache : gmap string float) (price : option float)
    (from_currency to_currency : string)
  : list rate_event * outcome (option float) * gmap string float :=
  match price with
  | None => ([], Returned None, cache)
  | Some p =>
      if decide (from_currency = to_currency) then ([], Returned (Some p), cache)
      else
        let result := get_rate api cache from_currency to_currency 3 in
        match snd (fst result) with
        | Returned exchange_rate =>
            let converted :=
              match exchange_rate with
              | Some rate => if float_truthy rate then fmul p rate else p
              | None => p
              end in
            (fst (fst result), Returned (Some converted), snd result)
        | Raised e => (fst (fst result), Raised e, snd result)
        end
  end.

(** A rate service that answers on the second attempt, and one that is
    down. *)
Definition example_rates : RateApi :=
  fun _ attempt =>
    if (attempt <? 1)%nat then RateLimited
    else RateData [("USD", Num (Q2Qc (1 # 32))); ("EUR", Num (Q2Qc (1 # 35)))].

Definition failing_rates : RateApi := fun _ _ => RateRaises.

(** ** The first steps of the analysis ([scripts/analyze_portfolio.py])

    [main] fetches the daily prices of the symbols over a period and
    computes their simple returns. *)
Definition fetch_prices_and_returns (fetcher : Fetcher) (symbols : list string)
    (start_date end_date : Z) : M (loc * loc) :=
  let* prices := fetch_historical_data fetcher symbols start_date (Some end_date) "daily" in
  let* returns := calculate_returns prices "simple" in
  ret (prices, returns).

(** ** Basic facts *)

(** *** Comparisons on rationals *)

Lemma Qc_eqb_eq (x y : Qc) : Qc_eqb x y = true <-> x = y.
Proof.
  unfold Qc_eqb. rewrite Qeq_bool_iff. split.
  - apply Qc_is_canon.
  - intros ->. reflexivity.
Qed.

Lemma Qc_eqb_neq (x y : Qc) : Qc_eqb x y = false <-> x <> y.
Proof.
  rewrite <- Qc_eqb_eq. destruct (Qc_eqb x y); split; congruence.
Qed.

Lemma Qc_leb_le (x y : Qc) : Qc_leb x y = true <-> (x <= y)%Qc.
Proof. unfold Qc_leb, Qcle. apply Qle_bool_iff. Qed.

Lemma Qc_ltb_lt (x y : Qc) : Qc_ltb x y = true <-> (x < y)%Qc.
Proof.
  unfold Qc_ltb, Qclt. rewrite negb_true_iff.
  destruct (Qle_bool y x) eqn:E.
  - apply Qle_bool_iff in E. split; [discriminate|]. intros H.
    exfalso. apply (Qlt_not_le _ _ H E).
  - split; [|reflexivity]. intros _. apply Qnot_le_lt. intros H.
    apply Qle_bool_iff in H. congruence.
Qed.

(** *** The monad *)

Lemma extends_refl h : extends h h.
Proof. split; auto. Qed.

Lemma extends_trans h1 h2 h3 : extends h1 h2 -> extends h2 h3 -> extends h1 h3.
Proof. intros [E1 F1] [E2 F2]. split; [congruence|auto]. Qed.

Lemma fresh_not_allocated (h : heap) : frames h !! fresh (dom (frames h)) = None.
Proof. apply not_elem_of_dom. apply is_fresh. Qed.

Lemma extends_alloc h df :
  extends h (mkHeap (self_risk_free_rate h)
               (<[fresh (dom (frames h)) := df]> (frames h)) (fetch_log h)).
Proof.
  split; [reflexivity|]. cbn. intros l d Hl.
  rewrite lookup_insert_ne; [exact Hl|].
  intros <-. rewrite fresh_not_allocated in Hl. discriminate.
Qed.

Lemma frame_safe_ret {A} (a : A) : frame_safe (ret a).
Proof. intros h. apply extends_refl. Qed.

Lemma frame_safe_raise {A} e : frame_safe (@raise A e).
Proof. intros h. apply extends_refl. Qed.

Lemma frame_safe_lift {A} (r : result A) : frame_safe (lift r).
Proof. intros h. apply extends_refl. Qed.

Lemma frame_safe_lift_opt {A} e (o : option A) : frame_safe (lift_opt e o).
Proof. destruct o; [apply frame_safe_ret|apply frame_safe_raise]. Qed.

Lemma frame_safe_bind {A B} (m : M A) (k : A -> M B) :
  frame_safe m -> (forall a, frame_safe (k a)) -> frame_safe (bind m k).
Proof.
  intros Hm Hk h. unfold exec, bind. specialize (Hm h). unfold exec in Hm.
  destruct (m h) as [[a|e] h1]; cbn in *; [|exact Hm].
  eapply extends_trans; [exact Hm|]. apply Hk.
Qed.

Lemma frame_safe_load l : frame_safe (load l).
Proof.
  intros h. unfold exec, load. destruct (frames h !! l); apply extends_refl.
Qed.

Lemma frame_safe_get_rate : frame_safe get_risk_free_rate.
Proof. intros h. apply extends_refl. Qed.

Lemma frame_safe_alloc df : frame_safe (alloc df).
Proof. intros h. apply extends_alloc. Qed.

Lemma frame_safe_call_fetch f s d : frame_safe (call_fetch_price f s d).
Proof. intros h. split; auto. Qed.

Lemma frame_safe_for_each {A B} (f : A -> M B) l :
  (forall a, frame_safe (f a)) -> frame_safe (for_each f l).
Proof.
  intros Hf. induction l as [|x r IH]; cbn.
  - apply frame_safe_ret.
  - apply frame_safe_bind; [apply Hf|]. intros y.
    apply frame_safe_bind; [apply IH|]. intros ys. apply frame_safe_ret.
Qed.

Lemma frame_safe_fold_each {A S} (f : S -> A -> M S) l s :
  (forall s a, frame_safe (f s a)) -> frame_safe (fold_each f l s).
Proof.
  intros Hf. revert s. induction l as [|x r IH]; intros s; cbn.
  - apply frame_safe_ret.
  - apply frame_safe_bind; [apply Hf|]. intros s'. apply IH.
Qed.

Lemma frame_safe_or_instance_rate r : frame_safe (or_instance_rate r).
Proof. destruct r; [apply frame_safe_ret|apply frame_safe_get_rate]. Qed.

Lemma frame_safe_discard {A} (m : M A) : frame_safe m -> frame_safe (discard m).
Proof.
  intros H. apply frame_safe_bind; [exact H|]. intros _. apply frame_safe_ret.
Qed.

Lemma preserves_of_frame_safe {A} h0 (m : M A) : frame_safe m -> preserves h0 m.
Proof. intros Hm h Hh. eapply extends_trans; [exact Hh|apply Hm]. Qed.

Lemma preserves_bind {A B} h0 (m : M A) (k : A -> M B) :
  preserves h0 m -> (forall a, preserves h0 (k a)) -> preserves h0 (bind m k).
Proof.
  intros Hm Hk h Hh. unfold exec, bind. specialize (Hm h Hh). unfold exec in Hm.
  destruct (m h) as [[a|e] h1]; cbn in *; [|exact Hm].
  apply Hk. exact Hm.
Qed.

Lemma preserves_modify h0 l f :
  frames h0 !! l = None -> preserves h0 (modify l f).
Proof.
  intros Hl h [Hr Hf]. unfold exec, modify.
  destruct (frames h !! l) as [df|]; cbn; [|split; auto].
  split; [exact Hr|]. cbn. intros l' d Hd.
  rewrite lookup_insert_ne; [auto|]. intros <-. congruence.
Qed.

Lemma load_ok h l df : frames h !! l = Some df -> load l h = (Ok df, h).
Proof. intros H. unfold load. rewrite H. reflexivity. Qed.

Lemma bind_ok {A B} (m : M A) (k : A -> M B) h a h' :
  m h = (Ok a, h') -> bind m k h = k a h'.
Proof. intros H. unfold bind. rewrite H. reflexivity. Qed.

Lemma bind_load {B} l (k : DataFrame -> M B) h df :
  frames h !! l = Some df -> bind (load l) k h = k df h.
Proof. intros H. apply bind_ok, load_ok, H. Qed.

Lemma fold_each_pure {A S} (f : S -> A -> M S) (f' : S -> A -> S) l s h :
  (forall s a, a ∈ l -> f s a h = (Ok (f' s a), h)) ->
  fold_each f l s h = (Ok (foldl f' s l), h).
Proof.
  revert s. induction l as [|x r IH]; intros s Hf; cbn; [reflexivity|].
  erewrite bind_ok; [|apply Hf; left].
  apply IH. intros s' a Ha. apply Hf. right. exact Ha.
Qed.

(** *** Series *)

Lemma sr_get_sr_set s l x l' :
  sr_get (sr_set s l x) l' = if decide (l = l') then x else sr_get s l'.
Proof.
  induction s as [|[k y] r IH]; cbn.
  - destruct (decide (l = l')); reflexivity.
  - destruct (decide (k = l)) as [->|Hkl]; cbn.
    + destruct (decide (l = l')); reflexivity.
    + rewrite IH. destruct (decide (k = l')) as [->|]; [|reflexivity].
      destruct (decide (l = l')); [congruence|reflexivity].
Qed.

Lemma sr_index_sr_set s l x :
  l ∈ sr_index s -> sr_index (sr_set s l x) = sr_index s.
Proof.
  induction s as [|[k y] r IH]; cbn; intros Hl.
  - inversion Hl.
  - destruct (decide (k = l)) as [->|Hkl]; cbn; [reflexivity|].
    f_equal. apply IH. inversion Hl; subst; [congruence|assumption].
Qed.

Lemma sr_get_fill g names acc s :
  sr_get (fill g names acc) (Sym s) =
  if decide (s ∈ names) then g s else sr_get acc (Sym s).
Proof.
  unfold fill. revert acc. induction names as [|n r IH]; intros acc; cbn.
  - destruct (decide (s ∈ [])) as [H|]; [inversion H|reflexivity].
  - rewrite IH, sr_get_sr_set.
    destruct (decide (s ∈ r)) as [Hr|Hr].
    + rewrite decide_True by (right; exact Hr). reflexivity.
    + destruct (decide (Sym n = Sym s)) as [E|E].
      * inversion E; subst. rewrite decide_True by left. reflexivity.
      * rewrite decide_False; [reflexivity|].
        intros H. inversion H; subst; congruence.
Qed.

Lemma sr_index_fill g names acc :
  Forall (fun n => Sym n ∈ sr_index acc) names ->
  sr_index (fill g names acc) = sr_index acc.
Proof.
  unfold fill. revert acc. induction names as [|n r IH]; intros acc H; cbn.
  - reflexivity.
  - inversion H as [|? ? Hn Hr]; subst.
    rewrite IH.
    + apply sr_index_sr_set, Hn.
    + rewrite sr_index_sr_set by exact Hn. exact Hr.
Qed.

Lemma sr_index_empty idx : sr_index (sr_empty idx) = idx.
Proof.
  unfold sr_index, sr_empty. rewrite map_map. cbn. apply map_id.
Qed.

Lemma sr_index_fill_empty g names :
  sr_index (fill g names (sr_empty (map Sym names))) = map Sym names.
Proof.
  rewrite sr_index_fill; [apply sr_index_empty|].
  rewrite sr_index_empty. apply Forall_forall. intros n Hn.
  apply list_elem_of_In, in_map, list_elem_of_In, Hn.
Qed.

Lemma sr_index_map f s : sr_index (sr_map f s) = sr_index s.
Proof. unfold sr_index, sr_map. rewrite map_map. reflexivity. Qed.

Lemma sr_index_reduce f df : sr_index (df_reduce f df) = map Sym (col_names df).
Proof. unfold sr_index, df_reduce, col_names. rewrite !map_map. reflexivity. Qed.

Lemma assoc_get_in {A} k (l : list (string * A)) :
  k ∈ map fst l -> exists v, assoc_get k l = Some v.
Proof.
  induction l as [|[k' v] r IH]; cbn; intros H; [inversion H|].
  destruct (decide (k' = k)); [eauto|].
  apply IH. inversion H; subst; [congruence|assumption].
Qed.

Lemma assoc_get_elem {A} k (l : list (string * A)) v :
  assoc_get k l = Some v -> (k, v) ∈ l.
Proof.
  induction l as [|[k' v'] r IH]; cbn; [discriminate|].
  destruct (decide (k' = k)) as [->|].
  - intros [= ->]. left.
  - intros H. right. auto.
Qed.

Lemma sr_values_zip (idx : list label) (xs : list float) :
  length xs = length idx -> sr_values (zip idx xs) = xs.
Proof.
  intros H. unfold sr_values. apply snd_zip. lia.
Qed.

(** ** What each method computes *)

Lemma df_col_in df s :
  s ∈ col_names df -> exists xs, assoc_get s (columns df) = Some xs /\
                                 df_col df s = Some (zip (index df) xs).
Proof.
  intros H. destruct (assoc_get_in s (columns df) H) as [xs Hxs].
  exists xs. split; [exact Hxs|]. unfold df_col. rewrite Hxs. reflexivity.
Qed.

Lemma calculate_volatility_run h returns df annualize trading_days :
  frames h !! returns = Some df ->
  calculate_volatility returns annualize trading_days h =
  (Ok (if annualize
       then scale (np_sqrt (float_of_Z trading_days)) (df_reduce pd_std df)
       else df_reduce pd_std df), h).
Proof.
  intros H. unfold calculate_volatility. rewrite (bind_load _ _ _ _ H). reflexivity.
Qed.

Lemma calculate_variance_run h returns df annualize trading_days :
  frames h !! returns = Some df ->
  calculate_variance returns annualize trading_days h =
  (Ok (if annualize
       then scale (float_of_Z trading_days) (df_reduce pd_var df)
       else df_reduce pd_var df), h).
Proof.
  intros H. unfold calculate_variance. rewrite (bind_load _ _ _ _ H). reflexivity.
Qed.

Lemma or_instance_rate_run h r :
  or_instance_rate r h =
  (Ok (match r with Some x => x | None => self_risk_free_rate h end), h).
Proof. destruct r; reflexivity. Qed.

Lemma calculate_sharpe_ratio_run h returns df rate trading_days :
  frames h !! returns = Some df ->
  exists s, calculate_sharpe_ratio returns rate trading_days h = (Ok s, h).
Proof.
  intros H. unfold calculate_sharpe_ratio.
  erewrite bind_ok by apply or_instance_rate_run.
  rewrite (bind_load _ _ _ _ H). eexists. reflexivity.
Qed.

Lemma calculate_max_drawdown_run h prices df :
  frames h !! prices = Some df ->
  calculate_max_drawdown prices h =
  (Ok (df_reduce pd_min
         (df_zip_with fdiv (df_zip_with fsub df (df_map pd_cummax df))
                      (df_map pd_cummax df))), h).
Proof.
  intros H. unfold calculate_max_drawdown. rewrite (bind_load _ _ _ _ H). reflexivity.
Qed.

Lemma calculate_value_at_risk_historical h returns df confidence_level :
  frames h !! returns = Some df ->
  calculate_value_at_risk returns confidence_level "historical" h =
  (df_quantile (fsub (Num 1%Qc) confidence_level) df, h).
Proof.
  intros H. unfold calculate_value_at_risk.
  rewrite decide_True by reflexivity.
  rewrite (bind_load _ _ _ _ H). reflexivity.
Qed.

Lemma calculate_conditional_var_run h returns df confidence_level var :
  frames h !! returns = Some df ->
  df_quantile (fsub (Num 1%Qc) confidence_level) df = Ok var ->
  calculate_conditional_var returns confidence_level h =
  (Ok (fill (fun s => cvar_of (sr_get var (Sym s))
                        (sr_values (default [] (df_col df s))))
            (col_names df) (sr_empty (map Sym (col_names df)))), h).
Proof.
  intros H Hq. unfold calculate_conditional_var.
  rewrite (bind_load _ _ _ _ H).
  erewrite bind_ok by (unfold lift; rewrite Hq; reflexivity).
  unfold fill. apply fold_each_pure.
  intros acc s Hs. destruct (df_col_in df s Hs) as (xs & _ & Hc).
  rewrite Hc. reflexivity.
Qed.

Lemma calculate_beta_all_run h returns df market_returns :
  frames h !! returns = Some df ->
  calculate_beta returns market_returns None h =
  (Ok (fill (fun s => beta_of market_returns (default [] (df_col df s)))
            (col_names df) (sr_empty (map Sym (col_names df)))), h).
Proof.
  intros H. unfold calculate_beta. rewrite (bind_load _ _ _ _ H). cbn.
  unfold fill. apply fold_each_pure.
  intros acc s Hs. destruct (df_col_in df s Hs) as (xs & _ & Hc).
  rewrite Hc. reflexivity.
Qed.

Lemma df_cols_all df names :
  Forall (fun n => n ∈ col_names df) names ->
  exists sub, df_cols df names = Some sub /\ col_names sub = names /\
              index sub = index df.
Proof.
  intros H. unfold df_cols.
  assert (exists cs, mapM (fun n => (fun xs => (n, xs)) <$> assoc_get n (columns df)) names
                     = Some cs /\ map fst cs = names) as (cs & Hcs & Hn).
  { induction H as [|n r Hn Hr IH]; [exists []; split; reflexivity|].
    destruct IH as (cs & Hcs & Hnames).
    destruct (assoc_get_in n (columns df) Hn) as [xs Hxs].
    exists ((n, xs) :: cs). split; [|cbn; congruence].
    cbn. rewrite Hxs. cbn. rewrite Hcs. reflexivity. }
  rewrite Hcs. eexists. split; [reflexivity|]. split; [exact Hn|reflexivity].
Qed.

Lemma calculate_alpha_run h returns df market_returns rate trading_days symbol names :
  frames h !! returns = Some df ->
  names = match truthy symbol with Some s => [s] | None => col_names df end ->
  Forall (fun n => n ∈ col_names df) names ->
  exists sub stock expected,
    df_cols df names = Some sub /\
    sr_index stock = map Sym names /\
    sr_index expected = map Sym (col_names df) /\
    calculate_alpha returns market_returns rate trading_days symbol h =
    (Ok (sr_binop fsub stock expected), h).
Proof.
  intros H -> Hall. unfold calculate_alpha.
  destruct (df_cols_all df _ Hall) as (sub & Hsub & Hnames & Hidx).
  exists sub. eexists. eexists. split; [exact Hsub|].
  erewrite bind_ok by apply or_instance_rate_run.
  rewrite (bind_load _ _ _ _ H).
  erewrite bind_ok by (apply calculate_beta_all_run; exact H).
  erewrite bind_ok by (rewrite Hsub; reflexivity).
  split; [|split; [|reflexivity]].
  - unfold scale. rewrite sr_index_map, sr_index_reduce, Hnames. reflexivity.
  - rewrite sr_index_map. apply sr_index_fill_empty.
Qed.

Lemma calculate_information_ratio_run h returns df benchmark trading_days :
  frames h !! returns = Some df ->
  exists s, calculate_information_ratio returns benchmark trading_days h = (Ok s, h).
Proof.
  intros H. unfold calculate_information_ratio.
  rewrite (bind_load _ _ _ _ H). eexists. reflexivity.
Qed.

Lemma calculate_sortino_ratio_run h returns df rate trading_days :
  frames h !! returns = Some df ->
  exists s,
    calculate_sortino_ratio returns rate trading_days h =
    (Ok s, mkHeap (self_risk_free_rate h)
             (<[fresh (dom (frames h)) := clamp_positive df]> (frames h))
             (fetch_log h)).
Proof.
  intros H. unfold calculate_sortino_ratio.
  erewrite bind_ok by apply or_instance_rate_run.
  rewrite (bind_load _ _ _ _ H).
  unfold bind at 1. unfold alloc.
  unfold bind at 1. unfold modify. cbn.
  rewrite lookup_insert_eq. rewrite insert_insert_eq.
  unfold bind, load. cbn. rewrite lookup_insert_eq.
  eexists. reflexivity.
Qed.

(** ** Arithmetic on finite cells *)

Ltac to_Q :=
  unfold Qcle, Qclt, Qcdiv, Qcminus, Qcplus, Qcmult, Qcopp, Qcinv, Q2Qc in *;
  cbn [this] in *;
  repeat first
    [ rewrite Qred_correct
    | match goal with H : _ |- _ => rewrite Qred_correct in H end ].

Lemma Qc_of_nat_S n : Qc_of_nat (S n) = (Qc_of_nat n + 1)%Qc.
Proof.
  apply Qc_is_canon. unfold Qc_of_nat, Qc_of_Z. to_Q. cbn [this].
  rewrite Nat2Z.inj_succ, <- Z.add_1_r, inject_Z_plus. reflexivity.
Qed.

Lemma Qc_of_nat_pos n : (0 < n)%nat -> (0 < Qc_of_nat n)%Qc.
Proof.
  intros H. unfold Qc_of_nat, Qc_of_Z, Qclt. cbn [this].
  change (this 0%Qc) with (inject_Z 0). rewrite <- Zlt_Qlt. lia.
Qed.

Lemma fsum_from_finite a qs :
  foldl fadd (Num a) (map Num qs) = Num (foldl Qcplus a qs).
Proof.
  revert a. induction qs as [|q r IH]; intros a; cbn; [reflexivity|apply IH].
Qed.

Lemma sum_from_le t qs a :
  Forall (fun q => (q <= t)%Qc) qs ->
  (foldl Qcplus a qs <= a + Qc_of_nat (length qs) * t)%Qc.
Proof.
  revert a. induction qs as [|q r IH]; intros a H; cbn [foldl length].
  - to_Q. change (this (Qc_of_nat 0)) with 0%Q. lra.
  - inversion H as [|? ? Hq Hr]; subst. specialize (IH (a + q)%Qc Hr).
    rewrite Qc_of_nat_S. clear H Hr.
    generalize dependent (foldl Qcplus (a + q)%Qc r). intros s IH.
    to_Q. nra.
Qed.

Lemma mean_le t qs :
  qs <> [] -> Forall (fun q => (q <= t)%Qc) qs ->
  (foldl Qcplus 0%Qc qs / Qc_of_nat (length qs) <= t)%Qc.
Proof.
  intros Hne H. pose proof (sum_from_le t qs 0%Qc H) as Hs.
  assert (0 < Qc_of_nat (length qs))%Qc as Hn.
  { apply Qc_of_nat_pos. destruct qs; [congruence|cbn; lia]. }
  clear H Hne. generalize dependent (foldl Qcplus 0%Qc qs). intros s Hs.
  to_Q. apply Qle_shift_div_r; [exact Hn|].
  change (this 0%Qc) with 0%Q in Hs. lra.
Qed.

Lemma valid_all xs : Forall (fun x => x <> NaN) xs -> valid xs = xs.
Proof.
  intros H. unfold valid. induction H as [|x r Hx Hr IH]; [reflexivity|].
  rewrite filter_cons. destruct x; try congruence; cbn; f_equal; exact IH.
Qed.

Lemma fle_not_nan x t : fle x t = true -> x <> NaN.
Proof. destruct x; cbn; congruence. Qed.

Lemma tail_of_valid t xs : valid (tail_of t xs) = tail_of t xs.
Proof.
  apply valid_all. apply Forall_forall. intros x Hx.
  apply list_elem_of_filter in Hx as [Hx _].
  apply fle_not_nan with t. destruct (fle x t); [reflexivity|contradiction].
Qed.

Lemma pd_mean_tail t xs :
  tail_of t xs <> [] ->
  pd_mean (tail_of t xs) =
  fdiv (fsum (tail_of t xs)) (float_of_nat (length (tail_of t xs))).
Proof.
  intros H. unfold pd_mean. rewrite tail_of_valid.
  destruct (tail_of t xs); [congruence|reflexivity].
Qed.

Lemma cvar_of_empty t xs : tail_of t xs = [] -> cvar_of t xs = t.
Proof. intros H. unfold cvar_of. rewrite H. reflexivity. Qed.

Lemma cvar_of_nonempty t xs :
  tail_of t xs <> [] ->
  cvar_of t xs = fdiv (fsum (tail_of t xs)) (float_of_nat (length (tail_of t xs))).
Proof.
  intros H. unfold cvar_of. rewrite <- (pd_mean_tail t xs H).
  destruct (tail_of t xs); [congruence|reflexivity].
Qed.

(** The entry of the CVaR series for a symbol, in terms of its column. *)
Lemma conditional_var_entry h returns df confidence_level var symbol xs :
  frames h !! returns = Some df ->
  assoc_get symbol (columns df) = Some xs ->
  length xs = nrows df ->
  eval (calculate_value_at_risk returns confidence_level "historical") h = Ok var ->
  exists cvar,
    eval (calculate_conditional_var returns confidence_level) h = Ok cvar /\
    sr_get cvar (Sym symbol) = cvar_of (sr_get var (Sym symbol)) xs.
Proof.
  intros H Hxs Hlen Hvar. unfold eval in *.
  rewrite (calculate_value_at_risk_historical _ _ _ _ H) in Hvar. cbn in Hvar.
  rewrite (calculate_conditional_var_run _ _ _ _ _ H Hvar). cbn.
  eexists. split; [reflexivity|].
  rewrite sr_get_fill. rewrite decide_True.
  - unfold df_col. rewrite Hxs. cbn. rewrite sr_values_zip by exact Hlen. reflexivity.
  - apply assoc_get_elem in Hxs. unfold col_names.
    apply list_elem_of_fmap. exists (symbol, xs). split; [reflexivity|exact Hxs].
Qed.

(** At 95% confidence the historical VaR is defined for every frame. *)
Lemma value_at_risk_95_returns h returns df :
  frames h !! returns = Some df ->
  eval (calculate_value_at_risk returns confidence_95 "historical") h =
  Ok (df_reduce (pd_quantile (1 - Q2Qc (95 # 100))%Qc) df).
Proof.
  intros H. unfold eval.
  rewrite (calculate_value_at_risk_historical _ _ _ _ H). reflexivity.
Qed.

(** ** Claims on argument checking and annualization *)

(** C6. An interval other than daily, weekly or monthly makes
    [fetch_historical_data] raise [ValueError] before any price is fetched;
    a return type other than simple or log makes [calculate_returns] raise
    [ValueError]; a method other than historical or parametric makes
    [calculate_value_at_risk] raise [ValueError].  In each case the heap is
    left as it was: no call to the fetcher is logged and no table is
    allocated. *)
Theorem invalid_arguments_raise_value_error
    (fetcher : Fetcher) (symbols : list string) (start_date : Z)
    (end_date : option Z) (interval : string)
    (prices : loc) (return_type : string)
    (returns : loc) (confidence_level : float) (method : string) (h : heap) :
  interval <> "daily" -> interval <> "weekly" -> interval <> "monthly" ->
  return_type <> "simple" -> return_type <> "log" ->
  method <> "historical" -> method <> "parametric" ->
  fetch_historical_data fetcher symbols start_date end_date interval h
    = (Raise ValueError, h) /\
  calculate_returns prices return_type h = (Raise ValueError, h) /\
  calculate_value_at_risk returns confidence_level method h = (Raise ValueError, h).
Proof.
  intros Hd Hw Hm Hs Hl Hh Hp. repeat split.
  - unfold fetch_historical_data, delta_of_interval.
    rewrite !decide_False by assumption. reflexivity.
  - unfold calculate_returns. rewrite !decide_False by assumption. reflexivity.
  - unfold calculate_value_at_risk. rewrite !decide_False by assumption. reflexivity.
Qed.

(** C8. Annualized volatility is the non-annualized volatility times the
    square root of [trading_days], and annualized variance is the
    non-annualized variance times [trading_days] itself, entry by entry
    (one entry per symbol); when one call raises, so does the other. *)
Theorem annualization_scales_volatility_and_variance
    (returns : loc) (trading_days : Z) (h : heap) :
  eval (calculate_volatility returns true trading_days) h =
    result_map (sr_map (fun v => fmul v (np_sqrt (float_of_Z trading_days))))
               (eval (calculate_volatility returns false trading_days) h) /\
  eval (calculate_variance returns true trading_days) h =
    result_map (sr_map (fun v => fmul v (float_of_Z trading_days)))
               (eval (calculate_variance returns false trading_days) h).
Proof.
  unfold eval. destruct (frames h !! returns) as [df|] eqn:H.
  - rewrite !(calculate_volatility_run _ _ _ _ _ H),
            !(calculate_variance_run _ _ _ _ _ H). split; reflexivity.
  - unfold calculate_volatility, calculate_variance, bind, load.
    rewrite H. split; reflexivity.
Qed.

(** ** Claims on the conditional value at risk *)

(** C4. For a symbol whose column has no observation at or below its
    historical VaR threshold, [calculate_conditional_var] returns the
    threshold itself; when the tail is not empty it returns the mean of
    the observations at or below the threshold (their sum over their
    number). *)
Theorem conditional_var_tail_mean_or_threshold
    (h : heap) (returns : loc) (df : DataFrame) (confidence_level : float)
    (symbol : string) (xs : list float) (var : Series) :
  frames h !! returns = Some df ->
  assoc_get symbol (columns df) = Some xs ->
  length xs = nrows df ->
  eval (calculate_value_at_risk returns confidence_level "historical") h = Ok var ->
  exists cvar,
    eval (calculate_conditional_var returns confidence_level) h = Ok cvar /\
    let threshold := sr_get var (Sym symbol) in
    let tail_returns := filter (fun x => fle x threshold) xs in
    (tail_returns = [] -> sr_get cvar (Sym symbol) = threshold) /\
    (tail_returns <> [] ->
     sr_get cvar (Sym symbol) =
     fdiv (fsum tail_returns) (float_of_nat (length tail_returns))).
Proof.
  intros H Hxs Hlen Hvar.
  destruct (conditional_var_entry _ _ _ _ _ _ _ H Hxs Hlen Hvar) as (cvar & Hc & Hget).
  exists cvar. split; [exact Hc|]. cbn zeta. rewrite Hget. split.
  - apply cvar_of_empty.
  - apply cvar_of_nonempty.
Qed.

Lemma finite_tail t xs :
  Forall is_finite_or_nan xs ->
  exists qs, tail_of t xs = map Num qs /\
             forall q, q ∈ qs -> fle (Num q) t = true.
Proof.
  intros H. unfold tail_of. induction H as [|x r Hx Hr (qs & Hqs & Hle)].
  - exists []. split; [reflexivity|]. intros q Hq. inversion Hq.
  - rewrite filter_cons. destruct (decide (fle x t)) as [Hf|Hf].
    + destruct x as [| | |q]; cbn in Hx, Hf; try contradiction.
      exists (q :: qs). split; [cbn; f_equal; exact Hqs|].
      intros q' Hq'. inversion Hq'; subst; [|auto].
      cbn. destruct t; cbn in Hf |- *; try contradiction; try reflexivity.
      destruct (Qc_leb q q0); [reflexivity|contradiction].
    + exists qs. split; assumption.
Qed.

(** C3. For a column of finite (or missing) observations of which at
    least one is strictly below the symbol's historical 95% VaR, the 95%
    CVaR of the symbol is at most its 95% VaR. *)
Theorem conditional_var_le_value_at_risk
    (h : heap) (returns : loc) (df : DataFrame)
    (symbol : string) (xs : list float) (var : Series) :
  frames h !! returns = Some df ->
  assoc_get symbol (columns df) = Some xs ->
  length xs = nrows df ->
  Forall is_finite_or_nan xs ->
  eval (calculate_value_at_risk returns confidence_95 "historical") h = Ok var ->
  (exists x, x ∈ xs /\ flt x (sr_get var (Sym symbol)) = true) ->
  exists cvar,
    eval (calculate_conditional_var returns confidence_95) h = Ok cvar /\
    fle (sr_get cvar (Sym symbol)) (sr_get var (Sym symbol)) = true.
Proof.
  intros H Hxs Hlen Hfin Hvar (x & Hx & Hlt).
  destruct (conditional_var_entry _ _ _ _ _ _ _ H Hxs Hlen Hvar) as (cvar & Hc & Hget).
  exists cvar. split; [exact Hc|]. rewrite Hget.
  set (t := sr_get var (Sym symbol)) in *.
  assert (tail_of t xs <> []) as Hne.
  { intros E. assert (x ∈ tail_of t xs) as Hin.
    { apply list_elem_of_filter. split; [|exact Hx].
      destruct x, t; cbn in *; try discriminate; try exact I.
      apply Is_true_true. apply Qc_leb_le, Qclt_le_weak, Qc_ltb_lt, Hlt. }
    rewrite E in Hin. inversion Hin. }
  rewrite (cvar_of_nonempty _ _ Hne).
  destruct (finite_tail t xs Hfin) as (qs & Hqs & Hle).
  rewrite Hqs in *. unfold fsum. rewrite fsum_from_finite, length_map.
  assert (qs <> []) as Hqne by (intros ->; apply Hne; reflexivity).
  assert (0 < Qc_of_nat (length qs))%Qc as Hn.
  { apply Qc_of_nat_pos. destruct qs; [congruence|cbn; lia]. }
  unfold float_of_nat. cbn [fdiv].
  assert (Qc_eqb (Qc_of_nat (length qs)) 0 = false) as ->.
  { apply Qc_eqb_neq. intros E. rewrite E in Hn. apply (Qclt_not_eq _ _ Hn). reflexivity. }
  destruct t as [| | |tq]; cbn in Hlt |- *.
  - destruct x; discriminate.
  - reflexivity.
  - destruct x; discriminate.
  - apply Qc_leb_le. apply mean_le; [exact Hqne|].
    apply Forall_forall. intros q Hq. apply Qc_leb_le. apply (Hle q Hq).
Qed.

(** ** Maximum drawdown *)

Lemma df_zip_with_map f g df :
  df_zip_with f df (df_map g df) =
  mkDataFrame (index df) (map (fun c => (fst c, zip_with f (snd c) (g (snd c)))) (columns df)).
Proof.
  unfold df_zip_with, df_map. cbn. f_equal.
  induction (columns df) as [|c r IH]; cbn; [reflexivity|]. f_equal. exact IH.
Qed.

Lemma drawdown_frame df :
  df_zip_with fdiv (df_zip_with fsub df (df_map pd_cummax df)) (df_map pd_cummax df) =
  df_map drawdown_of df.
Proof.
  rewrite df_zip_with_map. unfold df_zip_with, df_map, drawdown_of. cbn. f_equal.
  induction (columns df) as [|c r IH]; cbn; [reflexivity|]. f_equal. exact IH.
Qed.

Lemma Qc_pos_neq_0 (m : Qc) : (0 < m)%Qc -> Qc_eqb m 0 = false.
Proof.
  intros H. apply Qc_eqb_neq. intros E. rewrite E in H.
  apply (Qclt_not_eq _ _ H). reflexivity.
Qed.

Lemma decline_nonpositive (q m : Qc) :
  (0 < m)%Qc -> (q <= m)%Qc -> ((q - m) / m <= 0)%Qc.
Proof.
  intros Hm Hq. to_Q. apply Qle_shift_div_r; [exact Hm|].
  change (this 0%Qc) with 0%Q in *. lra.
Qed.

Lemma decline_zero (q : Qc) : ((q - q) / q = 0)%Qc.
Proof.
  unfold Qcminus, Qcdiv. rewrite Qcplus_opp_r. apply Qcmult_0_l.
Qed.

(** The drawdowns of a column of positive prices below a running maximum [c]. *)
Lemma drawdown_from (c : Qc) (qs : list Qc) :
  (0 < c)%Qc -> Forall (fun q => (0 < q)%Qc) qs ->
  exists ds,
    zip_with fdiv (zip_with fsub (map Num qs) (cummax_from (Some (Num c)) (map Num qs)))
             (cummax_from (Some (Num c)) (map Num qs)) = map Num ds /\
    length ds = length qs /\
    Forall (fun d => (d <= 0)%Qc) ds /\
    (nondecreasing (c :: qs) -> Forall (fun d => d = 0%Qc) ds).
Proof.
  intros Hc H. revert c Hc. induction H as [|q r Hq Hr IH]; intros c Hc.
  - exists []. repeat split; constructor.
  - cbn [map cummax_from isna zip_with]. unfold fmax. cbn [fle].
    destruct (Qc_leb c q) eqn:E.
    + destruct (IH q Hq) as (ds & Hds & Hlen & Hle & Hmono).
      exists (0%Qc :: ds). cbn [fsub fdiv]. rewrite (Qc_pos_neq_0 q Hq), Hds, decline_zero.
      repeat split.
      * cbn. lia.
      * constructor; [apply Qcle_refl|exact Hle].
      * intros [_ Hnd]. constructor; [reflexivity|]. apply Hmono, Hnd.
    + destruct (IH c Hc) as (ds & Hds & Hlen & Hle & Hmono).
      assert (q <= c)%Qc as Hqc.
      { apply Qclt_le_weak. apply Qc_ltb_lt. unfold Qc_ltb. unfold Qc_leb in E.
        rewrite E. reflexivity. }
      exists (((q - c) / c)%Qc :: ds). cbn [fsub fdiv]. rewrite (Qc_pos_neq_0 c Hc), Hds.
      repeat split.
      * cbn. lia.
      * constructor; [apply decline_nonpositive; assumption|exact Hle].
      * intros [Hcq _]. apply Qc_leb_le in Hcq. congruence.
Qed.

Lemma drawdown_of_positive (qs : list Qc) :
  Forall (fun q => (0 < q)%Qc) qs ->
  exists ds,
    drawdown_of (map Num qs) = map Num ds /\
    length ds = length qs /\
    Forall (fun d => (d <= 0)%Qc) ds /\
    (nondecreasing qs -> Forall (fun d => d = 0%Qc) ds).
Proof.
  intros H. unfold drawdown_of, pd_cummax. destruct H as [|q r Hq Hr].
  - exists []. repeat split; constructor.
  - cbn [map cummax_from isna zip_with].
    destruct (drawdown_from q r Hq Hr) as (ds & Hds & Hlen & Hle & Hmono).
    exists (0%Qc :: ds). cbn [fsub fdiv]. rewrite (Qc_pos_neq_0 q Hq), Hds, decline_zero.
    repeat split.
    + cbn. lia.
    + constructor; [apply Qcle_refl|exact Hle].
    + intros Hnd. constructor; [reflexivity|]. apply Hmono. exact Hnd.
Qed.

Lemma fmin_fold_finite (a : Qc) (ds : list Qc) :
  exists m, foldl fmin (Num a) (map Num ds) = Num m /\ m ∈ a :: ds.
Proof.
  revert a. induction ds as [|d r IH]; intros a.
  - exists a. split; [reflexivity|left].
  - cbn [map foldl]. unfold fmin at 2. cbn [fle].
    destruct (Qc_leb a d).
    + destruct (IH a) as (m & Hm & Hin). exists m. split; [exact Hm|].
      inversion Hin; subst; [left|right; right; assumption].
    + destruct (IH d) as (m & Hm & Hin). exists m. split; [exact Hm|].
      right. exact Hin.
Qed.

Lemma valid_finite (qs : list Qc) : valid (map Num qs) = map Num qs.
Proof.
  apply valid_all. apply Forall_forall. intros x Hx.
  apply list_elem_of_fmap in Hx as (q & -> & _). discriminate.
Qed.

Lemma pd_min_finite (ds : list Qc) :
  ds <> [] -> exists m, pd_min (map Num ds) = Num m /\ m ∈ ds.
Proof.
  intros H. unfold pd_min. rewrite valid_finite.
  destruct ds as [|d r]; [congruence|]. cbn [map]. apply fmin_fold_finite.
Qed.

(** C7. For a price matrix with at least one row and strictly positive
    (finite) prices, [calculate_max_drawdown] returns for every symbol a
    value that is at most 0, and exactly 0 when the symbol's prices never
    decrease. *)
Theorem max_drawdown_nonpositive
    (h : heap) (prices : loc) (idx : list label) (cols : list (string * list Qc)) :
  frames h !! prices = Some (finite_frame idx cols) ->
  Forall (fun c => snd c <> [] /\ Forall (fun q => (0 < q)%Qc) (snd c)) cols ->
  exists max_drawdown,
    eval (calculate_max_drawdown prices) h = Ok max_drawdown /\
    Forall2 (fun c e =>
               fst e = Sym (fst c) /\
               exists m, snd e = Num m /\ (m <= 0)%Qc /\
                         (nondecreasing (snd c) -> m = 0%Qc))
            cols max_drawdown.
Proof.
  intros H Hcols. unfold eval.
  rewrite (calculate_max_drawdown_run _ _ _ H), drawdown_frame. cbn.
  eexists. split; [reflexivity|].
  unfold df_reduce, df_map, finite_frame. cbn [columns]. rewrite !map_map.
  clear H.
  induction Hcols as [|[name qs] r [Hne Hpos] Hr IH]; cbn [map]; constructor; [|exact IH].
  cbn [fst snd] in *. split; [reflexivity|].
  destruct (drawdown_of_positive qs Hpos) as (ds & Hds & Hlen & Hle & Hmono).
  rewrite Hds.
  assert (ds <> []) as Hdne by (intros ->; destruct qs; [congruence|discriminate]).
  destruct (pd_min_finite ds Hdne) as (m & Hm & Hin).
  exists m. split; [exact Hm|]. split.
  - rewrite Forall_forall in Hle. apply Hle, Hin.
  - intros Hnd. specialize (Hmono Hnd). rewrite Forall_forall in Hmono.
    apply Hmono, Hin.
Qed.

(** ** Frame properties *)

Ltac frame_safe_tac :=
  repeat first
    [ apply frame_safe_ret | apply frame_safe_raise | apply frame_safe_lift
    | apply frame_safe_lift_opt | apply frame_safe_load | apply frame_safe_alloc
    | apply frame_safe_get_rate | apply frame_safe_or_instance_rate
    | apply frame_safe_call_fetch | apply frame_safe_discard
    | apply frame_safe_bind | apply frame_safe_for_each | apply frame_safe_fold_each
    | match goal with
      | |- forall _, _ => intro
      | |- frame_safe (if ?c then _ else _) => destruct c
      | |- frame_safe (match ?x with _ => _ end) => destruct x
      end ].

Lemma frame_safe_fetch_historical_data f s a b i :
  frame_safe (fetch_historical_data f s a b i).
Proof. unfold fetch_historical_data, fetch_symbol. frame_safe_tac. Qed.

Lemma frame_safe_calculate_returns p r : frame_safe (calculate_returns p r).
Proof. unfold calculate_returns. frame_safe_tac. Qed.

Lemma frame_safe_calculate_correlation_matrix r m :
  frame_safe (calculate_correlation_matrix r m).
Proof. unfold calculate_correlation_matrix. frame_safe_tac. Qed.

Lemma frame_safe_calculate_pairwise_correlation r a b m :
  frame_safe (calculate_pairwise_correlation r a b m).
Proof. unfold calculate_pairwise_correlation. frame_safe_tac. Qed.

Lemma frame_safe_calculate_volatility r a t : frame_safe (calculate_volatility r a t).
Proof. unfold calculate_volatility. frame_safe_tac. Qed.

Lemma frame_safe_calculate_variance r a t : frame_safe (calculate_variance r a t).
Proof. unfold calculate_variance. frame_safe_tac. Qed.

Lemma frame_safe_calculate_sharpe_ratio r f t : frame_safe (calculate_sharpe_ratio r f t).
Proof. unfold calculate_sharpe_ratio. frame_safe_tac. Qed.

Lemma frame_safe_calculate_max_drawdown p : frame_safe (calculate_max_drawdown p).
Proof. unfold calculate_max_drawdown. frame_safe_tac. Qed.

Lemma frame_safe_calculate_value_at_risk r c m :
  frame_safe (calculate_value_at_risk r c m).
Proof. unfold calculate_value_at_risk. frame_safe_tac. Qed.

Lemma frame_safe_calculate_conditional_var r c :
  frame_safe (calculate_conditional_var r c).
Proof. unfold calculate_conditional_var. frame_safe_tac. Qed.

Lemma frame_safe_calculate_beta r m s : frame_safe (calculate_beta r m s).
Proof. unfold calculate_beta. frame_safe_tac. Qed.

Lemma frame_safe_calculate_alpha r m f t s : frame_safe (calculate_alpha r m f t s).
Proof.
  unfold calculate_alpha.
  apply frame_safe_bind; [apply frame_safe_or_instance_rate|]. intros rate.
  apply frame_safe_bind; [apply frame_safe_load|]. intros df.
  apply frame_safe_bind; [apply frame_safe_calculate_beta|]. intros beta.
  frame_safe_tac.
Qed.

Lemma frame_safe_calculate_information_ratio r b t :
  frame_safe (calculate_information_ratio r b t).
Proof. unfold calculate_information_ratio. frame_safe_tac. Qed.

(** The clamping of the positive returns happens in a copy: the frames
    that existed before the call are not touched. *)
Lemma frame_safe_calculate_sortino_ratio r f t :
  frame_safe (calculate_sortino_ratio r f t).
Proof.
  intros h. unfold exec. destruct (frames h !! r) as [df|] eqn:H.
  - destruct (calculate_sortino_ratio_run h r df f t H) as (s & ->). cbn.
    apply extends_alloc.
  - unfold calculate_sortino_ratio.
    erewrite bind_ok by apply or_instance_rate_run.
    unfold bind, load. rewrite H. apply extends_refl.
Qed.

Lemma preserves_setitem h0 report name s :
  frames h0 !! report = None -> preserves h0 (setitem report name s).
Proof. intros H. apply preserves_modify, H. Qed.

Lemma preserves_ret {A} h0 (a : A) : preserves h0 (ret a).
Proof. apply preserves_of_frame_safe, frame_safe_ret. Qed.

Lemma frame_safe_generate_risk_report r p m : frame_safe (generate_risk_report r p m).
Proof.
  intros h. unfold exec, generate_risk_report.
  destruct (frames h !! r) as [df|] eqn:H.
  2:{ unfold bind, load. rewrite H. apply extends_refl. }
  rewrite (bind_load _ _ _ _ H).
  unfold bind at 1. unfold alloc at 1.
  set (report := fresh (dom (frames h))).
  assert (frames h !! report = None) as Hfresh by apply fresh_not_allocated.
  match goal with
  | |- extends h (snd (?k ?h1)) =>
      change (extends h (exec k h1)); assert (preserves h k) as Hk
  end.
  { repeat first
      [ apply preserves_ret
      | apply preserves_bind;
        [ first
            [ apply (preserves_setitem _ _ _ _ Hfresh)
            | apply preserves_of_frame_safe;
              first [ apply frame_safe_calculate_volatility
                    | apply frame_safe_calculate_variance
                    | apply frame_safe_calculate_sharpe_ratio
                    | apply frame_safe_calculate_sortino_ratio
                    | apply frame_safe_calculate_max_drawdown
                    | apply frame_safe_calculate_value_at_risk
                    | apply frame_safe_calculate_conditional_var
                    | apply frame_safe_calculate_beta
                    | apply frame_safe_calculate_alpha
                    | apply frame_safe_calculate_information_ratio ] ]
        | intros ? ]
      | match goal with |- preserves _ (match ?x with _ => _ end) => destruct x end ]. }
  apply Hk. apply extends_alloc.
Qed.

Lemma frame_safe_call c : frame_safe (call c).
Proof.
  destruct c; cbn [call]; apply frame_safe_discard.
  - apply frame_safe_fetch_historical_data.
  - apply frame_safe_calculate_returns.
  - apply frame_safe_calculate_correlation_matrix.
  - apply frame_safe_calculate_pairwise_correlation.
  - apply frame_safe_calculate_volatility.
  - apply frame_safe_calculate_variance.
  - apply frame_safe_calculate_sharpe_ratio.
  - apply frame_safe_calculate_sortino_ratio.
  - apply frame_safe_calculate_max_drawdown.
  - apply frame_safe_calculate_value_at_risk.
  - apply frame_safe_calculate_conditional_var.
  - apply frame_safe_calculate_beta.
  - apply frame_safe_calculate_alpha.
  - apply frame_safe_calculate_information_ratio.
  - apply frame_safe_generate_risk_report.
Qed.

(** C9. [calculate_sortino_ratio] leaves the caller's returns matrix as it
    was, and so every frame that existed before the call (the positive
    returns are clamped in a copy), and no method of the analyzer changes
    the configured [risk_free_rate]. *)
Theorem sortino_and_methods_leave_inputs_unchanged
    (h : heap) (returns : loc) (risk_free_rate : option float) (trading_days : Z)
    (c : method_call) :
  let h' := exec (calculate_sortino_ratio returns risk_free_rate trading_days) h in
  frames h' !! returns = frames h !! returns /\
  frames h ⊆ frames h' /\
  self_risk_free_rate (exec (call c) h) = self_risk_free_rate h.
Proof.
  cbn zeta.
  pose proof (frame_safe_calculate_sortino_ratio returns risk_free_rate trading_days h)
    as [_ Hf].
  split; [|split].
  - destruct (frames h !! returns) as [df|] eqn:H; [apply Hf, H|].
    unfold exec, calculate_sortino_ratio.
    erewrite bind_ok by apply or_instance_rate_run.
    unfold bind, load. rewrite H. exact H.
  - apply map_subseteq_spec. exact Hf.
  - apply (frame_safe_call c h).
Qed.

(** ** The risk report *)

Lemma hoare_bind {A B} (P : heap -> Prop) (m : M A) (Q : A -> heap -> Prop)
    (k : A -> M B) (R : B -> heap -> Prop) :
  hoare P m Q -> (forall a, hoare (Q a) (k a) R) -> hoare P (bind m k) R.
Proof.
  intros Hm Hk h HP. destruct (Hm h HP) as (a & h1 & E & HQ).
  destruct (Hk a h1 HQ) as (b & h2 & E2 & HR).
  exists b, h2. split; [|exact HR]. rewrite (bind_ok _ _ _ _ _ E). exact E2.
Qed.

Lemma hoare_ret {A} (P : heap -> Prop) (a : A) (Q : A -> heap -> Prop) :
  (forall h, P h -> Q a h) -> hoare P (ret a) Q.
Proof. intros H h HP. exists a, h. split; [reflexivity|auto]. Qed.

Lemma col_names_assoc_set {A} name (v : A) cols :
  name ∉ map fst cols -> map fst (assoc_set name v cols) = map fst cols ++ [name].
Proof.
  induction cols as [|[k x] r IH]; cbn; intros H; [reflexivity|].
  destruct (decide (k = name)) as [->|Hk].
  - exfalso. apply H. left.
  - cbn. f_equal. apply IH. intros Hin. apply H. right. exact Hin.
Qed.

Lemma assoc_set_Forall {A} (P : string * A -> Prop) name v cols :
  P (name, v) -> Forall P cols -> Forall P (assoc_set name v cols).
Proof.
  intros Hv H. induction H as [|[k x] r Hx Hr IH]; cbn.
  - constructor; [exact Hv|constructor].
  - destruct (decide (k = name)); constructor; assumption.
Qed.

Lemma length_sr_reindex s idx : length (sr_reindex s idx) = length idx.
Proof.
  unfold sr_reindex. destruct (decide (sr_index s = idx)) as [<-|].
  - unfold sr_values, sr_index. rewrite !length_map. reflexivity.
  - apply length_map.
Qed.

Section Report.
Variables (returns prices report : loc) (dfr dfp : DataFrame).
Hypothesis report_fresh_returns : report <> returns.
Hypothesis report_fresh_prices : report <> prices.

Lemma report_inv_extends names h h' :
  report_inv returns prices report dfr dfp names h -> extends h h' ->
  report_inv returns prices report dfr dfp names h'.
Proof.
  intros (Hr & Hp & rep & Hrep & Hrest) [_ Hf].
  split; [auto|]. split; [auto|]. exists rep. split; [auto|exact Hrest].
Qed.

Lemma hoare_metric {A} names (m : M A) :
  (forall h, report_inv returns prices report dfr dfp names h ->
             exists v h', m h = (Ok v, h') /\ extends h h') ->
  hoare (report_inv returns prices report dfr dfp names) m
        (fun _ => report_inv returns prices report dfr dfp names).
Proof.
  intros Hm h Hinv. destruct (Hm h Hinv) as (v & h' & E & Hext).
  exists v, h'. split; [exact E|]. eapply report_inv_extends; eassumption.
Qed.

Lemma hoare_setitem names name s :
  name ∉ names ->
  hoare (report_inv returns prices report dfr dfp names) (setitem report name s)
        (fun _ => report_inv returns prices report dfr dfp (names ++ [name])).
Proof using Type report_fresh_returns report_fresh_prices.
  intros Hname h (Hr & Hp & rep & Hrep & Hidx & Hnames & Hlen).
  unfold setitem, modify. rewrite Hrep. eexists. eexists. split; [reflexivity|].
  split; [|split].
  - cbn. rewrite lookup_insert_ne by exact report_fresh_returns. exact Hr.
  - cbn. rewrite lookup_insert_ne by exact report_fresh_prices. exact Hp.
  - eexists. split; [cbn; apply lookup_insert_eq|].
    split; [exact Hidx|]. split.
    + unfold df_setitem, col_names. cbn.
      rewrite col_names_assoc_set; [f_equal; exact Hnames|].
      unfold col_names in Hnames. rewrite Hnames. exact Hname.
    + unfold df_setitem. cbn. apply assoc_set_Forall; [|exact Hlen].
      cbn. rewrite length_sr_reindex, Hidx. apply length_map.
Qed.

Lemma hoare_column {B} names name (m : M Series) (k : M B) R :
  name ∉ names ->
  (forall h, report_inv returns prices report dfr dfp names h ->
             exists v h', m h = (Ok v, h') /\ extends h h') ->
  hoare (report_inv returns prices report dfr dfp (names ++ [name])) k R ->
  hoare (report_inv returns prices report dfr dfp names)
        (let* s := m in setitem report name s ;; k) R.
Proof using Type report_fresh_returns report_fresh_prices.
  intros Hname Hm Hk.
  eapply hoare_bind; [apply hoare_metric, Hm|]. intros s.
  eapply hoare_bind; [apply hoare_setitem, Hname|]. intros ?. exact Hk.
Qed.

Lemma report_inv_returns names h :
  report_inv returns prices report dfr dfp names h -> frames h !! returns = Some dfr.
Proof. intros (H & _). exact H. Qed.

Lemma report_inv_prices names h :
  report_inv returns prices report dfr dfp names h -> frames h !! prices = Some dfp.
Proof. intros (_ & H & _). exact H. Qed.

Ltac metric_runs :=
  let h := fresh "h" in
  let Hinv := fresh "Hinv" in
  intros h Hinv;
  pose proof (report_inv_returns _ _ Hinv) as Hr;
  pose proof (report_inv_prices _ _ Hinv) as Hp;
  first
    [ rewrite (calculate_volatility_run _ _ _ _ _ Hr)
    | rewrite (calculate_variance_run _ _ _ _ _ Hr)
    | destruct (calculate_sharpe_ratio_run _ _ _ None 252 Hr) as (? & ->)
    | destruct (calculate_sortino_ratio_run _ _ _ None 252 Hr) as (? & ->)
    | rewrite (calculate_max_drawdown_run _ _ _ Hp)
    | rewrite (calculate_value_at_risk_historical _ _ _ _ Hr)
    | erewrite (calculate_conditional_var_run _ _ _ _ _ Hr) by reflexivity
    | rewrite (calculate_beta_all_run _ _ _ _ Hr)
    | idtac ];
  eexists; eexists; (split; [reflexivity|]);
  first [ apply extends_refl | apply extends_alloc ].

Lemma alpha_runs names market_returns h :
  report_inv returns prices report dfr dfp names h ->
  exists v h', calculate_alpha returns market_returns None 252 None h = (Ok v, h') /\
               extends h h'.
Proof.
  intros Hinv. pose proof (report_inv_returns _ _ Hinv) as Hr.
  destruct (calculate_alpha_run h returns dfr market_returns None 252 None _ Hr eq_refl)
    as (sub & stock & expected & _ & _ & _ & ->).
  - cbn. apply Forall_forall. auto.
  - eexists. eexists. split; [reflexivity|apply extends_refl].
Qed.

Lemma information_ratio_runs names market_returns h :
  report_inv returns prices report dfr dfp names h ->
  exists v h', calculate_information_ratio returns market_returns 252 h = (Ok v, h') /\
               extends h h'.
Proof.
  intros Hinv. pose proof (report_inv_returns _ _ Hinv) as Hr.
  destruct (calculate_information_ratio_run h returns dfr market_returns 252 Hr)
    as (s & ->).
  eexists. eexists. split; [reflexivity|apply extends_refl].
Qed.

Ltac fresh_name :=
  cbn; intros Hin;
  repeat (inversion Hin as [|? ? ? Hin']; subst; clear Hin; rename Hin' into Hin);
  inversion Hin.

Lemma report_body market_returns :
  hoare (report_inv returns prices report dfr dfp [])
    (setitem report "Mean Return (Annual)"
             (scale (float_of_Z 252) (df_reduce pd_mean dfr)) ;;
     let* s := calculate_volatility returns true 252 in
     setitem report "Volatility (Annual)" s ;;
     let* s := calculate_variance returns true 252 in
     setitem report "Variance (Annual)" s ;;
     let* s := calculate_sharpe_ratio returns None 252 in
     setitem report "Sharpe Ratio" s ;;
     let* s := calculate_sortino_ratio returns None 252 in
     setitem report "Sortino Ratio" s ;;
     let* s := calculate_max_drawdown prices in
     setitem report "Max Drawdown" s ;;
     let* s := calculate_value_at_risk returns (Num (Q2Qc (95 # 100))) "historical" in
     setitem report "VaR (95%)" s ;;
     let* s := calculate_conditional_var returns (Num (Q2Qc (95 # 100))) in
     setitem report "CVaR (95%)" s ;;
     match market_returns with
     | Some market_returns =>
         let* s := calculate_beta returns market_returns None in
         setitem report "Beta" s ;;
         let* s := calculate_alpha returns market_returns None 252 None in
         setitem report "Alpha (Annual)" s ;;
         let* s := calculate_information_ratio returns market_returns 252 in
         setitem report "Information Ratio" s ;;
         ret report
     | None => ret report
     end)
    (fun l h =>
       l = report /\
       report_inv returns prices report dfr dfp
         (base_metrics ++
            match market_returns with Some _ => market_metrics | None => [] end) h).
Proof using Type report_fresh_returns report_fresh_prices.
  eapply hoare_bind; [apply (hoare_setitem []); intros Hin; inversion Hin|]. intros ?.
  cbn [app].
  do 7 (eapply hoare_column; [fresh_name|metric_runs|]; cbn [app]).
  destruct market_returns as [market|].
  - eapply hoare_column; [fresh_name|metric_runs|]; cbn [app].
    eapply hoare_column; [fresh_name|apply alpha_runs|]; cbn [app].
    eapply hoare_column; [fresh_name|apply information_ratio_runs|]; cbn [app].
    apply hoare_ret. intros h Hinv. split; [reflexivity|exact Hinv].
  - apply hoare_ret. intros h Hinv. split; [reflexivity|].
    cbn. exact Hinv.
Qed.
End Report.

Ltac by_decision := refine (bool_decide_unpack _ _); vm_compute; exact I.

(** C2. Without a market series the report has exactly the eight base
    columns (no Beta, Alpha (Annual) or Information Ratio column); with a
    market series it has those eight followed by exactly these three.  In
    both cases it has one row per symbol of the returns matrix. *)
Theorem risk_report_columns
    (h : heap) (returns prices : loc) (dfr dfp : DataFrame)
    (market_returns : option Series) :
  frames h !! returns = Some dfr ->
  frames h !! prices = Some dfp ->
  exists report h' rep,
    generate_risk_report returns prices market_returns h = (Ok report, h') /\
    frames h' !! report = Some rep /\
    col_names rep =
      base_metrics ++
      match market_returns with Some _ => market_metrics | None => [] end /\
    match market_returns with
    | Some _ => Forall (fun name => name ∈ col_names rep) market_metrics
    | None => Forall (fun name => name ∉ col_names rep) market_metrics
    end /\
    index rep = map Sym (col_names dfr) /\
    Forall (fun c => length (snd c) = length (col_names dfr)) (columns rep).
Proof.
  intros Hr Hp. unfold generate_risk_report.
  rewrite (bind_load _ _ _ _ Hr).
  unfold bind at 1. unfold alloc at 1.
  set (report := fresh (dom (frames h))).
  assert (frames h !! report = None) as Hfresh by apply fresh_not_allocated.
  assert (report <> returns) as Hn1 by (intros E; rewrite E in Hfresh; congruence).
  assert (report <> prices) as Hn2 by (intros E; rewrite E in Hfresh; congruence).
  pose proof (report_body returns prices report dfr dfp Hn1 Hn2 market_returns) as Hbody.
  match goal with
  | |- exists _ _ _, ?k ?h1 = _ /\ _ => destruct (Hbody h1) as (l & h' & E & -> & Hinv)
  end.
  { split; [|split].
    - cbn. rewrite lookup_insert_ne by exact Hn1. exact Hr.
    - cbn. rewrite lookup_insert_ne by exact Hn2. exact Hp.
    - eexists. split; [cbn; apply lookup_insert_eq|].
      cbn. split; [reflexivity|]. split; [reflexivity|constructor]. }
  destruct Hinv as (_ & _ & rep & Hrep & Hidx & Hnames & Hlen).
  exists report, h', rep. split; [exact E|].
  split; [exact Hrep|]. split; [exact Hnames|].
  split; [|split; assumption].
  rewrite Hnames. destruct market_returns; by_decision.
Qed.

(** ** Alpha for one named symbol *)

Lemma insert_sorted_perm {A} (leb : A -> A -> bool) x l :
  insert_sorted leb x l ≡ₚ x :: l.
Proof.
  induction l as [|y r IH]; cbn; [reflexivity|].
  destruct (leb x y); [reflexivity|].
  rewrite IH. apply Permutation_swap.
Qed.

Lemma sort_by_perm {A} (leb : A -> A -> bool) l : sort_by leb l ≡ₚ l.
Proof.
  unfold sort_by. induction l as [|x r IH]; cbn; [reflexivity|].
  rewrite insert_sorted_perm, IH. reflexivity.
Qed.

Lemma index_union_perm a b :
  a <> [] -> b <> [] ->
  index_union a b ≡ₚ a ++ filter (fun x => negb (bool_decide (x ∈ a))) b.
Proof.
  intros Ha Hb. unfold index_union.
  destruct a as [|a0 a']; [congruence|]. destruct b as [|b0 b']; [congruence|].
  match goal with |- (if ?c then _ else _) ≡ₚ _ => destruct c end;
    [apply sort_by_perm|reflexivity].
Qed.

Lemma filter_others (x : label) (l : list label) :
  x ∉ l -> filter (fun y => negb (bool_decide (y ∈ [x]))) l = l.
Proof.
  induction l as [|z r IH]; intros Hx; [reflexivity|].
  rewrite filter_cons. rewrite decide_True.
  - f_equal. apply IH. intros H. apply Hx. right. exact H.
  - rewrite bool_decide_eq_false_2; [exact I|].
    intros H. apply list_elem_of_singleton in H. subst. apply Hx. left.
Qed.

Lemma perm_extract (x : label) (l : list label) :
  NoDup l -> x ∈ l ->
  [x] ++ filter (fun y => negb (bool_decide (y ∈ [x]))) l ≡ₚ l.
Proof.
  intros Hnd Hx. induction Hnd as [|y r Hy Hr IH]; [inversion Hx|].
  rewrite filter_cons. destruct (decide (y = x)) as [->|Hyx].
  - rewrite decide_False.
    2:{ rewrite bool_decide_eq_true_2 by left. cbn. auto. }
    rewrite (filter_others x r Hy). reflexivity.
  - rewrite decide_True.
    2:{ rewrite bool_decide_eq_false_2; [exact I|].
        intros H. apply list_elem_of_singleton in H. congruence. }
    cbn [app]. rewrite Permutation_swap. apply Permutation_skip. apply IH.
    inversion Hx; subst; [congruence|assumption].
Qed.

Lemma sr_get_absent s l : l ∉ sr_index s -> sr_get s l = NaN.
Proof.
  induction s as [|[k x] r IH]; cbn; intros H; [reflexivity|].
  destruct (decide (k = l)) as [->|].
  - exfalso. apply H. left.
  - apply IH. intros Hin. apply H. right. exact Hin.
Qed.

(** C10. With at least two (distinct) symbol columns, [calculate_alpha]
    called for one named symbol of the returns matrix returns a series
    indexed by all the symbols of the matrix, and every entry other than
    the requested symbol's is NaN: beta is computed for all columns, the
    annualized return for the requested one only, and their difference is
    aligned on the union of the two indexes. *)
Theorem alpha_of_one_symbol_spans_all_symbols
    (h : heap) (returns : loc) (df : DataFrame) (market_returns : Series)
    (risk_free_rate : option float) (trading_days : Z) (symbol : string) :
  frames h !! returns = Some df ->
  NoDup (col_names df) ->
  (2 <= length (col_names df))%nat ->
  symbol ∈ col_names df ->
  symbol <> "" ->
  exists alpha,
    eval (calculate_alpha returns market_returns risk_free_rate trading_days
                          (Some symbol)) h = Ok alpha /\
    sr_index alpha ≡ₚ map Sym (col_names df) /\
    forall l x, (l, x) ∈ alpha -> l <> Sym symbol -> x = NaN.
Proof.
  intros H Hnd Hlen Hsym Hne.
  destruct (calculate_alpha_run h returns df market_returns risk_free_rate
              trading_days (Some symbol) [symbol] H)
    as (sub & stock & expected & _ & Hstock & Hexp & Hrun).
  { cbn. rewrite decide_False by exact Hne. reflexivity. }
  { constructor; [exact Hsym|constructor]. }
  unfold eval. rewrite Hrun. cbn [fst]. eexists. split; [reflexivity|].
  unfold sr_binop. rewrite decide_False.
  2:{ rewrite Hstock, Hexp. intros E. apply (f_equal length) in E.
      rewrite !length_map in E. cbn in E. lia. }
  split.
  - unfold sr_index at 1. rewrite map_map. cbn [fst]. rewrite map_id.
    rewrite Hstock, Hexp. rewrite index_union_perm.
    + apply perm_extract.
      * apply NoDup_fmap_2; [|exact Hnd]. intros a b E. congruence.
      * apply list_elem_of_fmap. exists symbol. split; [reflexivity|exact Hsym].
    + discriminate.
    + destruct (col_names df); [cbn in Hlen; lia|discriminate].
  - intros l x Hin Hl.
    apply list_elem_of_fmap in Hin as (l' & E & _). inversion E; subst.
    rewrite (sr_get_absent stock l'); [reflexivity|].
    rewrite Hstock. intros Hin. apply list_elem_of_singleton in Hin. congruence.
Qed.

(** ** Returns *)

Lemma ffill_from_finite last (qs : list Qc) : ffill_from last (map Num qs) = map Num qs.
Proof.
  revert last. induction qs as [|q r IH]; intros last; cbn; [reflexivity|].
  f_equal. apply IH.
Qed.

Lemma pd_ffill_finite_frame idx cols :
  df_map pd_ffill (finite_frame idx cols) = finite_frame idx cols.
Proof.
  unfold df_map, finite_frame. cbn. f_equal. rewrite map_map. cbn.
  apply map_ext. intros [name qs]. cbn. f_equal. apply ffill_from_finite.
Qed.

(** Each cell over the cell above it, for a column of finite prices. *)
Lemma shifted_ratio_from (post : float -> float) (ret : Qc -> Qc -> Qc)
    (P : Qc -> Prop) (r : list Qc) (q0 : Qc) :
  (forall prev cur, P prev -> P cur -> post (fdiv (Num cur) (Num prev)) = Num (ret prev cur)) ->
  P q0 -> Forall P r ->
  map post (zip_with fdiv (map Num r) (removelast (map Num (q0 :: r)))) =
  map Num (zip_with ret (q0 :: r) r).
Proof.
  intros Hpost Hq0 Hr. revert q0 Hq0. induction Hr as [|q1 r' Hq1 Hr' IH]; intros q0 Hq0.
  - reflexivity.
  - change (removelast (map Num (q0 :: q1 :: r')))
      with (Num q0 :: removelast (map Num (q1 :: r'))).
    cbn [map zip_with]. rewrite (Hpost q0 q1 Hq0 Hq1). f_equal. apply IH, Hq1.
Qed.

Lemma shifted_ratio (post : float -> float) (ret : Qc -> Qc -> Qc)
    (P : Qc -> Prop) (qs : list Qc) :
  post NaN = NaN ->
  (forall prev cur, P prev -> P cur -> post (fdiv (Num cur) (Num prev)) = Num (ret prev cur)) ->
  Forall P qs -> qs <> [] ->
  map post (zip_with fdiv (map Num qs) (pd_shift (map Num qs))) =
  NaN :: map Num (zip_with ret qs (tail qs)).
Proof.
  intros Hnan Hpost HP Hne. destruct qs as [|q0 r]; [congruence|].
  inversion HP as [|? ? Hq0 Hr]; subst.
  unfold pd_shift. cbn [map tail]. cbn [zip_with fdiv map]. rewrite Hnan. f_equal.
  apply (shifted_ratio_from post ret P r q0 Hpost Hq0 Hr).
Qed.

Lemma simple_return_cell (prev cur : Qc) :
  prev <> 0%Qc -> cur <> 0%Qc ->
  fsub (fdiv (Num cur) (Num prev)) (Num 1%Qc) = Num (cur / prev - 1)%Qc.
Proof.
  intros Hp _. cbn. apply Qc_eqb_neq in Hp. rewrite Hp. reflexivity.
Qed.

Lemma Qc_div_pos (a b : Qc) : (0 < a)%Qc -> (0 < b)%Qc -> (0 < a / b)%Qc.
Proof.
  intros Ha Hb. to_Q. apply Qlt_shift_div_l; [exact Hb|].
  rewrite Qmult_0_l. exact Ha.
Qed.

Lemma log_return_cell (prev cur : Qc) :
  (0 < prev)%Qc -> (0 < cur)%Qc ->
  np_log (fdiv (Num cur) (Num prev)) = Num (ln (cur / prev)%Qc).
Proof.
  intros Hp Hc. cbn. rewrite (Qc_pos_neq_0 prev Hp). cbn.
  assert (Qc_ltb 0 (cur / prev) = true) as -> by (apply Qc_ltb_lt, Qc_div_pos; assumption).
  reflexivity.
Qed.

Lemma select_all {A} (xs : list A) : select (replicate (length xs) true) xs = xs.
Proof. induction xs as [|x r IH]; cbn; [reflexivity|]. f_equal. exact IH. Qed.

Lemma zip_with_andb_all (m : list bool) :
  zip_with andb m (replicate (length m) true) = m.
Proof.
  induction m as [|b r IH]; cbn; [reflexivity|]. rewrite IH.
  destruct b; reflexivity.
Qed.

Lemma notna_finite (qs : list Qc) : map notna (map Num qs) = replicate (length qs) true.
Proof. induction qs as [|q r IH]; cbn; [reflexivity|]. f_equal. exact IH. Qed.

(** [dropna] on a frame whose first row is missing and whose other cells
    are finite removes exactly the first row. *)
Lemma dropna_first_row (i0 : label) (idx : list label) (cols : list (string * list Qc)) :
  cols <> [] ->
  Forall (fun c => length (snd c) = length idx) cols ->
  df_dropna (mkDataFrame (i0 :: idx)
               (map (fun c => (fst c, NaN :: map Num (snd c))) cols)) =
  finite_frame idx cols.
Proof.
  intros Hne Hlen.
  assert (row_mask (mkDataFrame (i0 :: idx)
                      (map (fun c => (fst c, NaN :: map Num (snd c))) cols))
          = false :: replicate (length idx) true) as Hmask.
  { unfold row_mask, nrows. cbn [index columns length].
    destruct cols as [|c0 cols']; [congruence|]. clear Hne.
    revert c0 Hlen. induction cols' as [|c1 r IH]; intros c0 Hlen.
    - inversion Hlen as [|? ? H0 _]; subst. cbn.
      rewrite notna_finite, H0. f_equal.
      rewrite <- (length_replicate (length idx) true) at 2.
      apply zip_with_andb_all.
    - inversion Hlen as [|? ? H0 Hr]; subst.
      change (map (fun c => (fst c, NaN :: map Num (snd c))) (c0 :: c1 :: r))
        with ((fst c0, NaN :: map Num (snd c0))
                :: map (fun c => (fst c, NaN :: map Num (snd c))) (c1 :: r)).
      cbn [foldr]. rewrite (IH c1 Hr). cbn.
      rewrite notna_finite, H0. f_equal.
      rewrite <- (length_replicate (length idx) true) at 2.
      apply zip_with_andb_all. }
  unfold df_dropna. rewrite Hmask. unfold finite_frame. cbn [index columns select].
  f_equal; [apply select_all|].
  rewrite map_map. cbn [fst snd select].
  apply Forall_fmap_ext_1. eapply Forall_impl; [exact Hlen|].
  intros [name qs] E. cbn in *. f_equal. rewrite <- E, <- (length_map Num qs).
  apply select_all.
Qed.

Lemma length_zip_tail {A B} (f : A -> A -> B) (qs : list A) :
  length (zip_with f qs (tail qs)) = (length qs - 1)%nat.
Proof.
  rewrite length_zip_with. destruct qs as [|q r]; [reflexivity|].
  cbn [tail length]. lia.
Qed.

Lemma calculate_returns_simple_run h prices df :
  frames h !! prices = Some df ->
  calculate_returns prices "simple" h = alloc (df_dropna (df_pct_change df)) h.
Proof.
  intros H. unfold calculate_returns. rewrite decide_True by reflexivity.
  unfold bind at 1. rewrite (bind_load _ _ _ _ H). reflexivity.
Qed.

Lemma calculate_returns_log_run h prices df :
  frames h !! prices = Some df ->
  calculate_returns prices "log" h =
  alloc (df_dropna (df_map (map np_log) (df_zip_with fdiv df (df_map pd_shift df)))) h.
Proof.
  intros H. unfold calculate_returns.
  rewrite decide_False by discriminate. rewrite decide_True by reflexivity.
  unfold bind at 1. rewrite (bind_load _ _ _ _ H). reflexivity.
Qed.

(** The returns frame before [dropna], for finite prices. *)
Lemma ratio_frame (post : float -> float) (ret : Qc -> Qc -> Qc) (P : Qc -> Prop)
    (i0 : label) (idx : list label) (cols : list (string * list Qc)) :
  post NaN = NaN ->
  (forall prev cur, P prev -> P cur -> post (fdiv (Num cur) (Num prev)) = Num (ret prev cur)) ->
  Forall (fun c => length (snd c) = S (length idx)) cols ->
  Forall (fun c => Forall P (snd c)) cols ->
  df_map (map post)
    (df_zip_with fdiv (finite_frame (i0 :: idx) cols)
                 (df_map pd_shift (finite_frame (i0 :: idx) cols))) =
  mkDataFrame (i0 :: idx)
    (map (fun c => (fst c, NaN :: map Num (snd c)))
         (map (fun c => (fst c, zip_with ret (snd c) (tail (snd c)))) cols)).
Proof.
  intros Hnan Hpost Hlen HP. rewrite df_zip_with_map.
  unfold df_map, finite_frame. cbn [index columns]. f_equal.
  rewrite !map_map. cbn [fst snd].
  apply Forall_fmap_ext_1.
  rewrite Forall_forall in Hlen, HP. apply Forall_forall. intros [name qs] Hin.
  cbn [fst snd]. f_equal.
  apply (shifted_ratio post ret P qs Hnan Hpost (HP _ Hin)).
  specialize (Hlen _ Hin). cbn in Hlen. destruct qs; [discriminate|congruence].
Qed.

(** C1 (amended). For a price matrix with at least one row and one column
    whose prices are all finite and non-zero (strictly positive for log
    returns), [calculate_returns] returns a new matrix over the dates after
    the first one; it has one row fewer than the price matrix, no null
    cell, and each cell is [price[t] / price[t-1] - 1] for simple returns
    and [ln (price[t] / price[t-1])] for log returns. *)
Theorem returns_of_finite_prices
    (h : heap) (prices : loc) (idx : list label) (cols : list (string * list Qc))
    (return_type : string) :
  frames h !! prices = Some (finite_frame idx cols) ->
  idx <> [] -> cols <> [] ->
  Forall (fun c => length (snd c) = length idx) cols ->
  (return_type = "simple" /\ Forall (fun c => Forall (fun q => q <> 0%Qc) (snd c)) cols) \/
  (return_type = "log" /\ Forall (fun c => Forall (fun q => (0 < q)%Qc) (snd c)) cols) ->
  exists l h' out,
    calculate_returns prices return_type h = (Ok l, h') /\
    frames h' !! l = Some out /\
    out = finite_frame (tail idx)
            (map (fun c => (fst c,
                            (if decide (return_type = "simple")
                             then simple_returns else log_returns) (snd c))) cols) /\
    nrows out = (nrows (finite_frame idx cols) - 1)%nat /\
    Forall (fun c => Forall (fun x => x <> NaN) (snd c)) (columns out).
Proof.
  intros H Hidx Hcols Hlen Hkind.
  destruct idx as [|i0 idx']; [congruence|]. cbn [tail].
  assert (forall g : list Qc -> list Qc,
            (forall qs, length (g qs) = (length qs - 1)%nat) ->
            calculate_returns prices return_type h =
            alloc (finite_frame idx' (map (fun c => (fst c, g (snd c))) cols)) h ->
            (if decide (return_type = "simple") then simple_returns else log_returns) = g ->
            exists l h' out,
              calculate_returns prices return_type h = (Ok l, h') /\
              frames h' !! l = Some out /\
              out = finite_frame idx'
                      (map (fun c => (fst c,
                                      (if decide (return_type = "simple")
                                       then simple_returns else log_returns) (snd c))) cols) /\
              nrows out = (nrows (finite_frame (i0 :: idx') cols) - 1)%nat /\
              Forall (fun c => Forall (fun x => x <> NaN) (snd c)) (columns out)) as Hfinal.
  { intros g Hg Hrun ->. rewrite Hrun. unfold alloc.
    eexists. eexists. eexists. split; [reflexivity|].
    split; [cbn; apply lookup_insert_eq|]. split; [reflexivity|]. split.
    - unfold nrows, finite_frame. cbn. lia.
    - unfold finite_frame. cbn [columns]. apply Forall_forall. intros c Hc.
      apply list_elem_of_fmap in Hc as (c' & -> & _). cbn [snd].
      apply Forall_forall. intros x Hx.
      apply list_elem_of_fmap in Hx as (q & -> & _). discriminate. }
  assert (Forall (fun c => length (snd c) = S (length idx')) cols) as Hlen' by exact Hlen.
  destruct Hkind as [[-> Hnz]|[-> Hpos]].
  - apply (Hfinal simple_returns).
    + intros qs. apply length_zip_tail.
    + rewrite (calculate_returns_simple_run _ _ _ H). f_equal.
      unfold df_pct_change. rewrite pd_ffill_finite_frame.
      rewrite (ratio_frame (fun x => fsub x (Num 1%Qc)) (fun prev cur => (cur / prev - 1)%Qc)
                 (fun q => q <> 0%Qc) i0 idx' cols eq_refl simple_return_cell Hlen' Hnz).
      apply dropna_first_row.
      * destruct cols; [congruence|discriminate].
      * rewrite Forall_fmap. eapply Forall_impl; [exact Hlen'|].
        intros [name qs] E. cbn in *. rewrite length_zip_tail. lia.
    + reflexivity.
  - apply (Hfinal log_returns).
    + intros qs. apply length_zip_tail.
    + rewrite (calculate_returns_log_run _ _ _ H). f_equal.
      rewrite (ratio_frame np_log (fun prev cur => ln (cur / prev)%Qc)
                 (fun q => (0 < q)%Qc) i0 idx' cols eq_refl log_return_cell Hlen' Hpos).
      apply dropna_first_row.
      * destruct cols; [congruence|discriminate].
      * rewrite Forall_fmap. eapply Forall_impl; [exact Hlen'|].
        intros [name qs] E. cbn in *. rewrite length_zip_tail. lia.
    + reflexivity.
Qed.

(** ** The date index *)

Lemma date_grid_unfold start end_ delta :
  0 < delta -> start <= end_ ->
  date_grid start end_ delta =
  start :: (if start + delta <=? end_ then date_grid (start + delta) end_ delta else []).
Proof.
  intros Hd Hle. unfold date_grid.
  rewrite Nat.add_1_r. cbn [seq map]. f_equal; [lia|].
  rewrite <- seq_shift, map_map.
  destruct (start + delta <=? end_) eqn:E.
  - apply Z.leb_le in E.
    replace (Z.to_nat ((end_ - start) / delta))
      with (Z.to_nat ((end_ - (start + delta)) / delta) + 1)%nat.
    + apply map_ext. intros k. lia.
    + replace (end_ - start) with ((end_ - (start + delta)) + 1 * delta) by lia.
      rewrite Z.div_add by lia.
      assert (0 <= (end_ - (start + delta)) / delta) by (apply Z.div_pos; lia). lia.
  - apply Z.leb_gt in E.
    rewrite Z.div_small by lia. reflexivity.
Qed.

(** The loop over the dates ends within the bound it is given. *)
Lemma date_range_grid fuel start end_ delta :
  0 < delta -> (Z.to_nat (end_ - start + 1) <= fuel)%nat ->
  date_range fuel start end_ delta =
  Some (if start <=? end_ then date_grid start end_ delta else []).
Proof.
  intros Hd. revert start. induction fuel as [|fuel IH]; intros start Hfuel.
  - cbn. destruct (start <=? end_) eqn:E; [|reflexivity].
    apply Z.leb_le in E. lia.
  - cbn [date_range]. destruct (start <=? end_) eqn:E; [|reflexivity].
    apply Z.leb_le in E. rewrite IH by lia.
    rewrite (date_grid_unfold start end_ delta Hd E). reflexivity.
Qed.

Lemma elem_of_date_grid start end_ delta d :
  0 < delta -> start <= end_ ->
  d ∈ date_grid start end_ delta <->
  start <= d <= end_ /\ (delta | d - start).
Proof.
  intros Hd Hle. unfold date_grid. rewrite list_elem_of_fmap. split.
  - intros (k & -> & Hk). apply list_elem_of_In, in_seq in Hk.
    assert (0 <= (end_ - start) / delta) by (apply Z.div_pos; lia).
    assert (Z.of_nat k <= (end_ - start) / delta) by lia.
    assert (delta * ((end_ - start) / delta) <= end_ - start)
      by (apply Z.mul_div_le; lia).
    split; [nia|]. exists (Z.of_nat k). lia.
  - intros ([H1 H2] & (m & Hm)).
    assert (0 <= m) by nia.
    exists (Z.to_nat m). split; [lia|].
    apply list_elem_of_In, in_seq.
    assert (m <= (end_ - start) / delta).
    { apply Z.div_le_lower_bound; [lia|nia]. }
    lia.
Qed.

Lemma fetch_symbol_ok fetcher dates symbol h :
  exists prices h',
    fetch_symbol fetcher dates symbol h = (Ok prices, h') /\
    frames h' = frames h /\ self_risk_free_rate h' = self_risk_free_rate h.
Proof.
  unfold fetch_symbol. revert h. induction dates as [|d r IH]; intros h.
  - exists [], h. repeat split.
  - cbn [for_each]. unfold bind at 1. unfold bind at 1. unfold call_fetch_price at 1.
    cbn [ret].
    match goal with
    | |- context [for_each ?f r] =>
        match goal with |- context [bind (for_each f r) ?k ?h1] =>
          destruct (IH h1) as (ps & h' & E & Hf & Hr);
          rewrite (bind_ok _ k _ _ _ E)
        end
    end.
    eexists. eexists. split; [reflexivity|]. split; assumption.
Qed.

Lemma fetch_all_ok fetcher dates symbols acc h :
  exists price_data h',
    fold_each (fun price_data symbol =>
                 let* symbol_prices := fetch_symbol fetcher dates symbol in
                 ret (assoc_set symbol symbol_prices price_data))
              symbols acc h = (Ok price_data, h') /\
    frames h' = frames h /\ self_risk_free_rate h' = self_risk_free_rate h.
Proof.
  revert acc h. induction symbols as [|s r IH]; intros acc h.
  - exists acc, h. repeat split.
  - cbn [fold_each].
    destruct (fetch_symbol_ok fetcher dates s h) as (ps & h1 & E & Hf & Hr).
    erewrite bind_ok by (erewrite bind_ok by exact E; reflexivity).
    destruct (IH (assoc_set s ps acc) h1) as (pd & h2 & E2 & Hf2 & Hr2).
    exists pd, h2. split; [exact E2|]. split; congruence.
Qed.

(** With a recognized interval the call always returns a frame: the bound
    given to the loop over the dates is never exhausted. *)
Lemma fetch_historical_data_returns
    (h : heap) (fetcher : Fetcher) (symbols : list string)
    (start_date : Z) (end_date : option Z) (interval : string) (delta : Z) :
  delta_of_interval interval = Some delta ->
  exists l h' df,
    fetch_historical_data fetcher symbols start_date end_date interval h = (Ok l, h') /\
    frames h' !! l = Some df.
Proof.
  intros Hdelta.
  assert (0 < delta) as Hpos.
  { unfold delta_of_interval in Hdelta.
    repeat match type of Hdelta with
           | (if ?c then _ else _) = _ => destruct c
           end; inversion Hdelta; lia. }
  unfold fetch_historical_data.
  rewrite Hdelta. cbn [lift_opt]. erewrite bind_ok by reflexivity.
  rewrite (date_range_grid _ start_date _ delta Hpos) by lia.
  match goal with
  | |- context [lift_opt OutOfFuel (Some ?l)] =>
      generalize l; intros dates;
      destruct (fetch_all_ok fetcher dates symbols [] h) as (pd & h1 & E & _ & _)
  end.
  cbn [lift_opt]. erewrite bind_ok by reflexivity.
  erewrite bind_ok by exact E.
  unfold alloc. eexists. eexists. eexists. split; [reflexivity|].
  cbn. apply lookup_insert_eq.
Qed.

(** C5 (amended). For [start <= end] and an interval among daily, weekly
    and monthly, [fetch_historical_data] returns a frame whose index is the
    start date stepped by the fixed delta of the interval (1, 7 or 30
    days) while it does not pass the end date.  The index contains the
    start date, stays within the two endpoints, and contains the end date
    exactly when the end date is a whole number of steps after the start
    (always so for the daily interval). *)
Theorem date_index_steps_from_start
    (h : heap) (fetcher : Fetcher) (symbols : list string)
    (start_date : Z) (end_date : option Z) (interval : string) (delta : Z) :
  let end_ := match end_date with Some d => d | None => today end in
  start_date <= end_ ->
  (interval, delta) ∈ [("daily", 1); ("weekly", 7); ("monthly", 30)] ->
  exists l h' df,
    fetch_historical_data fetcher symbols start_date end_date interval h = (Ok l, h') /\
    frames h' !! l = Some df /\
    index df = map Date (date_grid start_date end_ delta) /\
    Date start_date ∈ index df /\
    (forall d, Date d ∈ index df -> start_date <= d <= end_) /\
    (Date end_ ∈ index df <-> (delta | end_ - start_date)) /\
    (interval = "daily" -> Date end_ ∈ index df).
Proof.
  intros end_ Hle Hint.
  assert (delta_of_interval interval = Some delta /\ 0 < delta) as [Hdelta Hpos].
  { rewrite !elem_of_cons, elem_of_nil in Hint.
    destruct Hint as [E|[E|[E|[]]]]; inversion E; subst;
      (split; [reflexivity|lia]). }
  unfold fetch_historical_data. fold end_.
  rewrite Hdelta. cbn [lift_opt]. erewrite bind_ok by reflexivity.
  rewrite (date_range_grid _ start_date end_ delta Hpos) by lia.
  apply Z.leb_le in Hle as Hleb. rewrite Hleb. cbn [lift_opt].
  erewrite bind_ok by reflexivity.
  destruct (fetch_all_ok fetcher (date_grid start_date end_ delta) symbols [] h)
    as (price_data & h1 & E & Hf & Hr).
  erewrite bind_ok by exact E.
  unfold alloc. eexists. eexists. eexists. split; [reflexivity|].
  split; [cbn; apply lookup_insert_eq|]. cbn [index df_map].
  assert (forall d, Date d ∈ map Date (date_grid start_date end_ delta) <->
                    d ∈ date_grid start_date end_ delta) as Hmem.
  { intros d. rewrite list_elem_of_fmap. split.
    - intros (d' & [= ->] & Hd). exact Hd.
    - intros Hd. exists d. split; [reflexivity|exact Hd]. }
  split; [reflexivity|]. split; [|split; [|split]].
  - apply Hmem, elem_of_date_grid; [assumption..|].
    split; [lia|]. exists 0. lia.
  - intros d Hd. apply Hmem, elem_of_date_grid in Hd; [|assumption..].
    destruct Hd as [Hd _]. exact Hd.
  - rewrite Hmem, elem_of_date_grid by assumption. split; [intros [_ Hdiv]; exact Hdiv|].
    intros Hdiv. split; [lia|exact Hdiv].
  - intros ->. apply Hmem, elem_of_date_grid; [assumption..|].
    split; [lia|].
    rewrite !elem_of_cons, elem_of_nil in Hint.
    destruct Hint as [Hi|[Hi|[Hi|[]]]]; inversion Hi; subst.
    exists (end_ - start_date). lia.
Qed.
(** ** The price matrix: calls to the fetcher and filling of the gaps *)

Lemma fetch_symbol_run fetcher dates symbol h :
  fetch_symbol fetcher dates symbol h =
  (Ok (fetched_prices fetcher dates symbol),
   mkHeap (self_risk_free_rate h) (frames h)
          (fetch_log h ++ map (fun d => (symbol, d)) dates)).
Proof.
  unfold fetch_symbol, fetched_prices. revert h.
  induction dates as [|d r IH]; intros h.
  - cbn. rewrite app_nil_r. destruct h; reflexivity.
  - cbn [for_each]. unfold bind at 1. unfold bind at 1. unfold call_fetch_price at 1.
    cbn [ret].
    match goal with
    | |- context [bind (for_each ?f r) ?k ?h1] =>
        rewrite (bind_ok _ k _ _ _ (IH h1))
    end.
    cbn. rewrite <- app_assoc. reflexivity.
Qed.

Lemma fetch_all_run fetcher dates symbols acc h :
  fold_each (fun price_data symbol =>
               let* symbol_prices := fetch_symbol fetcher dates symbol in
               ret (assoc_set symbol symbol_prices price_data))
            symbols acc h =
  (Ok (foldl (fun acc s => assoc_set s (fetched_prices fetcher dates s) acc) acc symbols),
   mkHeap (self_risk_free_rate h) (frames h)
          (fetch_log h ++ fetch_calls symbols dates)).
Proof.
  revert acc h. induction symbols as [|s r IH]; intros acc h.
  - cbn. rewrite app_nil_r. destruct h; reflexivity.
  - cbn [fold_each].
    erewrite bind_ok
      by (erewrite bind_ok by apply fetch_symbol_run; reflexivity).
    rewrite IH. cbn. rewrite <- app_assoc. reflexivity.
Qed.

Lemma delta_of_interval_pos interval delta :
  delta_of_interval interval = Some delta -> 0 < delta.
Proof.
  unfold delta_of_interval. intros Hdelta.
  repeat match type of Hdelta with
         | (if ?c then _ else _) = _ => destruct c
         end; inversion Hdelta; lia.
Qed.

(** The whole call, for a recognized interval. *)
Lemma fetch_historical_data_run h fetcher symbols start_date end_date interval delta :
  delta_of_interval interval = Some delta ->
  fetch_historical_data fetcher symbols start_date end_date interval h =
  let dates :=
    dates_of start_date (match end_date with Some d => d | None => today end) delta in
  alloc (df_map pd_bfill
           (df_map pd_ffill
              (mkDataFrame (map Date dates) (price_data fetcher dates symbols []))))
        (mkHeap (self_risk_free_rate h) (frames h)
                (fetch_log h ++ fetch_calls symbols dates)).
Proof.
  intros Hdelta. pose proof (delta_of_interval_pos _ _ Hdelta) as Hpos.
  unfold fetch_historical_data.
  rewrite Hdelta. cbn [lift_opt]. erewrite bind_ok by reflexivity.
  rewrite (date_range_grid _ start_date _ delta Hpos) by lia.
  fold (dates_of start_date (match end_date with Some d => d | None => today end) delta).
  cbn [lift_opt]. erewrite bind_ok by reflexivity.
  erewrite bind_ok by apply fetch_all_run.
  reflexivity.
Qed.

(** *** The mapping filled symbol by symbol *)

Ltac propositional :=
  try clear sqrt; try clear ln; try clear norm_ppf;
  try clear corr_matrix; try clear corr_pair; try clear today;
  tauto.

Lemma assoc_get_assoc_set {A} k k' (v : A) l :
  assoc_get k' (assoc_set k v l) = if decide (k = k') then Some v else assoc_get k' l.
Proof.
  induction l as [|[k0 v0] r IH]; cbn.
  - destruct (decide (k = k')); reflexivity.
  - destruct (decide (k0 = k)) as [->|Hne]; cbn.
    + destruct (decide (k = k')); reflexivity.
    + rewrite IH. destruct (decide (k0 = k')) as [->|]; [|reflexivity].
      rewrite decide_False by congruence. reflexivity.
Qed.

Lemma elem_of_keys_assoc_set {A} k k' (v : A) l :
  k' ∈ map fst (assoc_set k v l) <-> k' = k \/ k' ∈ map fst l.
Proof.
  induction l as [|[k0 v0] r IH]; cbn.
  - rewrite list_elem_of_singleton, elem_of_nil. propositional.
  - destruct (decide (k0 = k)) as [->|Hne]; cbn; rewrite !elem_of_cons.
    + propositional.
    + rewrite IH. propositional.
Qed.

Lemma NoDup_keys_assoc_set {A} k (v : A) l :
  NoDup (map fst l) -> NoDup (map fst (assoc_set k v l)).
Proof.
  induction l as [|[k0 v0] r IH]; cbn; intros Hnd.
  - apply NoDup_singleton.
  - inversion Hnd as [|? ? Hnotin Hnd']; subst.
    destruct (decide (k0 = k)) as [->|Hne]; cbn.
    + constructor; assumption.
    + constructor; [|apply IH; assumption].
      rewrite elem_of_keys_assoc_set. intros [->|Hin]; [congruence|contradiction].
Qed.

Lemma price_data_keys fetcher dates symbols acc s :
  s ∈ map fst (price_data fetcher dates symbols acc) <-> s ∈ symbols \/ s ∈ map fst acc.
Proof.
  revert acc. induction symbols as [|s0 r IH]; intros acc; cbn.
  - rewrite elem_of_nil. propositional.
  - unfold price_data in *. cbn [foldl]. rewrite IH, elem_of_keys_assoc_set, elem_of_cons. propositional.
Qed.

Lemma price_data_NoDup fetcher dates symbols acc :
  NoDup (map fst acc) -> NoDup (map fst (price_data fetcher dates symbols acc)).
Proof.
  revert acc. induction symbols as [|s0 r IH]; intros acc Hnd; cbn; [exact Hnd|].
  apply IH, NoDup_keys_assoc_set, Hnd.
Qed.

Lemma price_data_get fetcher dates symbols acc s :
  assoc_get s (price_data fetcher dates symbols acc) =
  if decide (s ∈ symbols) then Some (fetched_prices fetcher dates s)
  else assoc_get s acc.
Proof.
  revert acc. induction symbols as [|s0 r IH]; intros acc; cbn.
  - rewrite decide_False by apply not_elem_of_nil. reflexivity.
  - unfold price_data in *. cbn [foldl]. rewrite IH.
    destruct (decide (s ∈ r)) as [Hin|Hnotin].
    + rewrite decide_True by (right; exact Hin). reflexivity.
    + rewrite assoc_get_assoc_set.
      destruct (decide (s0 = s)) as [->|Hne].
      * rewrite decide_True by left. reflexivity.
      * rewrite decide_False; [reflexivity|].
        rewrite elem_of_cons. intros [->|Hin]; [congruence|contradiction].
Qed.

Lemma price_data_lengths fetcher dates symbols acc :
  Forall (fun c => length (snd c) = length dates) acc ->
  Forall (fun c => length (snd c) = length dates) (price_data fetcher dates symbols acc).
Proof.
  revert acc. induction symbols as [|s0 r IH]; intros acc Hacc; cbn; [exact Hacc|].
  apply IH, assoc_set_Forall; [|exact Hacc].
  cbn. unfold fetched_prices. apply length_map.
Qed.

(** *** Forward and backward filling of one column *)

Lemma isna_false x : x <> NaN -> isna x = false.
Proof. destruct x; cbn; congruence. Qed.

Lemma length_ffill_from last xs : length (ffill_from last xs) = length xs.
Proof. revert last. induction xs as [|x r IH]; intros last; cbn; [|rewrite IH]; reflexivity. Qed.

Lemma length_bfill_to xs : length (bfill_to xs) = length xs.
Proof. induction xs as [|x r IH]; cbn; [|rewrite IH]; reflexivity. Qed.

Lemma last_cons_default {A} (y a : A) t : List.last (y :: t) a = List.last t y.
Proof.
  revert y a. induction t as [|z t IH]; intros y a; [reflexivity|].
  change (List.last (y :: z :: t) a) with (List.last (z :: t) a).
  rewrite (IH z a), (IH z y). reflexivity.
Qed.

Lemma ffill_from_snoc last l x :
  ffill_from last (l ++ [x]) =
  ffill_from last l ++ [if isna x then List.last (ffill_from last l) last else x].
Proof.
  revert last. induction l as [|y l IH]; intros last; [reflexivity|].
  cbn [app ffill_from]. rewrite IH. cbn zeta.
  rewrite last_cons_default. reflexivity.
Qed.

Lemma hd_rev {A} (d : A) t : hd d (rev t) = List.last t d.
Proof.
  induction t as [|y t IH]; [reflexivity|].
  rewrite last_cons_default. cbn [rev].
  destruct (rev t) as [|z u] eqn:E.
  - apply (f_equal (@rev A)) in E. rewrite rev_involutive in E. subst t. reflexivity.
  - cbn. cbn in IH. rewrite IH.
    assert (t <> []) as Hne by (intros ->; discriminate).
    clear -Hne. revert d y. induction t as [|a t IHt]; intros d y; [congruence|].
    destruct t as [|b t]; [reflexivity|].
    change (List.last (a :: b :: t) d) with (List.last (b :: t) d).
    change (List.last (a :: b :: t) y) with (List.last (b :: t) y).
    apply IHt. discriminate.
Qed.

Lemma pd_bfill_bfill_to xs : pd_bfill xs = bfill_to xs.
Proof.
  unfold pd_bfill, pd_ffill. induction xs as [|x r IH]; [reflexivity|].
  cbn [rev bfill_to]. rewrite ffill_from_snoc, rev_app_distr. cbn [rev app].
  rewrite <- IH, hd_rev. reflexivity.
Qed.

Lemma ffill_from_known last xs :
  last <> NaN -> Forall (fun y => y <> NaN) (ffill_from last xs).
Proof.
  revert last. induction xs as [|x r IH]; intros last Hlast; cbn; constructor.
  - destruct x; cbn; congruence.
  - apply IH. destruct x; cbn; congruence.
Qed.

(** After the forward fill, the missing cells are the cells before the
    first known one. *)
Lemma ffill_shape xs :
  exists k ys,
    pd_ffill xs = replicate k NaN ++ ys /\
    Forall (fun y => y <> NaN) ys /\
    ((exists x, x ∈ xs /\ x <> NaN) -> ys <> []).
Proof.
  unfold pd_ffill. induction xs as [|x r (k & ys & E & Hys & Hne)].
  - exists 0%nat, []. repeat split; [constructor|].
    intros (x & Hx & _). apply elem_of_nil in Hx. contradiction.
  - destruct (decide (x = NaN)) as [->|Hx].
    + exists (S k), ys. cbn [ffill_from isna]. rewrite E. repeat split; [exact Hys|].
      intros (y & Hy & Hyn). apply Hne. exists y. split; [|exact Hyn].
      apply elem_of_cons in Hy as [->|Hy]; [congruence|exact Hy].
    + exists 0%nat, (ffill_from NaN (x :: r)). repeat split.
      * cbn [ffill_from]. rewrite (isna_false x) by assumption.
        constructor; [exact Hx|]. apply ffill_from_known, Hx.
      * discriminate.
Qed.

Lemma bfill_to_known ys : Forall (fun y => y <> NaN) ys -> bfill_to ys = ys.
Proof.
  induction 1 as [|y r Hy _ IH]; [reflexivity|].
  cbn. rewrite IH. rewrite (isna_false y) by assumption. reflexivity.
Qed.

Lemma bfill_to_leading k ys :
  Forall (fun y => y <> NaN) ys -> ys <> [] ->
  Forall (fun y => y <> NaN) (bfill_to (replicate k NaN ++ ys)).
Proof.
  intros Hys Hne. induction k as [|k IH]; cbn [replicate app].
  - rewrite bfill_to_known by exact Hys. exact Hys.
  - cbn [bfill_to isna]. constructor; [|exact IH].
    destruct (bfill_to (replicate k NaN ++ ys)) as [|z t] eqn:E.
    + apply (f_equal length) in E. rewrite length_bfill_to, length_app in E.
      destruct ys; [congruence|]. cbn in E. lia.
    + inversion IH; assumption.
Qed.

(** A column with a known cell has no gap once filled forward and backward. *)
Lemma filled_no_gap xs :
  (exists x, x ∈ xs /\ x <> NaN) ->
  Forall (fun y => y <> NaN) (pd_bfill (pd_ffill xs)).
Proof.
  intros Hknown. destruct (ffill_shape xs) as (k & ys & E & Hys & Hne).
  rewrite pd_bfill_bfill_to, E. apply bfill_to_leading; [exact Hys|apply Hne, Hknown].
Qed.

Lemma ffill_from_all_missing xs :
  Forall (fun x => x = NaN) xs -> ffill_from NaN xs = xs.
Proof.
  induction 1 as [|x r -> _ IH]; [reflexivity|]. cbn. rewrite IH. reflexivity.
Qed.

Lemma bfill_to_all_missing xs :
  Forall (fun x => x = NaN) xs -> bfill_to xs = xs.
Proof.
  induction 1 as [|x r -> Hr IH]; [reflexivity|]. cbn. rewrite IH.
  destruct Hr as [|? ? ->]; reflexivity.
Qed.

Lemma ffill_from_lookup_known last xs i p :
  xs !! i = Some p -> p <> NaN -> ffill_from last xs !! i = Some p.
Proof.
  revert last i. induction xs as [|x r IH]; intros last [|i] Hi Hp; try discriminate.
  - cbn in *. inversion Hi; subst.
    rewrite (isna_false p) by assumption. reflexivity.
  - cbn in *. apply IH; assumption.
Qed.

Lemma ffill_from_lookup_gap last xs j :
  (j < length xs)%nat ->
  (forall k, (k <= j)%nat -> xs !! k = Some NaN) ->
  ffill_from last xs !! j = Some last.
Proof.
  revert last j. induction xs as [|x r IH]; intros last j Hj Hgap; [cbn in Hj; lia|].
  pose proof (Hgap 0%nat ltac:(lia)) as H0. cbn in H0. inversion H0; subst.
  destruct j as [|j]; [reflexivity|].
  cbn. apply IH; [cbn in Hj; lia|].
  intros k Hk. apply (Hgap (S k)). lia.
Qed.

(** A gap after a known cell takes the value of that cell. *)
Lemma ffill_from_lookup_last_known last xs i j p :
  xs !! i = Some p -> p <> NaN -> (i <= j < length xs)%nat ->
  (forall k, (i < k <= j)%nat -> xs !! k = Some NaN) ->
  ffill_from last xs !! j = Some p.
Proof.
  revert last i j. induction xs as [|x r IH]; intros last i j Hi Hp Hj Hgap;
    [destruct i; discriminate|].
  destruct i as [|i].
  - cbn in Hi. inversion Hi; subst.
    destruct j as [|j].
    + cbn. rewrite (isna_false p) by assumption. reflexivity.
    + cbn. rewrite (isna_false p) by assumption.
      apply ffill_from_lookup_gap; [cbn in Hj; lia|].
      intros k Hk. apply (Hgap (S k)). lia.
  - destruct j as [|j]; [lia|]. cbn.
    apply (IH _ i); [exact Hi|exact Hp|cbn in Hj; lia|].
    intros k Hk. apply (Hgap (S k)). lia.
Qed.

Lemma bfill_to_lookup_known ys j p :
  ys !! j = Some p -> p <> NaN -> bfill_to ys !! j = Some p.
Proof.
  revert j. induction ys as [|y r IH]; intros [|j] Hj Hp; try discriminate.
  - cbn in *. inversion Hj; subst.
    rewrite (isna_false p) by assumption. reflexivity.
  - cbn in *. apply IH; assumption.
Qed.

(** A gap before a known cell, with no known cell in between, takes the
    value of that cell. *)
Lemma bfill_to_lookup_next_known ys i j p :
  ys !! i = Some p -> p <> NaN -> (j <= i)%nat ->
  (forall k, (j <= k < i)%nat -> ys !! k = Some NaN) ->
  bfill_to ys !! j = Some p.
Proof.
  revert i j. induction ys as [|y r IH]; intros i j Hi Hp Hj Hgap;
    [destruct i; discriminate|].
  destruct j as [|j].
  - destruct i as [|i].
    + cbn in *. inversion Hi; subst.
      rewrite (isna_false p) by assumption. reflexivity.
    + pose proof (Hgap 0%nat ltac:(lia)) as H0. cbn in H0. inversion H0; subst.
      cbn [bfill_to isna]. cbn in Hi.
      assert (bfill_to r !! 0%nat = Some p) as Hhead.
      { apply (IH i); [exact Hi|exact Hp|lia|].
        intros k Hk. apply (Hgap (S k)). lia. }
      destruct (bfill_to r); [discriminate|]. cbn in *. exact Hhead.
  - destruct i as [|i]; [lia|]. cbn in *.
    apply (IH i); [exact Hi|exact Hp|lia|].
    intros k Hk. apply (Hgap (S k)). lia.
Qed.

Lemma ffill_from_lookup_leading xs i :
  (forall k, (k < i)%nat -> xs !! k = Some NaN) ->
  forall k, (k < i)%nat -> ffill_from NaN xs !! k = Some NaN.
Proof.
  intros Hgap k Hk. apply ffill_from_lookup_gap.
  - apply lookup_lt_is_Some. rewrite (Hgap k Hk). eauto.
  - intros k' Hk'. apply Hgap. lia.
Qed.

(** *** The frame returned by [fetch_historical_data] *)

(** X1. With a recognized interval, [fetch_historical_data] calls the
    fetcher once for every symbol and date of the grid, symbol by symbol
    and date by date, and makes no other call: a fetch that fails or
    returns no price does not stop the loop. *)
Theorem fetch_historical_data_calls
    (h : heap) (fetcher : Fetcher) (symbols : list string)
    (start_date : Z) (end_date : option Z) (interval : string) (delta : Z) :
  delta_of_interval interval = Some delta ->
  let end_ := match end_date with Some d => d | None => today end in
  let dates := dates_of start_date end_ delta in
  exists l h',
    fetch_historical_data fetcher symbols start_date end_date interval h = (Ok l, h') /\
    fetch_log h' = fetch_log h ++ fetch_calls symbols dates /\
    length (fetch_log h') =
      (length (fetch_log h) + length symbols * length dates)%nat.
Proof.
  intros Hdelta end_ dates.
  rewrite (fetch_historical_data_run _ _ _ _ _ _ _ Hdelta). cbn zeta.
  fold end_. fold dates. unfold alloc. cbn.
  eexists. eexists. split; [reflexivity|]. cbn. split; [reflexivity|].
  rewrite length_app. f_equal. unfold fetch_calls.
  induction symbols as [|s r IH]; [reflexivity|].
  cbn. rewrite length_app, length_map, IH. reflexivity.
Qed.

(** X2. The frame returned by [fetch_historical_data] is a new table with
    one row per date of the grid and one column per requested symbol: the
    column labels are the requested symbols without repetition, and every
    column has one cell per date.  The tables that existed before are
    unchanged. *)
Theorem fetch_historical_data_shape
    (h : heap) (fetcher : Fetcher) (symbols : list string)
    (start_date : Z) (end_date : option Z) (interval : string) (delta : Z) :
  delta_of_interval interval = Some delta ->
  let end_ := match end_date with Some d => d | None => today end in
  let dates := dates_of start_date end_ delta in
  exists l h' df,
    fetch_historical_data fetcher symbols start_date end_date interval h = (Ok l, h') /\
    frames h !! l = None /\
    frames h' = <[l := df]> (frames h) /\
    index df = map Date dates /\
    NoDup (col_names df) /\
    (forall s, s ∈ col_names df <-> s ∈ symbols) /\
    Forall (fun c => length (snd c) = length dates) (columns df).
Proof.
  intros Hdelta end_ dates.
  rewrite (fetch_historical_data_run _ _ _ _ _ _ _ Hdelta). cbn zeta.
  fold end_. fold dates. unfold alloc. cbn.
  eexists. eexists. eexists. split; [reflexivity|]. cbn.
  split; [apply fresh_not_allocated|]. split; [reflexivity|]. split; [reflexivity|].
  unfold col_names. cbn [columns df_map]. rewrite !map_map. cbn [fst].
  split; [|split].
  - apply (price_data_NoDup fetcher dates symbols []). constructor.
  - intros s. rewrite (price_data_keys fetcher dates symbols [] s).
    cbn. rewrite elem_of_nil. propositional.
  - rewrite !Forall_map. cbn [snd].
    eapply Forall_impl;
      [apply (price_data_lengths fetcher dates symbols []); constructor|].
    intros c Hc. cbn in Hc.
    rewrite pd_bfill_bfill_to, length_bfill_to.
    unfold pd_ffill. rewrite length_ffill_from. exact Hc.
Qed.

Lemma assoc_get_map_snd {A B} (f : A -> B) k (l : list (string * A)) :
  assoc_get k (map (fun c => (fst c, f (snd c))) l) = f <$> assoc_get k l.
Proof.
  induction l as [|[k0 v0] r IH]; [reflexivity|].
  cbn. destruct (decide (k0 = k)); [reflexivity|exact IH].
Qed.

(** The column of a requested symbol: the prices fetched for it, filled
    forward and then backward. *)
Lemma fetch_historical_data_column
    (h : heap) (fetcher : Fetcher) (symbols : list string)
    (start_date : Z) (end_date : option Z) (interval : string) (delta : Z) :
  delta_of_interval interval = Some delta ->
  let end_ := match end_date with Some d => d | None => today end in
  let dates := dates_of start_date end_ delta in
  exists l h' df,
    fetch_historical_data fetcher symbols start_date end_date interval h = (Ok l, h') /\
    frames h' !! l = Some df /\
    forall s, s ∈ symbols ->
      assoc_get s (columns df) =
      Some (pd_bfill (pd_ffill (fetched_prices fetcher dates s))).
Proof.
  intros Hdelta end_ dates.
  rewrite (fetch_historical_data_run _ _ _ _ _ _ _ Hdelta). cbn zeta.
  fold end_. fold dates. unfold alloc. cbn.
  eexists. eexists. eexists. split; [reflexivity|]. cbn.
  split; [apply lookup_insert_eq|].
  intros s Hs. cbn [columns df_map].
  rewrite !assoc_get_map_snd.
  rewrite (price_data_get fetcher dates symbols [] s).
  rewrite decide_True by exact Hs. reflexivity.
Qed.

(** X3. In the frame returned by [fetch_historical_data], the column of a
    symbol for which at least one fetch gave a price has no missing cell;
    the column of a symbol for which no fetch gave a price is missing in
    every row. *)
Theorem fetch_historical_data_no_gap
    (h : heap) (fetcher : Fetcher) (symbols : list string)
    (start_date : Z) (end_date : option Z) (interval : string) (delta : Z) :
  delta_of_interval interval = Some delta ->
  let end_ := match end_date with Some d => d | None => today end in
  let dates := dates_of start_date end_ delta in
  exists l h' df,
    fetch_historical_data fetcher symbols start_date end_date interval h = (Ok l, h') /\
    frames h' !! l = Some df /\
    forall s, s ∈ symbols ->
      exists col,
        assoc_get s (columns df) = Some col /\
        length col = length dates /\
        ((exists d, d ∈ dates /\ price_of (fetcher s d) <> NaN) ->
         Forall (fun x => x <> NaN) col) /\
        ((forall d, d ∈ dates -> price_of (fetcher s d) = NaN) ->
         Forall (fun x => x = NaN) col).
Proof.
  intros Hdelta end_ dates.
  destruct (fetch_historical_data_column h fetcher symbols start_date end_date
              interval delta Hdelta) as (l & h' & df & E & Hl & Hcol).
  exists l, h', df. split; [exact E|]. split; [exact Hl|].
  intros s Hs. eexists. split; [apply Hcol, Hs|]. fold end_. fold dates.
  split; [|split].
  - rewrite pd_bfill_bfill_to, length_bfill_to. unfold pd_ffill.
    rewrite length_ffill_from. apply length_map.
  - intros (d & Hd & Hp). apply filled_no_gap.
    exists (price_of (fetcher s d)). split; [|exact Hp].
    unfold fetched_prices. apply list_elem_of_fmap. exists d. split; [reflexivity|exact Hd].
  - intros Hnone.
    assert (Forall (fun x => x = NaN) (fetched_prices fetcher dates s)) as Hall.
    { unfold fetched_prices. rewrite Forall_map. apply Forall_forall. exact Hnone. }
    unfold pd_ffill. rewrite (ffill_from_all_missing _ Hall).
    rewrite pd_bfill_bfill_to, (bfill_to_all_missing _ Hall). exact Hall.
Qed.

(** X4. In the frame returned by [fetch_historical_data], a price given by
    the fetcher is kept in its cell; a run of dates without a price that
    follows it takes that price (the last one known); and the dates
    without a price before the first price take the first price. *)
Theorem fetch_historical_data_fills_gaps
    (h : heap) (fetcher : Fetcher) (symbols : list string)
    (start_date : Z) (end_date : option Z) (interval : string) (delta : Z) :
  delta_of_interval interval = Some delta ->
  let end_ := match end_date with Some d => d | None => today end in
  let dates := dates_of start_date end_ delta in
  exists l h' df,
    fetch_historical_data fetcher symbols start_date end_date interval h = (Ok l, h') /\
    frames h' !! l = Some df /\
    forall s, s ∈ symbols ->
      exists col,
        assoc_get s (columns df) = Some col /\
        forall i d p,
          dates !! i = Some d -> price_of (fetcher s d) = p -> p <> NaN ->
          col !! i = Some p /\
          (forall j, (i <= j < length dates)%nat ->
             (forall k d', (i < k <= j)%nat -> dates !! k = Some d' ->
                           price_of (fetcher s d') = NaN) ->
             col !! j = Some p) /\
          ((forall k d', (k < i)%nat -> dates !! k = Some d' ->
                         price_of (fetcher s d') = NaN) ->
           forall j, (j <= i)%nat -> col !! j = Some p).
Proof.
  intros Hdelta end_ dates.
  destruct (fetch_historical_data_column h fetcher symbols start_date end_date
              interval delta Hdelta) as (l & h' & df & E & Hl & Hcol).
  exists l, h', df. split; [exact E|]. split; [exact Hl|].
  intros s Hs. eexists. split; [apply Hcol, Hs|]. fold end_. fold dates.
  intros i d p Hi Hprice Hp.
  set (xs := fetched_prices fetcher dates s).
  assert (forall k d', dates !! k = Some d' -> xs !! k = Some (price_of (fetcher s d')))
    as Hxs.
  { intros k d' Hk. unfold xs, fetched_prices. rewrite list_lookup_fmap, Hk. reflexivity. }
  assert (length xs = length dates) as Hlen by apply length_map.
  assert (xs !! i = Some p) as Hxi by (rewrite (Hxs i d Hi), Hprice; reflexivity).
  rewrite pd_bfill_bfill_to. unfold pd_ffill.
  assert (forall j, (i <= j < length dates)%nat ->
            (forall k d', (i < k <= j)%nat -> dates !! k = Some d' ->
                          price_of (fetcher s d') = NaN) ->
            bfill_to (ffill_from NaN xs) !! j = Some p) as Hforward.
  { intros j Hj Hgap. apply bfill_to_lookup_known; [|exact Hp].
    apply (ffill_from_lookup_last_known _ _ i); [exact Hxi|exact Hp|lia|].
    intros k Hk.
    destruct (lookup_lt_is_Some_2 dates k ltac:(lia)) as [d' Hd'].
    rewrite (Hxs k d' Hd'), (Hgap k d' Hk Hd'). reflexivity. }
  split; [|split].
  - apply Hforward; [apply lookup_lt_Some in Hi; lia|]. intros k d' Hk. lia.
  - exact Hforward.
  - intros Hgap j Hj.
    apply (bfill_to_lookup_next_known _ i); [|exact Hp|exact Hj|].
    + apply ffill_from_lookup_known; assumption.
    + intros k Hk. apply (ffill_from_lookup_leading xs i); [|lia].
      intros k' Hk'.
      destruct (lookup_lt_is_Some_2 dates k') as [d' Hd'];
        [apply lookup_lt_Some in Hi; lia|].
      rewrite (Hxs k' d' Hd'), (Hgap k' d' Hk' Hd'). reflexivity.
Qed.

(** X5. When the start date is after the end date, [fetch_historical_data]
    fetches nothing and returns a frame without rows that still has one
    (empty) column per requested symbol. *)
Theorem fetch_historical_data_empty_range
    (h : heap) (fetcher : Fetcher) (symbols : list string)
    (start_date : Z) (end_date : option Z) (interval : string) (delta : Z) :
  delta_of_interval interval = Some delta ->
  (match end_date with Some d => d | None => today end) < start_date ->
  exists l h' df,
    fetch_historical_data fetcher symbols start_date end_date interval h = (Ok l, h') /\
    frames h' !! l = Some df /\
    fetch_log h' = fetch_log h /\
    index df = [] /\
    (forall s, s ∈ symbols -> assoc_get s (columns df) = Some []).
Proof.
  intros Hdelta Hlt.
  rewrite (fetch_historical_data_run _ _ _ _ _ _ _ Hdelta). cbn zeta.
  assert (dates_of start_date (match end_date with Some d => d | None => today end) delta
          = []) as ->.
  { unfold dates_of. apply Z.leb_gt in Hlt. rewrite Hlt. reflexivity. }
  assert (fetch_calls symbols [] = []) as ->.
  { unfold fetch_calls. induction symbols as [|s r IH]; [reflexivity|exact IH]. }
  unfold alloc. cbn.
  eexists. eexists. eexists. split; [reflexivity|]. cbn.
  split; [apply lookup_insert_eq|]. split; [apply app_nil_r|]. split; [reflexivity|].
  intros s Hs. cbn [columns df_map].
  rewrite !assoc_get_map_snd, price_data_get, decide_True by exact Hs.
  reflexivity.
Qed.
(** ** Returns of an arbitrary price matrix *)

Lemma length_select_same {A B} (mask : list bool) (xs : list A) (ys : list B) :
  length xs = length ys -> length (select mask xs) = length (select mask ys).
Proof.
  revert xs ys. induction mask as [|m ms IH]; intros [|x xs] [|y ys] E;
    try discriminate; try reflexivity.
  cbn. destruct m; cbn; [f_equal|]; apply IH; cbn in E; lia.
Qed.

Lemma select_sublist {A} (mask : list bool) (xs : list A) :
  select mask xs `sublist_of` xs.
Proof.
  revert xs. induction mask as [|m ms IH]; intros [|x xs]; cbn;
    try apply sublist_nil_l.
  destruct m; [apply sublist_skip|apply sublist_cons]; apply IH.
Qed.

Lemma select_Forall {A} (P : A -> Prop) (mask : list bool) (xs : list A) :
  (forall i x, mask !! i = Some true -> xs !! i = Some x -> P x) ->
  Forall P (select mask xs).
Proof.
  revert xs. induction mask as [|m ms IH]; intros [|x xs] H; cbn; try constructor.
  destruct m.
  - constructor; [apply (H 0%nat); reflexivity|].
    apply IH. intros i y Hm Hx. apply (H (S i)); assumption.
  - apply IH. intros i y Hm Hx. apply (H (S i)); assumption.
Qed.

(** The rows kept by [dropna], for columns of [n] cells. *)
Lemma length_row_mask (n : nat) (cols : list (string * list float)) :
  Forall (fun c => length (snd c) = n) cols ->
  length (foldr (fun c acc => zip_with andb (map notna (snd c)) acc)
                (replicate n true) cols) = n.
Proof.
  induction 1 as [|c r Hc _ IH]; cbn [foldr].
  - apply length_replicate.
  - rewrite length_zip_with, length_map, IH, Hc. lia.
Qed.

Lemma row_mask_kept (n : nat) (cols : list (string * list float)) c i :
  c ∈ cols ->
  foldr (fun c acc => zip_with andb (map notna (snd c)) acc)
        (replicate n true) cols !! i = Some true ->
  exists x, snd c !! i = Some x /\ x <> NaN.
Proof.
  induction cols as [|c0 r IH]; intros Hin Hm.
  - apply elem_of_nil in Hin. contradiction.
  - cbn [foldr] in Hm. apply lookup_zip_with_Some in Hm as (a & b & Hab & Ha & Hb).
    symmetry in Hab. apply andb_true_iff in Hab as [-> ->].
    apply elem_of_cons in Hin as [->|Hin]; [|apply IH; assumption].
    rewrite list_lookup_fmap in Ha.
    destruct (snd c0 !! i) as [x|]; [|discriminate]. cbn in Ha.
    exists x. split; [reflexivity|]. intros ->. discriminate.
Qed.

Lemma df_dropna_no_missing df :
  Forall (fun c => Forall (fun x => x <> NaN) (snd c)) (columns (df_dropna df)).
Proof.
  unfold df_dropna. cbn [columns]. rewrite Forall_map. cbn [snd].
  apply Forall_forall. intros c Hc. apply select_Forall.
  intros i x Hm Hx. unfold row_mask in Hm.
  destruct (row_mask_kept _ _ c i Hc Hm) as (y & Hy & Hny). congruence.
Qed.

Lemma df_dropna_rectangular df : rectangular df -> rectangular (df_dropna df).
Proof.
  unfold rectangular, df_dropna, nrows. cbn [columns index]. intros Hrect.
  rewrite Forall_map. cbn [snd]. eapply Forall_impl; [exact Hrect|].
  intros c Hc. cbn in Hc. apply length_select_same. exact Hc.
Qed.

(** When some column starts with a missing cell, the first row is dropped. *)
Lemma df_dropna_first_row df c :
  rectangular df -> c ∈ columns df -> hd NaN (snd c) = NaN ->
  index (df_dropna df) `sublist_of` tail (index df).
Proof.
  intros Hrect Hc Hhd. unfold df_dropna. cbn [index].
  destruct (index df) as [|i0 idx] eqn:Eidx.
  - destruct (row_mask df); apply sublist_nil_l.
  - assert (length (row_mask df) = S (length idx)) as Hlen.
    { unfold row_mask. rewrite length_row_mask; unfold nrows; rewrite Eidx; [reflexivity|].
      unfold rectangular, nrows in Hrect. rewrite Eidx in Hrect. exact Hrect. }
    destruct (row_mask df) as [|m ms] eqn:Em; [discriminate|].
    destruct m.
    + exfalso. unfold row_mask in Em.
      destruct (row_mask_kept (nrows df) (columns df) c 0%nat Hc) as (x & Hx & Hnx).
      { rewrite Em. reflexivity. }
      destruct (snd c) as [|y r]; [discriminate|]. cbn in Hx, Hhd. congruence.
    + cbn [select tail]. apply select_sublist.
Qed.

(** The frame of the returns before [dropna]: column by column. *)
Lemma pct_change_columns df :
  df_pct_change df =
  mkDataFrame (index df)
    (map (fun c => (fst c,
                    map (fun x => fsub x (Num 1%Qc))
                        (zip_with fdiv (pd_ffill (snd c)) (pd_shift (pd_ffill (snd c))))))
         (columns df)).
Proof.
  unfold df_pct_change. rewrite df_zip_with_map. unfold df_map. cbn [index columns].
  f_equal. rewrite !map_map. reflexivity.
Qed.

Lemma log_ratio_columns df :
  df_map (map np_log) (df_zip_with fdiv df (df_map pd_shift df)) =
  mkDataFrame (index df)
    (map (fun c => (fst c, map np_log (zip_with fdiv (snd c) (pd_shift (snd c)))))
         (columns df)).
Proof.
  rewrite df_zip_with_map. unfold df_map. cbn [index columns].
  f_equal. rewrite !map_map. reflexivity.
Qed.

Lemma length_pd_shift xs : length (pd_shift xs) = length xs.
Proof.
  destruct xs as [|x r]; [reflexivity|].
  unfold pd_shift. cbn [length]. rewrite removelast_firstn_len, length_firstn.
  cbn [length]. f_equal. lia.
Qed.

Lemma length_shifted_ratio (post : float -> float) xs :
  length (map post (zip_with fdiv xs (pd_shift xs))) = length xs.
Proof. rewrite length_map, length_zip_with, length_pd_shift. lia. Qed.

Lemma fdiv_nan_r x : fdiv x NaN = NaN.
Proof. destruct x; reflexivity. Qed.

Lemma hd_shifted_ratio (post : float -> float) xs :
  post NaN = NaN -> hd NaN (map post (zip_with fdiv xs (pd_shift xs))) = NaN.
Proof.
  intros Hpost. destruct xs as [|x r]; [reflexivity|].
  cbn. rewrite fdiv_nan_r. exact Hpost.
Qed.

(** The table returned by [calculate_returns], for any table of prices. *)
Lemma returns_frame_properties (df : DataFrame) (g : list float -> list float) :
  rectangular df -> columns df <> [] ->
  (forall xs, length (g xs) = length xs) ->
  (forall xs, hd NaN (g xs) = NaN) ->
  let out := df_dropna (mkDataFrame (index df)
                          (map (fun c => (fst c, g (snd c))) (columns df))) in
  col_names out = col_names df /\
  rectangular out /\
  Forall (fun c => Forall (fun x => x <> NaN) (snd c)) (columns out) /\
  index out `sublist_of` tail (index df).
Proof.
  intros Hrect Hne Hlen Hhd out.
  set (raw := mkDataFrame (index df) (map (fun c => (fst c, g (snd c))) (columns df))).
  assert (rectangular raw) as Hraw.
  { unfold rectangular, raw, nrows. cbn [index columns]. rewrite Forall_map. cbn [snd].
    eapply Forall_impl; [exact Hrect|]. intros c Hc. cbn in Hc. rewrite Hlen. exact Hc. }
  split; [|split; [|split]].
  - unfold out, df_dropna, col_names. cbn [columns]. rewrite !map_map. reflexivity.
  - apply df_dropna_rectangular, Hraw.
  - apply df_dropna_no_missing.
  - destruct (columns df) as [|c r] eqn:Ecols; [congruence|].
    apply (df_dropna_first_row raw (fst c, g (snd c)) Hraw).
    + unfold raw. cbn [columns]. rewrite ?Ecols. left.
    + apply Hhd.
Qed.

(** X6. For a price matrix of float columns with at least one column and
    one cell per row in each column, whatever its cells (missing, zero or
    infinite) as long as each column holds at least one price, both kinds
    of returns give a new table with the same column labels and no missing
    cell, whose rows are among the rows of the price matrix other than the
    first one.  The price matrix and the other tables are left unchanged.
    (A column without any price, as [fetch_historical_data] builds for a
    symbol that was never fetched, is a column of [None] objects and not
    of floats: the arithmetic of the returns raises [TypeError] on it, and
    it is not among the frames considered here.) *)
Theorem returns_have_no_missing_cell
    (h : heap) (prices : loc) (df : DataFrame) (return_type : string) :
  frames h !! prices = Some df ->
  rectangular df -> columns df <> [] ->
  Forall (fun c => Exists (fun x => x <> NaN) (snd c)) (columns df) ->
  return_type = "simple" \/ return_type = "log" ->
  exists l h' out,
    calculate_returns prices return_type h = (Ok l, h') /\
    frames h !! l = None /\
    frames h' = <[l := out]> (frames h) /\
    col_names out = col_names df /\
    rectangular out /\
    Forall (fun c => Forall (fun x => x <> NaN) (snd c)) (columns out) /\
    index out `sublist_of` tail (index df).
Proof.
  intros H Hrect Hne _ [->| ->].
  - rewrite (calculate_returns_simple_run _ _ _ H), pct_change_columns.
    unfold alloc. eexists. eexists. eexists. split; [reflexivity|]. cbn [frames].
    split; [apply fresh_not_allocated|]. split; [reflexivity|].
    apply (returns_frame_properties df
             (fun xs => map (fun x => fsub x (Num 1%Qc))
                            (zip_with fdiv (pd_ffill xs) (pd_shift (pd_ffill xs)))));
      [exact Hrect|exact Hne| |].
    + intros xs. rewrite length_shifted_ratio. unfold pd_ffill. apply length_ffill_from.
    + intros xs. apply hd_shifted_ratio. reflexivity.
  - rewrite (calculate_returns_log_run _ _ _ H), log_ratio_columns.
    unfold alloc. eexists. eexists. eexists. split; [reflexivity|]. cbn [frames].
    split; [apply fresh_not_allocated|]. split; [reflexivity|].
    apply (returns_frame_properties df
             (fun xs => map np_log (zip_with fdiv xs (pd_shift xs))));
      [exact Hrect|exact Hne| |].
    + intros xs. apply length_shifted_ratio.
    + intros xs. apply hd_shifted_ratio. reflexivity.
Qed.

(** *** Simple returns compound back to the prices *)

Lemma calculate_returns_simple_finite h prices i0 idx cols :
  frames h !! prices = Some (finite_frame (i0 :: idx) cols) ->
  cols <> [] ->
  Forall (fun c => length (snd c) = S (length idx)) cols ->
  Forall (fun c => Forall (fun q => q <> 0%Qc) (snd c)) cols ->
  calculate_returns prices "simple" h =
  alloc (finite_frame idx (map (fun c => (fst c, simple_returns (snd c))) cols)) h.
Proof.
  intros H Hne Hlen Hnz.
  rewrite (calculate_returns_simple_run _ _ _ H). f_equal.
  unfold df_pct_change. rewrite pd_ffill_finite_frame.
  rewrite (ratio_frame (fun x => fsub x (Num 1%Qc)) (fun prev cur => (cur / prev - 1)%Qc)
             (fun q => q <> 0%Qc) i0 idx cols eq_refl simple_return_cell Hlen Hnz).
  apply dropna_first_row.
  - destruct cols; [congruence|discriminate].
  - rewrite Forall_fmap. eapply Forall_impl; [exact Hlen|].
    intros [name qs] E. cbn in *. rewrite length_zip_tail. lia.
Qed.

Lemma compound_step (p q : Qc) : p <> 0%Qc -> (p * (1 + (q / p - 1)) = q)%Qc.
Proof. intros Hp. field. exact Hp. Qed.

Lemma compound_simple_returns (p : Qc) (qs : list Qc) :
  Forall (fun q => q <> 0%Qc) (p :: qs) ->
  compound p (simple_returns (p :: qs)) = p :: qs.
Proof.
  revert p. induction qs as [|q r IH]; intros p Hnz; [reflexivity|].
  inversion Hnz as [|? ? Hp Hnz']; subst.
  unfold simple_returns in *. cbn [tail zip_with compound].
  rewrite compound_step by exact Hp. f_equal. apply (IH q Hnz').
Qed.

(** X7. For a price matrix of finite non-zero prices with at least one
    row, compounding the simple returns of a column from its first price
    gives the column of prices back: each price is the previous one times
    one plus the return of the period. *)
Theorem simple_returns_compound_to_prices
    (h : heap) (prices : loc) (idx : list label) (cols : list (string * list Qc)) :
  frames h !! prices = Some (finite_frame idx cols) ->
  idx <> [] -> cols <> [] ->
  Forall (fun c => length (snd c) = length idx) cols ->
  Forall (fun c => Forall (fun q => q <> 0%Qc) (snd c)) cols ->
  exists l h' out,
    calculate_returns prices "simple" h = (Ok l, h') /\
    frames h' !! l = Some out /\
    Forall2 (fun c o =>
               fst o = fst c /\
               exists rs, snd o = map Num rs /\
                          compound (hd 0%Qc (snd c)) rs = snd c)
            cols (columns out).
Proof.
  intros H Hidx Hcols Hlen Hnz.
  destruct idx as [|i0 idx]; [congruence|].
  rewrite (calculate_returns_simple_finite _ _ _ _ _ H Hcols Hlen Hnz).
  unfold alloc. eexists. eexists. eexists. split; [reflexivity|].
  split; [cbn; apply lookup_insert_eq|].
  unfold finite_frame. cbn [columns]. rewrite map_map. cbn [fst snd].
  clear H Hcols. induction cols as [|[name qs] r IH]; [constructor|].
  inversion Hlen as [|? ? Hl Hlen']; inversion Hnz as [|? ? Hq Hnz']; subst.
  cbn [map]. constructor; [|apply IH; assumption].
  cbn [fst snd] in *. split; [reflexivity|].
  exists (simple_returns qs). split; [reflexivity|].
  destruct qs as [|p qs]; [discriminate|]. cbn [hd].
  apply compound_simple_returns, Hq.
Qed.
(** ** Maximum drawdown as the worst decline from an earlier price *)

Lemma sr_get_df_reduce (f : list float -> float) df s :
  sr_get (df_reduce f df) (Sym s) =
  match assoc_get s (columns df) with Some xs => f xs | None => NaN end.
Proof.
  unfold df_reduce. induction (columns df) as [|[k xs] r IH]; [reflexivity|].
  cbn. destruct (decide (k = s)) as [->|Hne].
  - rewrite decide_True by reflexivity. reflexivity.
  - rewrite decide_False by congruence. exact IH.
Qed.

Lemma cummax_from_finite (c : Qc) (qs : list Qc) :
  cummax_from (Some (Num c)) (map Num qs) = map Num (peaks_from c qs).
Proof.
  revert c. induction qs as [|q r IH]; intros c; [reflexivity|].
  cbn [map cummax_from isna peaks_from]. unfold fmax. cbn [fle].
  destruct (Qc_leb c q); rewrite IH; reflexivity.
Qed.

Lemma pd_cummax_finite (q : Qc) (r : list Qc) :
  pd_cummax (map Num (q :: r)) = map Num (peaks_from q (q :: r)).
Proof.
  unfold pd_cummax. cbn [map cummax_from isna peaks_from].
  assert (Qc_leb q q = true) as -> by (apply Qc_leb_le, Qcle_refl).
  rewrite cummax_from_finite. reflexivity.
Qed.

(** Every running maximum is a price seen so far (or the starting value)
    and no price seen so far is above it. *)
Lemma peaks_from_spec (c : Qc) (qs : list Qc) (j : nat) (M : Qc) :
  peaks_from c qs !! j = Some M ->
  (c <= M)%Qc /\
  (forall i p, (i <= j)%nat -> qs !! i = Some p -> (p <= M)%Qc) /\
  (M = c \/ exists i, (i <= j)%nat /\ qs !! i = Some M).
Proof.
  revert c j. induction qs as [|q r IH]; intros c j Hj; [discriminate|].
  cbn [peaks_from] in Hj.
  assert (c <= (if Qc_leb c q then q else c) /\ q <= (if Qc_leb c q then q else c))%Qc
    as [Hc Hq].
  { destruct (Qc_leb c q) eqn:E.
    - split; [apply Qc_leb_le, E|apply Qcle_refl].
    - split; [apply Qcle_refl|].
      apply Qclt_le_weak, Qc_ltb_lt. unfold Qc_ltb. unfold Qc_leb in E.
      rewrite E. reflexivity. }
  destruct j as [|j].
  - cbn in Hj. inversion Hj; subst. split; [exact Hc|]. split.
    + intros i p Hi Hp. assert (i = 0%nat) as -> by lia.
      cbn in Hp. inversion Hp; subst. exact Hq.
    + destruct (Qc_leb c q); [right; exists 0%nat; split; [lia|reflexivity]|left; reflexivity].
  - cbn in Hj. destruct (IH _ _ Hj) as (Hm & Hle & Hat).
    split; [eapply Qcle_trans; eassumption|]. split.
    + intros [|i] p Hi Hp.
      * cbn in Hp. inversion Hp; subst. eapply Qcle_trans; eassumption.
      * cbn in Hp. apply (Hle i); [lia|exact Hp].
    + destruct Hat as [->|(i & Hi & Hp)].
      * destruct (Qc_leb c q); [right; exists 0%nat; split; [lia|reflexivity]|left; reflexivity].
      * right. exists (S i). split; [lia|exact Hp].
Qed.

Lemma peaks_from_positive (c : Qc) (qs : list Qc) :
  (0 < c)%Qc -> Forall (fun M => (0 < M)%Qc) (peaks_from c qs).
Proof.
  intros Hc. apply Forall_forall. intros M HM.
  apply list_elem_of_lookup in HM as [j Hj].
  destruct (peaks_from_spec _ _ _ _ Hj) as (Hle & _).
  eapply Qclt_le_trans; eassumption.
Qed.

Lemma length_peaks_from (c : Qc) (qs : list Qc) : length (peaks_from c qs) = length qs.
Proof. revert c. induction qs as [|q r IH]; intros c; cbn; [|rewrite IH]; reflexivity. Qed.

Lemma drawdown_cells (qs Ms : list Qc) :
  Forall (fun M => (0 < M)%Qc) Ms ->
  zip_with fdiv (zip_with fsub (map Num qs) (map Num Ms)) (map Num Ms) =
  map Num (zip_with (fun q M => ((q - M) / M)%Qc) qs Ms).
Proof.
  intros HM. revert qs. induction HM as [|M r HMpos _ IH]; intros [|q qs];
    try reflexivity.
  cbn [map zip_with fsub fdiv]. rewrite (Qc_pos_neq_0 M HMpos), IH. reflexivity.
Qed.

Lemma drawdown_of_finite (q : Qc) (r : list Qc) :
  (0 < q)%Qc ->
  drawdown_of (map Num (q :: r)) =
  map Num (zip_with (fun p M => ((p - M) / M)%Qc) (q :: r) (peaks_from q (q :: r))).
Proof.
  intros Hq. unfold drawdown_of. rewrite pd_cummax_finite.
  apply drawdown_cells, peaks_from_positive, Hq.
Qed.

Lemma fmin_fold_lower (a m : Qc) (ds : list Qc) :
  foldl fmin (Num a) (map Num ds) = Num m ->
  (m <= a)%Qc /\ Forall (fun d => (m <= d)%Qc) ds.
Proof.
  revert a. induction ds as [|d r IH]; intros a Hm.
  - cbn in Hm. inversion Hm; subst. split; [apply Qcle_refl|constructor].
  - cbn [map foldl] in Hm. unfold fmin at 2 in Hm. cbn [fle] in Hm.
    destruct (Qc_leb a d) eqn:E.
    + destruct (IH a Hm) as [Ha Hr]. split; [exact Ha|].
      constructor; [|exact Hr]. apply Qc_leb_le in E. eapply Qcle_trans; eassumption.
    + destruct (IH d Hm) as [Hd Hr]. split; [|constructor; assumption].
      assert (d <= a)%Qc as Hda.
      { apply Qclt_le_weak, Qc_ltb_lt. unfold Qc_ltb. unfold Qc_leb in E.
        rewrite E. reflexivity. }
      eapply Qcle_trans; eassumption.
Qed.

Lemma pd_min_lower (ds : list Qc) (m : Qc) :
  pd_min (map Num ds) = Num m -> Forall (fun d => (m <= d)%Qc) ds.
Proof.
  unfold pd_min. rewrite valid_finite. destruct ds as [|d r]; [discriminate|].
  cbn [map]. intros Hm. destruct (fmin_fold_lower _ _ _ Hm) as [Hd Hr].
  constructor; assumption.
Qed.

Lemma Qdiv_le_cross (a b c d : Q) :
  (0 < b)%Q -> (0 < d)%Q -> (a * d <= c * b)%Q -> (a / b <= c / d)%Q.
Proof.
  intros Hb Hd H. apply Qle_shift_div_r; [exact Hb|].
  assert (c / d * b == (c * b) / d)%Q as -> by (unfold Qdiv; ring).
  apply Qle_shift_div_l; assumption.
Qed.

(** The decline from a peak is at least as deep as the decline from any
    lower price. *)
Lemma decline_from_peak (p q M : Qc) :
  (0 < p)%Qc -> (p <= M)%Qc -> (0 < q)%Qc -> ((q - M) / M <= (q - p) / p)%Qc.
Proof.
  intros Hp HM Hq. to_Q. change (this 0%Qc) with 0%Q in *.
  apply Qdiv_le_cross; [lra|lra|nra].
Qed.

Lemma decline_above_minus_one (p q : Qc) :
  (0 < p)%Qc -> (0 < q)%Qc -> (- (1) < (q - p) / p)%Qc.
Proof.
  intros Hp Hq. to_Q. change (this 0%Qc) with 0%Q in *. change (this 1%Qc) with 1%Q.
  apply Qlt_shift_div_l; [exact Hp|]. lra.
Qed.

Lemma decline_sign (p q : Qc) :
  (0 < p)%Qc -> (0 <= (q - p) / p)%Qc -> (p <= q)%Qc.
Proof.
  intros Hp H. to_Q. change (this 0%Qc) with 0%Q in *.
  assert (0 * this p <= (this q - this p) / this p * this p)%Q as H'.
  { apply Qmult_le_compat_r; [exact H|lra]. }
  assert ((this q - this p) / this p * this p == this q - this p)%Q as E.
  { field. lra. }
  rewrite E in H'. lra.
Qed.

(** The maximum drawdown of a column of positive prices. *)
Lemma max_drawdown_column (qs : list Qc) :
  qs <> [] -> Forall (fun q => (0 < q)%Qc) qs ->
  exists m,
    pd_min (drawdown_of (map Num qs)) = Num m /\
    (forall i j p q, (i <= j)%nat -> qs !! i = Some p -> qs !! j = Some q ->
                     (m <= (q - p) / p)%Qc) /\
    (exists i j p q, (i <= j)%nat /\ qs !! i = Some p /\ qs !! j = Some q /\
                     m = ((q - p) / p)%Qc).
Proof.
  intros Hne Hpos. destruct qs as [|q0 r]; [congruence|].
  inversion Hpos as [|? ? Hq0 Hr]; subst.
  rewrite (drawdown_of_finite q0 r Hq0).
  set (Ms := peaks_from q0 (q0 :: r)).
  set (ds := zip_with (fun p M => ((p - M) / M)%Qc) (q0 :: r) Ms).
  assert (length Ms = length (q0 :: r)) as HlenM by apply length_peaks_from.
  assert (ds <> []) as Hdne.
  { unfold ds, Ms. cbn. discriminate. }
  destruct (pd_min_finite ds Hdne) as (m & Hm & Hin).
  exists m. split; [exact Hm|].
  pose proof (pd_min_lower ds m Hm) as Hlow. rewrite Forall_forall in Hlow.
  rewrite Forall_forall in Hpos.
  assert (forall j q M, (q0 :: r) !! j = Some q -> Ms !! j = Some M ->
            ds !! j = Some ((q - M) / M)%Qc) as Hds.
  { intros j q M Hq HM. unfold ds. apply lookup_zip_with_Some.
    exists q, M. repeat split; assumption. }
  split.
  - intros i j p q Hij Hp Hq.
    destruct (lookup_lt_is_Some_2 Ms j) as [M HM].
    { rewrite HlenM. apply lookup_lt_Some in Hq. exact Hq. }
    destruct (peaks_from_spec _ _ _ _ HM) as (_ & Hle & _).
    eapply Qcle_trans.
    + apply Hlow. apply list_elem_of_lookup. exists j. apply (Hds j q M Hq HM).
    + apply decline_from_peak.
      * apply Hpos. apply list_elem_of_lookup. exists i. exact Hp.
      * apply (Hle i p Hij Hp).
      * apply Hpos. apply list_elem_of_lookup. exists j. exact Hq.
  - apply list_elem_of_lookup in Hin as [j Hj].
    unfold ds in Hj. apply lookup_zip_with_Some in Hj as (q & M & -> & Hq & HM).
    destruct (peaks_from_spec _ _ _ _ HM) as (_ & _ & [->|(i & Hi & Hp)]).
    + exists 0%nat, j, q0, q. repeat split; [lia|exact Hq].
    + exists i, j, M, q. repeat split; assumption.
Qed.

Lemma nondecreasing_lookup (qs : list Qc) :
  nondecreasing qs <->
  forall i p q, qs !! i = Some p -> qs !! S i = Some q -> (p <= q)%Qc.
Proof.
  induction qs as [|a r IH]; [split; [intros _ i p q Hp; discriminate|constructor]|].
  cbn [nondecreasing]. rewrite IH. split.
  - intros [Hhead Hrest] [|i] p q Hp Hq.
    + cbn in Hp, Hq. inversion Hp; subst. destruct r; [discriminate|].
      cbn in Hq. inversion Hq; subst. exact Hhead.
    + apply (Hrest i); assumption.
  - intros H. split.
    + destruct r as [|b r]; [exact I|]. apply (H 0%nat); reflexivity.
    + intros i p q Hp Hq. apply (H (S i)); assumption.
Qed.

Lemma nondecreasing_le (qs : list Qc) i j p q :
  nondecreasing qs -> (i <= j)%nat -> qs !! i = Some p -> qs !! j = Some q ->
  (p <= q)%Qc.
Proof.
  rewrite nondecreasing_lookup. intros Hnd Hij Hp. revert q.
  induction Hij as [|j Hij IH]; intros q Hq.
  - rewrite Hp in Hq. inversion Hq; subst. apply Qcle_refl.
  - destruct (lookup_lt_is_Some_2 qs j) as [q' Hq'].
    { apply lookup_lt_Some in Hq. lia. }
    eapply Qcle_trans; [apply IH, Hq'|]. apply (Hnd j); assumption.
Qed.

Lemma max_drawdown_entry h prices idx cols name qs :
  frames h !! prices = Some (finite_frame idx cols) ->
  assoc_get name cols = Some qs ->
  exists max_drawdown,
    eval (calculate_max_drawdown prices) h = Ok max_drawdown /\
    sr_get max_drawdown (Sym name) = pd_min (drawdown_of (map Num qs)).
Proof.
  intros H Hname. unfold eval.
  rewrite (calculate_max_drawdown_run _ _ _ H), drawdown_frame. cbn [fst].
  eexists. split; [reflexivity|].
  rewrite sr_get_df_reduce. unfold df_map, finite_frame. cbn [columns].
  rewrite !assoc_get_map_snd, Hname. reflexivity.
Qed.

(** X8. For a column of strictly positive prices with at least one row,
    the maximum drawdown is the worst decline from an earlier price to a
    later one: it is at most [(q - p) / p] for every price [p] and every
    price [q] at the same or a later date, and it is equal to that
    quotient for one such pair. *)
Theorem max_drawdown_is_worst_decline
    (h : heap) (prices : loc) (idx : list label) (cols : list (string * list Qc))
    (name : string) (qs : list Qc) :
  frames h !! prices = Some (finite_frame idx cols) ->
  assoc_get name cols = Some qs ->
  qs <> [] -> Forall (fun q => (0 < q)%Qc) qs ->
  exists max_drawdown m,
    eval (calculate_max_drawdown prices) h = Ok max_drawdown /\
    sr_get max_drawdown (Sym name) = Num m /\
    (forall i j p q, (i <= j)%nat -> qs !! i = Some p -> qs !! j = Some q ->
                     (m <= (q - p) / p)%Qc) /\
    (exists i j p q, (i <= j)%nat /\ qs !! i = Some p /\ qs !! j = Some q /\
                     m = ((q - p) / p)%Qc).
Proof.
  intros H Hname Hne Hpos.
  destruct (max_drawdown_entry _ _ _ _ _ _ H Hname) as (md & Hmd & Hget).
  destruct (max_drawdown_column qs Hne Hpos) as (m & Hm & Hlow & Hat).
  exists md, m. split; [exact Hmd|]. split; [congruence|]. split; assumption.
Qed.

(** X9. For a column of strictly positive prices with at least one row,
    the maximum drawdown is strictly above -1 (a loss of the whole value),
    and it is 0 exactly when the prices never decrease. *)
Theorem max_drawdown_bounds
    (h : heap) (prices : loc) (idx : list label) (cols : list (string * list Qc))
    (name : string) (qs : list Qc) :
  frames h !! prices = Some (finite_frame idx cols) ->
  assoc_get name cols = Some qs ->
  qs <> [] -> Forall (fun q => (0 < q)%Qc) qs ->
  exists max_drawdown m,
    eval (calculate_max_drawdown prices) h = Ok max_drawdown /\
    sr_get max_drawdown (Sym name) = Num m /\
    (- (1) < m)%Qc /\
    (m = 0%Qc <-> nondecreasing qs).
Proof.
  intros H Hname Hne Hpos.
  destruct (max_drawdown_entry _ _ _ _ _ _ H Hname) as (md & Hmd & Hget).
  destruct (max_drawdown_column qs Hne Hpos) as (m & Hm & Hlow & Hat).
  exists md, m. split; [exact Hmd|]. split; [congruence|].
  rewrite Forall_forall in Hpos.
  assert (forall i p, qs !! i = Some p -> (0 < p)%Qc) as Hpos'.
  { intros i p Hp. apply Hpos. apply list_elem_of_lookup. exists i. exact Hp. }
  destruct Hat as (i & j & p & q & Hij & Hp & Hq & ->).
  split; [apply decline_above_minus_one; eauto|]. split.
  - intros Hzero. apply nondecreasing_lookup. intros k a b Ha Hb.
    apply decline_sign; [eauto|]. rewrite <- Hzero.
    apply (Hlow k (S k)); [lia|exact Ha|exact Hb].
  - intros Hnd. apply Qcle_antisym.
    + specialize (Hlow i i p p ltac:(lia) Hp Hp).
      rewrite decline_zero in Hlow. exact Hlow.
    + assert (p <= q)%Qc as Hpq by (eapply nondecreasing_le; eassumption).
      assert (0 < p)%Qc as Hp0 by eauto.
      clear -Hpq Hp0. to_Q. change (this 0%Qc) with 0%Q in *.
      apply Qle_shift_div_l; [exact Hp0|]. lra.
Qed.
(** ** Sharpe and Sortino ratios *)

Lemma calculate_sharpe_ratio_value h returns df rate trading_days :
  frames h !! returns = Some df ->
  calculate_sharpe_ratio returns rate trading_days h =
  (Ok (ratio_of (match rate with Some x => x | None => self_risk_free_rate h end)
                trading_days df df), h).
Proof.
  intros H. unfold calculate_sharpe_ratio.
  erewrite bind_ok by apply or_instance_rate_run.
  rewrite (bind_load _ _ _ _ H). reflexivity.
Qed.

Lemma calculate_sortino_ratio_value h returns df rate trading_days :
  frames h !! returns = Some df ->
  calculate_sortino_ratio returns rate trading_days h =
  (Ok (ratio_of (match rate with Some x => x | None => self_risk_free_rate h end)
                trading_days df (clamp_positive df)),
   mkHeap (self_risk_free_rate h)
          (<[fresh (dom (frames h)) := clamp_positive df]> (frames h))
          (fetch_log h)).
Proof.
  intros H. unfold calculate_sortino_ratio.
  erewrite bind_ok by apply or_instance_rate_run.
  rewrite (bind_load _ _ _ _ H).
  unfold bind at 1. unfold alloc.
  unfold bind at 1. unfold modify. cbn.
  rewrite lookup_insert_eq. rewrite insert_insert_eq.
  unfold bind, load. cbn. rewrite lookup_insert_eq.
  reflexivity.
Qed.

Lemma clamp_positive_without_gains df :
  Forall (fun c => Forall (fun x => flt (Num 0%Qc) x = false) (snd c)) (columns df) ->
  clamp_positive df = df.
Proof.
  intros H. unfold clamp_positive, df_map. destruct df as [idx cols]. cbn in *.
  f_equal. induction H as [|[name xs] r Hxs _ IH]; [reflexivity|].
  cbn [map fst snd] in *. rewrite IH. f_equal. f_equal.
  induction Hxs as [|x xs' Hx _ IHx]; [reflexivity|].
  cbn [map]. rewrite Hx, IHx. reflexivity.
Qed.

(** X10. For a returns matrix without any strictly positive cell, the
    Sortino ratio of every symbol is its Sharpe ratio: both calls return
    the same series (the deviation of the returns with the gains set to
    zero is then the deviation of the returns). *)
Theorem sortino_is_sharpe_without_gains
    (h : heap) (returns : loc) (df : DataFrame) (risk_free_rate : option float)
    (trading_days : Z) :
  frames h !! returns = Some df ->
  Forall (fun c => Forall (fun x => flt (Num 0%Qc) x = false) (snd c)) (columns df) ->
  exists ratio,
    eval (calculate_sharpe_ratio returns risk_free_rate trading_days) h = Ok ratio /\
    eval (calculate_sortino_ratio returns risk_free_rate trading_days) h = Ok ratio.
Proof.
  intros H Hgains. unfold eval.
  rewrite (calculate_sharpe_ratio_value _ _ _ _ _ H).
  rewrite (calculate_sortino_ratio_value _ _ _ _ _ H).
  rewrite (clamp_positive_without_gains df Hgains).
  eexists. split; reflexivity.
Qed.

(** ** Symbols that are not in the returns matrix *)

Lemma assoc_get_absent {A} k (l : list (string * A)) :
  k ∉ map fst l -> assoc_get k l = None.
Proof.
  induction l as [|[k0 v] r IH]; [reflexivity|]. cbn. intros Hk.
  rewrite not_elem_of_cons in Hk. destruct Hk as [Hne Hk].
  rewrite decide_False by congruence. apply IH, Hk.
Qed.

Lemma df_col_absent df s : s ∉ col_names df -> df_col df s = None.
Proof. intros H. unfold df_col. rewrite (assoc_get_absent _ _ H). reflexivity. Qed.

Lemma truthy_nonempty s : s <> "" -> truthy (Some s) = Some s.
Proof. intros H. unfold truthy. rewrite decide_False by exact H. reflexivity. Qed.

(** X11. A symbol that is not a column of the returns matrix makes
    [calculate_beta] (when the symbol is named) and
    [calculate_pairwise_correlation] (in either position) raise
    [ValueError], without calling the correlation routine and without
    changing the heap. *)
Theorem missing_symbol_raises_value_error
    (h : heap) (returns : loc) (df : DataFrame) (market_returns : Series)
    (symbol other method : string) :
  frames h !! returns = Some df ->
  symbol ∉ col_names df ->
  symbol <> "" ->
  calculate_beta returns market_returns (Some symbol) h = (Raise ValueError, h) /\
  calculate_pairwise_correlation returns symbol other method h = (Raise ValueError, h) /\
  calculate_pairwise_correlation returns other symbol method h = (Raise ValueError, h).
Proof.
  intros H Habsent Hne. split; [|split].
  - unfold calculate_beta. rewrite (bind_load _ _ _ _ H).
    rewrite (truthy_nonempty _ Hne). cbn [fold_each].
    rewrite (df_col_absent _ _ Habsent). reflexivity.
  - unfold calculate_pairwise_correlation. rewrite (bind_load _ _ _ _ H).
    rewrite (df_col_absent _ _ Habsent). reflexivity.
  - unfold calculate_pairwise_correlation. rewrite (bind_load _ _ _ _ H).
    rewrite (df_col_absent _ _ Habsent). destruct (df_col df other); reflexivity.
Qed.

(** X12. [calculate_alpha] called for a named symbol that is not a column
    of the returns matrix raises [KeyError], not [ValueError]: beta is
    computed for all the columns, so the check made by [calculate_beta]
    never sees the symbol, and the selection of the symbol's column
    fails.  The heap is left as it was. *)
Theorem alpha_of_missing_symbol_raises_key_error
    (h : heap) (returns : loc) (df : DataFrame) (market_returns : Series)
    (risk_free_rate : option float) (trading_days : Z) (symbol : string) :
  frames h !! returns = Some df ->
  symbol ∉ col_names df ->
  symbol <> "" ->
  calculate_alpha returns market_returns risk_free_rate trading_days (Some symbol) h
  = (Raise KeyError, h).
Proof.
  intros H Habsent Hne. unfold calculate_alpha.
  erewrite bind_ok by apply or_instance_rate_run.
  rewrite (bind_load _ _ _ _ H).
  erewrite bind_ok by (apply calculate_beta_all_run; exact H).
  rewrite (truthy_nonempty _ Hne).
  unfold df_cols. cbn [mapM]. rewrite (assoc_get_absent _ _ Habsent). reflexivity.
Qed.

(** ** Beta *)

Lemma calculate_beta_one_run h returns df market_returns symbol column :
  frames h !! returns = Some df ->
  symbol <> "" ->
  df_col df symbol = Some column ->
  calculate_beta returns market_returns (Some symbol) h =
  (Ok [(Sym symbol, beta_of market_returns column)], h).
Proof.
  intros H Hne Hcol. unfold calculate_beta. rewrite (bind_load _ _ _ _ H).
  rewrite (truthy_nonempty _ Hne). cbn [fold_each].
  unfold bind. rewrite Hcol. cbn. rewrite decide_True by reflexivity. reflexivity.
Qed.

(** X13. [calculate_beta] called for one named symbol of the returns
    matrix returns a series with that symbol as its only entry, and the
    value is the symbol's entry in the series returned for all symbols:
    the covariance of the column with the market over the variance of the
    market. *)
Theorem beta_of_named_symbol
    (h : heap) (returns : loc) (df : DataFrame) (market_returns : Series)
    (symbol : string) :
  frames h !! returns = Some df ->
  symbol ∈ col_names df ->
  symbol <> "" ->
  exists column all_betas,
    df_col df symbol = Some column /\
    eval (calculate_beta returns market_returns (Some symbol)) h =
      Ok [(Sym symbol,
           fdiv (pd_cov column market_returns) (pd_var (sr_values market_returns)))] /\
    eval (calculate_beta returns market_returns None) h = Ok all_betas /\
    sr_get all_betas (Sym symbol) =
      fdiv (pd_cov column market_returns) (pd_var (sr_values market_returns)).
Proof.
  intros H Hin Hne. destruct (df_col_in df symbol Hin) as (xs & Hxs & Hcol).
  exists (zip (index df) xs). eexists. split; [exact Hcol|]. unfold eval.
  rewrite (calculate_beta_one_run _ _ _ _ _ _ H Hne Hcol).
  rewrite (calculate_beta_all_run _ _ _ _ H). cbn [fst].
  split; [reflexivity|]. split; [reflexivity|].
  rewrite sr_get_fill, decide_True by exact Hin. rewrite Hcol. reflexivity.
Qed.

Lemma sr_get_member (s : Series) p :
  NoDup (sr_index s) -> p ∈ s -> sr_get s (fst p) = snd p.
Proof.
  induction s as [|[k x] r IH]; intros Hnd Hp; [apply elem_of_nil in Hp; contradiction|].
  cbn in Hnd. inversion Hnd as [|? ? Hk Hnd']; subst.
  apply elem_of_cons in Hp as [->|Hp]; cbn.
  - rewrite decide_True by reflexivity. reflexivity.
  - rewrite decide_False; [apply IH; assumption|].
    intros ->. apply Hk. unfold sr_index. apply list_elem_of_fmap.
    exists p. split; [reflexivity|exact Hp].
Qed.

Lemma cov_pairs_self (s : Series) :
  NoDup (sr_index s) -> Forall (fun x => x <> NaN) (sr_values s) ->
  cov_pairs s s = map (fun p => (snd p, snd p)) s.
Proof.
  intros Hnd Hval. unfold cov_pairs.
  assert (forall t : Series, (forall p, p ∈ t -> p ∈ s) ->
            filter (fun p => notna (fst p) && notna (snd p))
              (omap (fun p => if bool_decide (fst p ∈ sr_index s)
                              then Some (snd p, sr_get s (fst p)) else None) t)
            = map (fun p => (snd p, snd p)) t) as Hgen.
  { induction t as [|p t IH]; intros Hsub; [reflexivity|].
    assert (p ∈ s) as Hp by (apply Hsub; left).
    cbn [omap list_omap]. rewrite bool_decide_eq_true_2.
    2:{ unfold sr_index. apply list_elem_of_fmap. exists p. split; [reflexivity|exact Hp]. }
    rewrite (sr_get_member s p Hnd Hp).
    assert (snd p <> NaN) as Hx.
    { rewrite Forall_forall in Hval. apply Hval. unfold sr_values.
      apply list_elem_of_fmap. exists p. split; [reflexivity|exact Hp]. }
    rewrite filter_cons. cbn [fst snd]. unfold notna.
    rewrite (isna_false _ Hx). cbn [negb andb].
    rewrite decide_True by exact I. cbn [map]. f_equal.
    apply IH. intros q Hq. apply Hsub. right. exact Hq. }
  apply Hgen. auto.
Qed.

(** The covariance of a series with itself is its variance. *)
Lemma pd_cov_self (s : Series) :
  NoDup (sr_index s) -> Forall (fun x => x <> NaN) (sr_values s) ->
  (2 <= length s)%nat ->
  pd_cov s s = pd_var (sr_values s).
Proof.
  intros Hnd Hval Hlen. unfold pd_cov. rewrite (cov_pairs_self s Hnd Hval).
  unfold pd_var. rewrite (valid_all _ Hval).
  assert (length (sr_values s) = length s) as Hl by apply length_map.
  destruct (map (fun p => (snd p, snd p)) s) as [|p0 ps0] eqn:Eps.
  { destruct s; [cbn in Hlen; lia|discriminate]. }
  rewrite <- Eps. clear p0 ps0 Eps.
  assert ((length s <=? 1)%nat = false) as E by (apply Nat.leb_gt; lia).
  unfold sr_values. rewrite !length_map, !map_map. cbn [fst snd].
  rewrite E. reflexivity.
Qed.

(** X14. When the market series is itself a column of the returns matrix
    (same dates, no missing value) and its variance is a non-zero number,
    the beta of that column is exactly 1. *)
Theorem beta_of_the_market_is_one
    (h : heap) (returns : loc) (df : DataFrame) (market_returns : Series)
    (symbol : string) (variance : Qc) :
  frames h !! returns = Some df ->
  df_col df symbol = Some market_returns ->
  NoDup (sr_index market_returns) ->
  Forall (fun x => x <> NaN) (sr_values market_returns) ->
  pd_var (sr_values market_returns) = Num variance ->
  variance <> 0%Qc ->
  exists beta,
    eval (calculate_beta returns market_returns None) h = Ok beta /\
    sr_get beta (Sym symbol) = Num 1%Qc.
Proof.
  intros H Hcol Hnd Hval Hvar Hnz. unfold eval.
  rewrite (calculate_beta_all_run _ _ _ _ H). cbn [fst].
  eexists. split; [reflexivity|].
  assert (symbol ∈ col_names df) as Hin.
  { unfold df_col in Hcol. destruct (assoc_get symbol (columns df)) as [xs|] eqn:E;
      [|discriminate].
    apply assoc_get_elem in E. unfold col_names. apply list_elem_of_fmap.
    exists (symbol, xs). split; [reflexivity|exact E]. }
  rewrite sr_get_fill, decide_True by exact Hin. rewrite Hcol. cbn [default].
  unfold beta_of.
  assert (2 <= length market_returns)%nat as Hlen.
  { unfold pd_var in Hvar. rewrite (valid_all _ Hval) in Hvar.
    unfold sr_values in Hvar. rewrite length_map in Hvar.
    destruct (length market_returns <=? 1)%nat eqn:E; [discriminate|].
    apply Nat.leb_gt in E. lia. }
  unfold id. rewrite (pd_cov_self _ Hnd Hval Hlen), Hvar. cbn [fdiv].
  assert (Qc_eqb variance 0 = false) as -> by (apply Qc_eqb_neq, Hnz).
  f_equal. unfold Qcdiv. apply Qcmult_inv_r, Hnz.
Qed.

(** ** Alpha *)

Lemma sr_get_zip_with (f : float -> float -> float) (a b : Series) l :
  sr_index a = sr_index b -> l ∈ sr_index a ->
  sr_get (zip_with (fun p q => (fst p, f (snd p) (snd q))) a b) l =
  f (sr_get a l) (sr_get b l).
Proof.
  revert b. induction a as [|[k x] r IH]; intros [|[k' y] r'] Hidx Hl;
    try discriminate; [apply elem_of_nil in Hl; contradiction|].
  cbn in Hidx. inversion Hidx; subst. cbn.
  destruct (decide (k' = l)) as [->|Hne]; [reflexivity|].
  apply IH; [assumption|].
  cbn in Hl. apply elem_of_cons in Hl as [->|Hl]; [congruence|exact Hl].
Qed.

Lemma sr_get_tabulate (g : label -> float) (idx : list label) l :
  l ∈ idx -> sr_get (map (fun l' => (l', g l')) idx) l = g l.
Proof.
  induction idx as [|k r IH]; intros Hl; [apply elem_of_nil in Hl; contradiction|].
  cbn. destruct (decide (k = l)) as [->|Hne]; [reflexivity|].
  apply IH. apply elem_of_cons in Hl as [->|Hl]; [congruence|exact Hl].
Qed.

Lemma elem_of_index_union (a b : list label) l :
  l ∈ a \/ l ∈ b -> l ∈ index_union a b.
Proof.
  intros Hl. destruct a as [|a0 a']; [|destruct b as [|b0 b']].
  - destruct Hl as [Hl|Hl]; [apply elem_of_nil in Hl; contradiction|].
    destruct b; exact Hl.
  - destruct Hl as [Hl|Hl]; [exact Hl|apply elem_of_nil in Hl; contradiction].
  - rewrite (index_union_perm (a0 :: a') (b0 :: b')) by discriminate.
    apply elem_of_app. destruct (decide (l ∈ a0 :: a')) as [Hin|Hnotin]; [left; exact Hin|].
    right. destruct Hl as [Hl|Hl]; [contradiction|].
    apply list_elem_of_filter. split; [|exact Hl].
    rewrite bool_decide_eq_false_2 by exact Hnotin. exact I.
Qed.

(** An entry of the result of a binary operator is the operator applied
    to the entries of the operands. *)
Lemma sr_get_binop (f : float -> float -> float) (a b : Series) l :
  l ∈ sr_index a \/ l ∈ sr_index b ->
  sr_get (sr_binop f a b) l = f (sr_get a l) (sr_get b l).
Proof.
  intros Hl. unfold sr_binop. destruct (decide (sr_index a = sr_index b)) as [E|_].
  - apply sr_get_zip_with; [exact E|].
    destruct Hl as [Hl|Hl]; [exact Hl|rewrite E; exact Hl].
  - apply (sr_get_tabulate (fun l => f (sr_get a l) (sr_get b l))).
    apply elem_of_index_union, Hl.
Qed.

Lemma sr_get_map (g : float -> float) (s : Series) l :
  l ∈ sr_index s -> sr_get (sr_map g s) l = g (sr_get s l).
Proof.
  induction s as [|[k x] r IH]; intros Hl; [apply elem_of_nil in Hl; contradiction|].
  cbn. destruct (decide (k = l)) as [->|Hne]; [reflexivity|].
  apply IH. cbn in Hl. apply elem_of_cons in Hl as [->|Hl]; [congruence|exact Hl].
Qed.

Lemma df_cols_get df names sub s :
  df_cols df names = Some sub -> s ∈ names ->
  assoc_get s (columns sub) = assoc_get s (columns df).
Proof.
  unfold df_cols. intros Hsub Hs.
  destruct (mapM (fun n => (fun xs => (n, xs)) <$> assoc_get n (columns df)) names)
    as [cs|] eqn:Ecs; [|discriminate].
  cbn in Hsub. inversion Hsub; subst. cbn [columns]. clear Hsub.
  revert cs Ecs. induction names as [|n r IH]; intros cs Ecs;
    [apply elem_of_nil in Hs; contradiction|].
  cbn in Ecs. destruct (assoc_get n (columns df)) as [xs|] eqn:En; [|discriminate].
  cbn in Ecs.
  destruct (mapM (fun n => (fun xs => (n, xs)) <$> assoc_get n (columns df)) r)
    as [cs'|] eqn:Ecs'; [|discriminate].
  cbn in Ecs. inversion Ecs; subst. cbn.
  destruct (decide (n = s)) as [->|Hne]; [symmetry; exact En|].
  apply elem_of_cons in Hs as [->|Hs]; [congruence|].
  apply IH; [exact Hs|reflexivity].
Qed.

Lemma calculate_alpha_value h returns df market_returns rate trading_days symbol sub :
  frames h !! returns = Some df ->
  df_cols df (match truthy symbol with Some s => [s] | None => col_names df end)
    = Some sub ->
  calculate_alpha returns market_returns rate trading_days symbol h =
  (Ok (sr_binop fsub
         (scale (float_of_Z trading_days) (df_reduce pd_mean sub))
         (expected_return
            (match rate with Some x => x | None => self_risk_free_rate h end)
            (fmul (pd_mean (sr_values market_returns)) (float_of_Z trading_days))
            (fill (fun s => beta_of market_returns (default [] (df_col df s)))
                  (col_names df) (sr_empty (map Sym (col_names df)))))), h).
Proof.
  intros H Hsub. unfold calculate_alpha.
  erewrite bind_ok by apply or_instance_rate_run.
  rewrite (bind_load _ _ _ _ H).
  erewrite bind_ok by (apply calculate_beta_all_run; exact H).
  erewrite bind_ok by (rewrite Hsub; reflexivity).
  reflexivity.
Qed.

(** X15. For a symbol of the returns matrix, the entry of that symbol in
    the series returned by [calculate_alpha], called for all symbols or
    for that symbol, is the annualized mean return of its column minus
    the return expected under the CAPM from its beta:
    [mean * trading_days - (rate + beta * (market_mean * trading_days - rate))],
    where [beta] is the symbol's entry in the result of [calculate_beta]
    and [rate] is the given rate or, without one, the rate of the
    analyzer. *)
Theorem alpha_entry_follows_capm
    (h : heap) (returns : loc) (df : DataFrame) (market_returns : Series)
    (risk_free_rate : option float) (trading_days : Z)
    (symbol : option string) (s : string) (xs : list float) :
  frames h !! returns = Some df ->
  assoc_get s (columns df) = Some xs ->
  symbol = None \/ symbol = Some s ->
  let rate :=
    match risk_free_rate with Some r => r | None => self_risk_free_rate h end in
  let market_return :=
    fmul (pd_mean (sr_values market_returns)) (float_of_Z trading_days) in
  exists alpha beta,
    eval (calculate_alpha returns market_returns risk_free_rate trading_days symbol) h
      = Ok alpha /\
    eval (calculate_beta returns market_returns None) h = Ok beta /\
    sr_get alpha (Sym s) =
      fsub (fmul (pd_mean xs) (float_of_Z trading_days))
           (fadd rate (fmul (sr_get beta (Sym s)) (fsub market_return rate))).
Proof.
  intros H Hxs Hsym rate market_return.
  assert (s ∈ col_names df) as Hin.
  { apply assoc_get_elem in Hxs. unfold col_names. apply list_elem_of_fmap.
    exists (s, xs). split; [reflexivity|exact Hxs]. }
  set (names := match truthy symbol with Some s => [s] | None => col_names df end).
  assert (Forall (fun n => n ∈ col_names df) names /\ s ∈ names) as [Hall Hs].
  { unfold names. destruct Hsym as [-> | ->]; cbn [truthy].
    - split; [apply Forall_forall; auto|exact Hin].
    - destruct (decide (s = "")).
      + split; [apply Forall_forall; auto|exact Hin].
      + split; [constructor; [exact Hin|constructor]|left]. }
  destruct (df_cols_all df names Hall) as (sub & Hsub & Hnames & Hidx).
  unfold eval.
  rewrite (calculate_alpha_value _ _ _ _ _ _ _ _ H Hsub).
  rewrite (calculate_beta_all_run _ _ _ _ H). cbn [fst].
  eexists. eexists. split; [reflexivity|]. split; [reflexivity|].
  assert (Sym s ∈ sr_index (scale (float_of_Z trading_days) (df_reduce pd_mean sub)))
    as Hstock.
  { unfold scale. rewrite sr_index_map, sr_index_reduce, Hnames.
    apply list_elem_of_fmap. exists s. split; [reflexivity|exact Hs]. }
  rewrite sr_get_binop by (left; exact Hstock).
  unfold scale at 1. rewrite sr_get_map by (unfold scale in Hstock;
                                            rewrite sr_index_map in Hstock; exact Hstock).
  rewrite sr_get_df_reduce, (df_cols_get _ _ _ _ Hsub Hs), Hxs.
  unfold expected_return. rewrite sr_get_map.
  2:{ rewrite sr_index_fill_empty. apply list_elem_of_fmap.
      exists s. split; [reflexivity|exact Hin]. }
  reflexivity.
Qed.

(** ** What the methods never do *)

(** X16. No method of the analyzer changes or removes a table that
    existed before the call: every table of the heap before the call is
    in the heap after it, with the same content. *)
Theorem methods_keep_existing_tables (c : method_call) (h : heap) :
  frames h ⊆ frames (exec (call c) h).
Proof.
  apply map_subseteq_spec. intros l df Hl.
  destruct (frame_safe_call c h) as [_ Hframes]. apply Hframes, Hl.
Qed.

Lemma quiet_ret {A} (a : A) : quiet (ret a).
Proof. intros h. reflexivity. Qed.

Lemma quiet_raise {A} e : quiet (@raise A e).
Proof. intros h. reflexivity. Qed.

Lemma quiet_lift {A} (r : result A) : quiet (lift r).
Proof. intros h. reflexivity. Qed.

Lemma quiet_lift_opt {A} e (o : option A) : quiet (lift_opt e o).
Proof. destruct o; [apply quiet_ret|apply quiet_raise]. Qed.

Lemma quiet_bind {A B} (m : M A) (k : A -> M B) :
  quiet m -> (forall a, quiet (k a)) -> quiet (bind m k).
Proof.
  intros Hm Hk h. unfold exec, bind. specialize (Hm h). unfold exec in Hm.
  destruct (m h) as [[a|e] h1]; cbn in *; [|exact Hm].
  rewrite <- Hm. apply Hk.
Qed.

Lemma quiet_load l : quiet (load l).
Proof. intros h. unfold exec, load. destruct (frames h !! l); reflexivity. Qed.

Lemma quiet_get_rate : quiet get_risk_free_rate.
Proof. intros h. reflexivity. Qed.

Lemma quiet_alloc df : quiet (alloc df).
Proof. intros h. reflexivity. Qed.

Lemma quiet_modify l f : quiet (modify l f).
Proof. intros h. unfold exec, modify. destruct (frames h !! l); reflexivity. Qed.

Lemma quiet_fold_each {A S} (f : S -> A -> M S) l s :
  (forall s a, quiet (f s a)) -> quiet (fold_each f l s).
Proof.
  intros Hf. revert s. induction l as [|x r IH]; intros s; cbn.
  - apply quiet_ret.
  - apply quiet_bind; [apply Hf|]. intros s'. apply IH.
Qed.

Lemma quiet_or_instance_rate r : quiet (or_instance_rate r).
Proof. destruct r; [apply quiet_ret|apply quiet_get_rate]. Qed.

Lemma quiet_discard {A} (m : M A) : quiet m -> quiet (discard m).
Proof. intros H. apply quiet_bind; [exact H|]. intros _. apply quiet_ret. Qed.

Ltac quiet_tac :=
  repeat first
    [ apply quiet_ret | apply quiet_raise | apply quiet_lift
    | apply quiet_lift_opt | apply quiet_load | apply quiet_alloc
    | apply quiet_modify | apply quiet_get_rate | apply quiet_or_instance_rate
    | apply quiet_discard | apply quiet_bind | apply quiet_fold_each
    | match goal with
      | |- forall _, _ => intro
      | |- quiet (if ?c then _ else _) => destruct c
      | |- quiet (match ?x with _ => _ end) => destruct x
      end ].

Lemma quiet_calculate_beta r m s : quiet (calculate_beta r m s).
Proof. unfold calculate_beta. quiet_tac. Qed.

Lemma quiet_calculate_alpha r m f t s : quiet (calculate_alpha r m f t s).
Proof.
  unfold calculate_alpha.
  apply quiet_bind; [apply quiet_or_instance_rate|]. intros rate.
  apply quiet_bind; [apply quiet_load|]. intros df.
  apply quiet_bind; [apply quiet_calculate_beta|]. intros beta.
  quiet_tac.
Qed.

Lemma quiet_calculate_volatility r a t : quiet (calculate_volatility r a t).
Proof. unfold calculate_volatility. quiet_tac. Qed.

Lemma quiet_calculate_variance r a t : quiet (calculate_variance r a t).
Proof. unfold calculate_variance. quiet_tac. Qed.

Lemma quiet_calculate_sharpe_ratio r f t : quiet (calculate_sharpe_ratio r f t).
Proof. unfold calculate_sharpe_ratio. quiet_tac. Qed.

Lemma quiet_calculate_sortino_ratio r f t : quiet (calculate_sortino_ratio r f t).
Proof. unfold calculate_sortino_ratio. quiet_tac. Qed.

Lemma quiet_calculate_max_drawdown p : quiet (calculate_max_drawdown p).
Proof. unfold calculate_max_drawdown. quiet_tac. Qed.

Lemma quiet_calculate_value_at_risk r c m : quiet (calculate_value_at_risk r c m).
Proof. unfold calculate_value_at_risk. quiet_tac. Qed.

Lemma quiet_calculate_conditional_var r c : quiet (calculate_conditional_var r c).
Proof. unfold calculate_conditional_var. quiet_tac. Qed.

Lemma quiet_calculate_information_ratio r b t :
  quiet (calculate_information_ratio r b t).
Proof. unfold calculate_information_ratio. quiet_tac. Qed.

Lemma quiet_setitem report name s : quiet (setitem report name s).
Proof. apply quiet_modify. Qed.

Lemma quiet_generate_risk_report r p m : quiet (generate_risk_report r p m).
Proof.
  unfold generate_risk_report.
  repeat first
    [ apply quiet_setitem | apply quiet_calculate_volatility
    | apply quiet_calculate_variance | apply quiet_calculate_sharpe_ratio
    | apply quiet_calculate_sortino_ratio | apply quiet_calculate_max_drawdown
    | apply quiet_calculate_value_at_risk | apply quiet_calculate_conditional_var
    | apply quiet_calculate_beta | apply quiet_calculate_alpha
    | apply quiet_calculate_information_ratio
    | apply quiet_load | apply quiet_alloc | apply quiet_ret
    | apply quiet_bind
    | match goal with
      | |- forall _, _ => intro
      | |- quiet (match ?x with _ => _ end) => destruct x
      end ].
Qed.

(** X17. [fetch_historical_data] is the only method that calls the
    fetcher: every other method of the analyzer, the risk report
    included, leaves the log of the calls to [fetch_price] as it was. *)
Theorem only_fetch_historical_data_calls_the_fetcher (c : method_call) (h : heap) :
  (forall fetcher symbols start_date end_date interval,
     c <> FetchHistoricalData fetcher symbols start_date end_date interval) ->
  fetch_log (exec (call c) h) = fetch_log h.
Proof.
  intros Hc. destruct c; cbn [call];
    try (exfalso; eapply Hc; reflexivity);
    apply quiet_discard.
  - unfold calculate_returns. quiet_tac.
  - unfold calculate_correlation_matrix. quiet_tac.
  - unfold calculate_pairwise_correlation. quiet_tac.
  - apply quiet_calculate_volatility.
  - apply quiet_calculate_variance.
  - apply quiet_calculate_sharpe_ratio.
  - apply quiet_calculate_sortino_ratio.
  - apply quiet_calculate_max_drawdown.
  - apply quiet_calculate_value_at_risk.
  - apply quiet_calculate_conditional_var.
  - apply quiet_calculate_beta.
  - apply quiet_calculate_alpha.
  - apply quiet_calculate_information_ratio.
  - apply quiet_generate_risk_report.
Qed.
(** ** The cells of the risk report *)

Lemma generate_risk_report_fill returns prices market_returns h :
  generate_risk_report returns prices market_returns h =
  (let* returns_df := load returns in
   let* report := alloc (mkDataFrame (map Sym (col_names returns_df)) []) in
   setitem report "Mean Return (Annual)"
           (scale (float_of_Z 252) (df_reduce pd_mean returns_df)) ;;
   fill_report report (report_methods returns prices market_returns) (ret report)) h.
Proof. destruct market_returns; reflexivity. Qed.

Lemma inputs_at_extends returns prices dfr dfp rate h h' :
  inputs_at returns prices dfr dfp rate h -> extends h h' ->
  inputs_at returns prices dfr dfp rate h'.
Proof.
  intros (Hr & Hp & Hrate) [Erate Hf]. split; [auto|]. split; [auto|congruence].
Qed.

Lemma calculate_information_ratio_value h returns df benchmark trading_days :
  frames h !! returns = Some df ->
  calculate_information_ratio returns benchmark trading_days h =
  (Ok (sr_binop fdiv
         (scale (float_of_Z trading_days)
                (df_reduce pd_mean (df_sub_series df benchmark)))
         (scale (np_sqrt (float_of_Z trading_days))
                (df_reduce pd_std (df_sub_series df benchmark)))), h).
Proof.
  intros H. unfold calculate_information_ratio.
  rewrite (bind_load _ _ _ _ H). reflexivity.
Qed.

(** Every call of the report returns a series that depends only on the
    two input tables and on the rate of the analyzer. *)
Lemma report_methods_values returns prices dfr dfp rate market_returns :
  exists vs,
    methods_return (inputs_at returns prices dfr dfp rate)
                   (report_methods returns prices market_returns) vs.
Proof.
  assert (forall (m : M Series),
            (exists v, returns_value (inputs_at returns prices dfr dfp rate) m v) ->
            forall l, (exists vs, methods_return (inputs_at returns prices dfr dfp rate) l vs) ->
            forall name, exists vs, methods_return (inputs_at returns prices dfr dfp rate)
                                      ((name, m) :: l) vs) as Hcons.
  { intros m [v Hv] l [vs Hvs] name. exists (v :: vs). constructor; assumption. }
  assert (exists vs, methods_return (inputs_at returns prices dfr dfp rate)
                       (match market_returns with
                        | Some market_returns =>
                            [("Beta", calculate_beta returns market_returns None);
                             ("Alpha (Annual)",
                              calculate_alpha returns market_returns None 252 None);
                             ("Information Ratio",
                              calculate_information_ratio returns market_returns 252)]
                        | None => []
                        end) vs) as Hmarket.
  { destruct market_returns as [market|]; [|exists []; constructor].
    apply Hcons; [|apply Hcons; [|apply Hcons; [|exists []; constructor]]].
    - eexists. intros h (Hr & _ & _).
      rewrite (calculate_beta_all_run _ _ _ _ Hr).
      eexists. split; [reflexivity|apply extends_refl].
    - destruct (df_cols_all dfr (col_names dfr)) as (sub & Hsub & _).
      { apply Forall_forall. auto. }
      eexists. intros h (Hr & _ & Hrate).
      rewrite (calculate_alpha_value _ _ _ _ None 252 None sub Hr Hsub).
      rewrite Hrate. eexists. split; [reflexivity|apply extends_refl].
    - eexists. intros h (Hr & _ & _).
      rewrite (calculate_information_ratio_value _ _ _ _ _ Hr).
      eexists. split; [reflexivity|apply extends_refl]. }
  unfold report_methods. cbn [app].
  repeat apply Hcons; try exact Hmarket.
  - eexists. intros h (Hr & _ & _). rewrite (calculate_volatility_run _ _ _ _ _ Hr).
    eexists. split; [reflexivity|apply extends_refl].
  - eexists. intros h (Hr & _ & _). rewrite (calculate_variance_run _ _ _ _ _ Hr).
    eexists. split; [reflexivity|apply extends_refl].
  - eexists. intros h (Hr & _ & Hrate).
    rewrite (calculate_sharpe_ratio_value _ _ _ _ _ Hr), Hrate.
    eexists. split; [reflexivity|apply extends_refl].
  - eexists. intros h (Hr & _ & Hrate).
    rewrite (calculate_sortino_ratio_value _ _ _ _ _ Hr).
    eexists. split; [|apply extends_alloc].
    apply (f_equal2 pair); [rewrite Hrate|]; reflexivity.
  - eexists. intros h (_ & Hp & _). rewrite (calculate_max_drawdown_run _ _ _ Hp).
    eexists. split; [reflexivity|apply extends_refl].
  - eexists. intros h (Hr & _ & _).
    rewrite (calculate_value_at_risk_historical _ _ _ _ Hr).
    eexists. split; [reflexivity|apply extends_refl].
  - eexists. intros h (Hr & _ & _).
    erewrite (calculate_conditional_var_run _ _ _ _ _ Hr) by reflexivity.
    eexists. split; [reflexivity|apply extends_refl].
Qed.

Lemma fill_report_holds returns prices report dfr dfp rate :
  report <> returns -> report <> prices ->
  forall l vs known,
    methods_return (inputs_at returns prices dfr dfp rate) l vs ->
    NoDup (map fst known ++ map fst l) ->
    hoare (report_holds returns prices report dfr dfp rate known)
          (fill_report report l (ret report))
          (fun r h => r = report /\
                      report_holds returns prices report dfr dfp rate
                        (known ++ zip (map fst l) vs) h).
Proof.
  intros Hn1 Hn2 l vs known Hvs. revert known.
  induction Hvs as [|[name m] v l vs Hv _ IH]; intros known Hnd.
  - cbn. rewrite app_nil_r. apply hoare_ret. auto.
  - cbn [fill_report foldr fst snd map zip zip_with] in *.
    intros h (Hin & rep & Hrep & Hidx & Hknown).
    destruct (Hv h Hin) as (h1 & E1 & Hext).
    rewrite (bind_ok _ _ _ _ _ E1).
    assert (frames h1 !! report = Some rep) as Hrep1 by (apply Hext, Hrep).
    pose proof (inputs_at_extends _ _ _ _ _ _ _ Hin Hext) as (Hr1 & Hp1 & Hrate1).
    unfold setitem at 1. unfold bind at 1. unfold modify at 1. rewrite Hrep1.
    assert (NoDup (map fst (known ++ [(name, v)]) ++ map fst l)) as Hnd'.
    { rewrite map_app, <- app_assoc. exact Hnd. }
    match goal with
    | |- exists _ _, ?k ?h2 = _ /\ _ =>
        assert (report_holds returns prices report dfr dfp rate
                  (known ++ [(name, v)]) h2) as Hholds
    end.
    { split; [split; [|split]|].
      - cbn. rewrite lookup_insert_ne by exact Hn1. exact Hr1.
      - cbn. rewrite lookup_insert_ne by exact Hn2. exact Hp1.
      - exact Hrate1.
      - eexists. split; [cbn; apply lookup_insert_eq|].
        split; [exact Hidx|]. cbn [columns df_setitem].
        apply Forall_app. split.
        + apply Forall_forall. intros e He. rewrite Forall_forall in Hknown.
          rewrite assoc_get_assoc_set.
          destruct (decide (name = fst e)) as [Heq|_]; [|apply Hknown, He].
          exfalso. apply NoDup_app in Hnd as (_ & Hdisj & _).
          apply (Hdisj name); [|left].
          rewrite Heq. apply list_elem_of_fmap. exists e. split; [reflexivity|exact He].
        + constructor; [|constructor]. cbn [fst snd].
          rewrite assoc_get_assoc_set, decide_True by reflexivity.
          rewrite Hidx. reflexivity. }
    destruct (IH (known ++ [(name, v)]) Hnd' _ Hholds) as (r & h' & E & -> & Hfinal).
    exists report, h'. split; [exact E|]. split; [reflexivity|].
    rewrite <- app_assoc in Hfinal. exact Hfinal.
Qed.

Lemma sr_values_get (s : Series) :
  NoDup (sr_index s) -> sr_values s = map (sr_get s) (sr_index s).
Proof.
  induction s as [|[k x] r IH]; intros Hnd; [reflexivity|].
  cbn in Hnd. inversion Hnd as [|? ? Hk Hnd']; subst.
  cbn. rewrite decide_True by reflexivity. f_equal.
  specialize (IH Hnd'). unfold sr_values, sr_index in IH. rewrite IH.
  apply Forall_fmap_ext_1. apply Forall_forall. intros l Hl.
  rewrite decide_False; [reflexivity|]. intros ->. contradiction.
Qed.

Lemma sr_reindex_get (s : Series) (idx : list label) :
  NoDup idx -> sr_reindex s idx = map (sr_get s) idx.
Proof.
  intros Hnd. unfold sr_reindex. destruct (decide (sr_index s = idx)) as [<-|]; [|reflexivity].
  apply sr_values_get, Hnd.
Qed.

(** X18. Every column of the risk report after the mean return holds what
    the method it is computed with returns on the same inputs: the cell
    of a symbol is the symbol's entry in the series returned by
    [calculate_volatility], [calculate_variance], [calculate_sharpe_ratio],
    [calculate_sortino_ratio], [calculate_max_drawdown] (on the prices),
    [calculate_value_at_risk] and [calculate_conditional_var] (at 0.95)
    and, with a market series, [calculate_beta], [calculate_alpha] and
    [calculate_information_ratio]; a symbol for which the series has no
    entry gets a missing value.  The mean-return column is the mean of
    each column of the returns times 252. *)
Theorem risk_report_cells
    (h : heap) (returns prices : loc) (dfr dfp : DataFrame)
    (market_returns : option Series) :
  frames h !! returns = Some dfr ->
  frames h !! prices = Some dfp ->
  NoDup (col_names dfr) ->
  exists report h' rep,
    generate_risk_report returns prices market_returns h = (Ok report, h') /\
    frames h' !! report = Some rep /\
    assoc_get "Mean Return (Annual)" (columns rep) =
      Some (map (fun c => fmul (pd_mean (snd c)) (float_of_Z 252)) (columns dfr)) /\
    Forall (fun e =>
              exists s,
                eval (snd e) h = Ok s /\
                assoc_get (fst e) (columns rep) =
                  Some (map (fun symbol => sr_get s (Sym symbol)) (col_names dfr)))
           (report_methods returns prices market_returns).
Proof.
  intros Hr Hp Hnd.
  destruct (report_methods_values returns prices dfr dfp (self_risk_free_rate h)
              market_returns) as [vs Hvs].
  rewrite generate_risk_report_fill.
  rewrite (bind_load _ _ _ _ Hr).
  unfold bind at 1. unfold alloc at 1.
  set (report := fresh (dom (frames h))).
  assert (frames h !! report = None) as Hfresh by apply fresh_not_allocated.
  assert (report <> returns) as Hn1 by (intros E; rewrite E in Hfresh; congruence).
  assert (report <> prices) as Hn2 by (intros E; rewrite E in Hfresh; congruence).
  unfold setitem at 1. unfold bind at 1. unfold modify at 1. cbn [frames].
  rewrite lookup_insert_eq. cbn [self_risk_free_rate fetch_log].
  set (mean := scale (float_of_Z 252) (df_reduce pd_mean dfr)).
  pose proof (fill_report_holds returns prices report dfr dfp (self_risk_free_rate h)
                Hn1 Hn2 _ vs [("Mean Return (Annual)", mean)] Hvs) as Hfill.
  assert (NoDup (map fst [("Mean Return (Annual)", mean)] ++
                 map fst (report_methods returns prices market_returns))) as Hnames.
  { destruct market_returns; by_decision. }
  specialize (Hfill Hnames).
  match goal with
  | |- exists _ _ _, ?k ?h1 = _ /\ _ => destruct (Hfill h1) as (l & h' & E & -> & Hholds)
  end.
  { split; [split; [|split]|].
    - cbn. rewrite insert_insert_eq, lookup_insert_ne by exact Hn1. exact Hr.
    - cbn. rewrite insert_insert_eq, lookup_insert_ne by exact Hn2. exact Hp.
    - reflexivity.
    - eexists. split; [cbn; apply lookup_insert_eq|].
      split; [reflexivity|]. constructor; [|constructor].
      cbn. rewrite decide_True by reflexivity. reflexivity. }
  destruct Hholds as (_ & rep & Hrep & Hidx & Hknown).
  exists report, h', rep. split; [exact E|]. split; [exact Hrep|].
  assert (NoDup (map Sym (col_names dfr))) as Hidx_nd.
  { apply NoDup_fmap_2; [|exact Hnd]. intros a b [= ->]. reflexivity. }
  apply Forall_app in Hknown as [Hmean Hcells]. split.
  - inversion Hmean as [|? ? Hm _]; subst. cbn [fst snd] in Hm. rewrite Hm.
    f_equal. unfold sr_reindex, mean, scale.
    rewrite decide_True by (rewrite sr_index_map; apply sr_index_reduce).
    unfold sr_values, sr_map, df_reduce. rewrite !map_map. reflexivity.
  - assert (inputs_at returns prices dfr dfp (self_risk_free_rate h) h) as Hin.
    { split; [exact Hr|]. split; [exact Hp|reflexivity]. }
    remember (report_methods returns prices market_returns) as methods eqn:Hmethods.
    clear -Hvs Hcells Hin Hidx_nd. unfold methods_return in Hvs.
    revert Hcells. induction Hvs as [|e v methods vs Hv _ IH]; intros Hcells; [constructor|].
    cbn [map zip zip_with] in Hcells. inversion Hcells as [|? ? Hcell Hrest]; subst.
    constructor; [|apply IH; exact Hrest].
    exists v. destruct (Hv h Hin) as (h1 & E1 & _). unfold eval. rewrite E1.
    split; [reflexivity|]. cbn [fst snd] in Hcell. rewrite Hcell.
    rewrite (sr_reindex_get _ _ Hidx_nd), map_map. reflexivity.
Qed.
(** ** The price fetchers *)

(** *** The delay between two attempts *)

Lemma pow2_converts (attempt : nat) :
  (attempt <= 1023)%nat ->
  (Z.abs (2 ^ Z.of_nat attempt) <? float_of_int_bound) = true.
Proof.
  intros H. apply Z.ltb_lt. rewrite Z.abs_eq by (apply Z.pow_nonneg; lia).
  apply Z.le_lt_trans with (2 ^ 1023).
  - apply Z.pow_le_mono_r; lia.
  - vm_compute. reflexivity.
Qed.

Lemma pow2_overflows (attempt : nat) :
  (1024 <= attempt)%nat ->
  (Z.abs (2 ^ Z.of_nat attempt) <? float_of_int_bound) = false.
Proof.
  intros H. apply Z.ltb_ge. rewrite Z.abs_eq by (apply Z.pow_nonneg; lia).
  apply Z.le_trans with (2 ^ 1024).
  - vm_compute. discriminate.
  - apply Z.pow_le_mono_r; lia.
Qed.

Lemma exponential_backoff_converts (attempt : nat) (base_delay max_delay : float) :
  (attempt <= 1023)%nat ->
  exponential_backoff attempt base_delay max_delay =
  Returned (py_min (fmul base_delay (float_of_Z (2 ^ Z.of_nat attempt))) max_delay).
Proof.
  intros H. unfold exponential_backoff, float_of_int.
  rewrite (pow2_converts attempt H). reflexivity.
Qed.

Lemma exponential_backoff_overflows (attempt : nat) (base_delay max_delay : float) :
  (1024 <= attempt)%nat ->
  exponential_backoff attempt base_delay max_delay = Raised OverflowError.
Proof.
  intros H. unfold exponential_backoff, float_of_int.
  rewrite (pow2_overflows attempt H). reflexivity.
Qed.

Lemma exponential_backoff_finite (attempt : nat) (base_delay max_delay : Qc) :
  (attempt <= 1023)%nat ->
  exponential_backoff attempt (Num base_delay) (Num max_delay) =
  Returned
    (Num (if Qc_ltb max_delay (base_delay * Qc_of_Z (2 ^ Z.of_nat attempt))
          then max_delay else (base_delay * Qc_of_Z (2 ^ Z.of_nat attempt))%Qc)).
Proof.
  intros H. rewrite (exponential_backoff_converts _ _ _ H).
  unfold py_min, float_of_Z. cbn [fmul flt].
  destruct (Qc_ltb max_delay (base_delay * Qc_of_Z (2 ^ Z.of_nat attempt)));
    reflexivity.
Qed.

Lemma Qc_ltb_ge (x y : Qc) : Qc_ltb x y = false <-> (y <= x)%Qc.
Proof.
  unfold Qc_ltb. rewrite negb_false_iff. apply Qc_leb_le.
Qed.

Lemma Qc_of_Z_le (a b : Z) : a <= b -> (Qc_of_Z a <= Qc_of_Z b)%Qc.
Proof.
  intros H. unfold Qc_of_Z. to_Q. rewrite <- Zle_Qle. exact H.
Qed.

Lemma backoff_product_mono (base_delay : Qc) (attempt later : nat) :
  (0 <= base_delay)%Qc -> (attempt <= later)%nat ->
  (base_delay * Qc_of_Z (2 ^ Z.of_nat attempt) <=
   base_delay * Qc_of_Z (2 ^ Z.of_nat later))%Qc.
Proof.
  intros Hbase Hle.
  assert (Qc_of_Z (2 ^ Z.of_nat attempt) <= Qc_of_Z (2 ^ Z.of_nat later))%Qc as Hpow.
  { apply Qc_of_Z_le. apply Z.pow_le_mono_r; lia. }
  rewrite !(Qcmult_comm base_delay). apply Qcmult_le_compat_r; assumption.
Qed.

(** X19. Up to attempt 1023, the delay computed by [exponential_backoff]
    for a finite non-negative base delay is [base_delay * 2 ** attempt]
    while that product does not exceed [max_delay] and [max_delay]
    afterwards: it never exceeds [max_delay] and never decreases from one
    attempt to a later one.  From attempt 1024 on the call raises
    [OverflowError], whatever the delays: [2 ** attempt] is too large to
    be converted to a float. *)
Theorem exponential_backoff_capped_and_monotone
    (attempt later : nat) (base_delay max_delay : Qc) :
  (0 <= base_delay)%Qc -> (attempt <= later)%nat -> (later <= 1023)%nat ->
  (exists delay delay',
     exponential_backoff attempt (Num base_delay) (Num max_delay) = Returned (Num delay) /\
     exponential_backoff later (Num base_delay) (Num max_delay) = Returned (Num delay') /\
     (delay <= max_delay)%Qc /\
     (delay <= delay')%Qc /\
     ((base_delay * Qc_of_Z (2 ^ Z.of_nat attempt) <= max_delay)%Qc ->
      delay = (base_delay * Qc_of_Z (2 ^ Z.of_nat attempt))%Qc) /\
     ((max_delay < base_delay * Qc_of_Z (2 ^ Z.of_nat attempt))%Qc ->
      delay = max_delay)) /\
  (forall (beyond : nat) (base max : float),
     (1024 <= beyond)%nat ->
     exponential_backoff beyond base max = Raised OverflowError).
Proof.
  intros Hbase Hle Hlater.
  split; [|intros beyond base max H; apply exponential_backoff_overflows, H].
  rewrite !exponential_backoff_finite by lia.
  eexists. eexists. split; [reflexivity|]. split; [reflexivity|].
  pose proof (backoff_product_mono base_delay attempt later Hbase Hle) as Hmono.
  destruct (Qc_ltb max_delay (base_delay * Qc_of_Z (2 ^ Z.of_nat attempt))) eqn:E;
    destruct (Qc_ltb max_delay (base_delay * Qc_of_Z (2 ^ Z.of_nat later))) eqn:E'.
  - apply Qc_ltb_lt in E. repeat split; try apply Qcle_refl; try reflexivity.
    intros H. exfalso. apply (Qclt_not_le _ _ E H).
  - apply Qc_ltb_lt in E. apply Qc_ltb_ge in E'. exfalso.
    apply (Qclt_not_le _ _ E). eapply Qcle_trans; eassumption.
  - apply Qc_ltb_ge in E. apply Qc_ltb_lt in E'.
    repeat split; try assumption; try reflexivity.
    intros H. exfalso. apply (Qclt_not_le _ _ H E).
  - apply Qc_ltb_ge in E. repeat split; try assumption; try reflexivity.
    intros H. exfalso. apply (Qclt_not_le _ _ H E).
Qed.

(** The two ways a call with finite delays ends. *)
Lemma exponential_backoff_cases (attempt : nat) (base_delay : Qc) :
  ((attempt <= 1023)%nat /\
   exists delay,
     exponential_backoff attempt (Num base_delay) (Num (Qc_of_Z 60)) = Returned delay /\
     fle delay (Num (Qc_of_Z 60)) = true) \/
  ((1024 <= attempt)%nat /\
   forall base max, exponential_backoff attempt base max = Raised OverflowError).
Proof.
  destruct (le_lt_dec attempt 1023) as [H|H]; [left|right].
  - split; [exact H|]. rewrite (exponential_backoff_finite _ _ _ H).
    eexists. split; [reflexivity|]. cbn [fle].
    destruct (Qc_ltb (Qc_of_Z 60) (base_delay * Qc_of_Z (2 ^ Z.of_nat attempt))) eqn:E.
    + apply Qc_leb_le, Qcle_refl.
    + apply Qc_leb_le. apply Qc_ltb_ge in E. exact E.
  - split; [lia|]. intros base max. apply exponential_backoff_overflows. lia.
Qed.

(** *** The handler of a failed attempt *)

Lemma retry_or_give_up_retries (max_retries : Z) (attempt : nat) :
  Z.of_nat attempt < max_retries - 1 -> (attempt <= 1023)%nat ->
  exists delay,
    exponential_backoff attempt (Num 1%Qc) (Num (Qc_of_Z 60)) = Returned delay /\
    fle delay (Num (Qc_of_Z 60)) = true /\
    forall request next,
      retry_or_give_up max_retries attempt request next =
      (request :: Sleep delay :: fst next, snd next).
Proof.
  intros Hlt Hsmall.
  destruct (exponential_backoff_cases attempt 1%Qc) as [[_ (delay & E & Hle)]|[H _]];
    [|lia].
  exists delay. split; [exact E|]. split; [exact Hle|].
  intros request next. unfold retry_or_give_up.
  rewrite (proj2 (Z.ltb_lt _ _) Hlt), E. reflexivity.
Qed.

Lemma retry_or_give_up_gives_up (max_retries : Z) (attempt : nat) request next :
  max_retries - 1 <= Z.of_nat attempt ->
  retry_or_give_up max_retries attempt request next =
  ([request], Returned (Some no_price)).
Proof.
  intros H. unfold retry_or_give_up. rewrite (proj2 (Z.ltb_ge _ _) H). reflexivity.
Qed.

Lemma retry_or_give_up_overflows (max_retries : Z) (attempt : nat) request next :
  Z.of_nat attempt < max_retries - 1 -> (1024 <= attempt)%nat ->
  retry_or_give_up max_retries attempt request next = ([request], Raised OverflowError).
Proof.
  intros Hlt Hbig. unfold retry_or_give_up.
  rewrite (proj2 (Z.ltb_lt _ _) Hlt), (exponential_backoff_overflows _ _ _ Hbig).
  reflexivity.
Qed.

(** *** Yahoo Finance: the loop over the attempts *)

(** When every attempt raises and no delay overflows. *)
Lemma yf_attempts_all_raise (yahoo : Yahoo) max_retries symbol date (n a : nat) :
  max_retries = Z.of_nat (a + n) -> (1 <= n)%nat -> max_retries <= 1025 ->
  (forall j, (a <= j < a + n)%nat -> yahoo symbol date j = YfRaises) ->
  exists events,
    yf_attempts yahoo max_retries symbol date (seq a n) =
      (events, Returned (Some no_price)) /\
    requested events = replicate n (symbol, date) /\
    map Returned (sleeps events) =
      map (fun k => exponential_backoff k (Num 1%Qc) (Num (Qc_of_Z 60))) (seq a (n - 1)) /\
    List.last events (Sleep NaN) = Request symbol date.
Proof.
  intros Hmr. revert a Hmr. induction n as [|n IH]; intros a Hmr Hn Hmax Hraise; [lia|].
  cbn [seq yf_attempts]. rewrite (Hraise a) by lia.
  destruct n as [|n].
  - rewrite retry_or_give_up_gives_up by lia.
    eexists. split; [reflexivity|]. repeat split.
  - destruct (retry_or_give_up_retries max_retries a) as (delay & Eb & _ & ->);
      [lia|lia|].
    destruct (IH (S a)) as (events & E & Hreq & Hsl & Hlast); [lia|lia|lia| |].
    { intros j Hj. apply Hraise. lia. }
    rewrite E. cbn [fst snd].
    eexists. split; [reflexivity|]. split; [|split].
    + unfold requested in *. cbn [omap list_omap]. rewrite Hreq. reflexivity.
    + unfold sleeps in *. cbn [omap list_omap].
      replace (S (S n) - 1)%nat with (S (S n - 1)) by lia.
      cbn [seq map]. rewrite Eb, Hsl. reflexivity.
    + destruct events as [|e events]; [discriminate|]. exact Hlast.
Qed.

(** When every attempt raises and attempt 1024 is not the last one. *)
Lemma yf_attempts_overflow (yahoo : Yahoo) max_retries symbol date (n a : nat) :
  max_retries = Z.of_nat (a + n) -> (a <= 1024)%nat -> 1026 <= max_retries ->
  (forall j, (a <= j <= 1024)%nat -> yahoo symbol date j = YfRaises) ->
  exists events,
    yf_attempts yahoo max_retries symbol date (seq a n) = (events, Raised OverflowError) /\
    requested events = replicate (1025 - a) (symbol, date) /\
    map Returned (sleeps events) =
      map (fun k => exponential_backoff k (Num 1%Qc) (Num (Qc_of_Z 60)))
          (seq a (1024 - a)) /\
    List.last events (Sleep NaN) = Request symbol date.
Proof.
  intros Hmr. revert a Hmr. induction n as [|n IH]; intros a Hmr Ha Hmax Hraise; [lia|].
  cbn [seq yf_attempts]. rewrite (Hraise a) by lia.
  destruct (le_lt_dec 1024 a) as [Hbig|Hsmall].
  - rewrite retry_or_give_up_overflows by lia.
    replace (1025 - a)%nat with 1%nat by lia. replace (1024 - a)%nat with 0%nat by lia.
    eexists. split; [reflexivity|]. repeat split.
  - destruct (retry_or_give_up_retries max_retries a) as (delay & Eb & _ & ->);
      [lia|lia|].
    destruct (IH (S a)) as (events & E & Hreq & Hsl & Hlast); [lia|lia|lia| |].
    { intros j Hj. apply Hraise. lia. }
    rewrite E. cbn [fst snd].
    eexists. split; [reflexivity|]. split; [|split].
    + unfold requested in *. cbn [omap list_omap]. rewrite Hreq.
      replace (1025 - a)%nat with (S (1025 - S a)) by lia. reflexivity.
    + unfold sleeps in *. cbn [omap list_omap].
      replace (1024 - a)%nat with (S (1024 - S a)) by lia.
      cbn [seq map]. rewrite Eb, Hsl. reflexivity.
    + destruct events as [|e events]; [|exact Hlast].
      exfalso. unfold requested in Hreq. cbn [omap list_omap] in Hreq.
      replace (1025 - S a)%nat with (S (1024 - S a)) in Hreq by lia. discriminate.
Qed.

(** X20. When every attempt raises, [YFinanceFetcher.fetch_price] ends on
    an attempt (no pause after the last one) and has paused after each
    attempt before it for the delay [exponential_backoff] gives for that
    attempt ([min(2 ** attempt, 60)]).  With [1 <= max_retries <= 1025] it
    does not raise: it queries Yahoo Finance in exactly [max_retries]
    attempts and returns the record without price, without date and with
    currency USD.  With [max_retries >= 1026] the handler of attempt 1024
    raises [OverflowError], which escapes the call after 1025 attempts. *)
Theorem yfinance_gives_up_after_max_retries
    (yahoo : Yahoo) (max_retries : Z) (symbol : string) (date : option string) :
  1 <= max_retries ->
  (forall attempt, Z.of_nat attempt < max_retries ->
                   yahoo symbol date attempt = YfRaises) ->
  exists events out,
    yfinance_fetch_price yahoo max_retries symbol date = (events, out) /\
    List.last events (Sleep NaN) = Request symbol date /\
    (max_retries <= 1025 ->
     out = Returned (Some no_price) /\
     requested events = replicate (Z.to_nat max_retries) (symbol, date) /\
     map Returned (sleeps events) =
       map (fun k => exponential_backoff k (Num 1%Qc) (Num (Qc_of_Z 60)))
           (seq 0 (Z.to_nat max_retries - 1))) /\
    (1026 <= max_retries ->
     out = Raised OverflowError /\
     requested events = replicate 1025 (symbol, date) /\
     map Returned (sleeps events) =
       map (fun k => exponential_backoff k (Num 1%Qc) (Num (Qc_of_Z 60))) (seq 0 1024)).
Proof.
  intros Hmax Hraise. unfold yfinance_fetch_price.
  destruct (Z_le_gt_dec max_retries 1025) as [Hsmall|Hbig].
  - destruct (yf_attempts_all_raise yahoo max_retries symbol date
                (Z.to_nat max_retries) 0) as (events & E & Hreq & Hsl & Hlast);
      [lia|lia|lia| |].
    { intros j Hj. apply Hraise. lia. }
    exists events, (Returned (Some no_price)).
    split; [exact E|]. split; [exact Hlast|]. split; [|lia].
    intros _. split; [reflexivity|]. split; assumption.
  - destruct (yf_attempts_overflow yahoo max_retries symbol date
                (Z.to_nat max_retries) 0) as (events & E & Hreq & Hsl & Hlast);
      [lia|lia|lia| |].
    { intros j Hj. apply Hraise. lia. }
    rewrite Nat.sub_0_r in Hreq, Hsl.
    exists events, (Raised OverflowError).
    split; [exact E|]. split; [exact Hlast|]. split; [lia|].
    intros _. split; [reflexivity|]. split; assumption.
Qed.

Lemma yf_attempts_first_answer (yahoo : Yahoo) max_retries symbol date info hist
    (k n a : nat) :
  max_retries = Z.of_nat (a + n) -> (k < n)%nat -> (a + k <= 1024)%nat ->
  (forall j, (a <= j < a + k)%nat -> yahoo symbol date j = YfRaises) ->
  yahoo symbol date (a + k)%nat = YfData info hist ->
  exists events,
    yf_attempts yahoo max_retries symbol date (seq a n) =
      (events, Returned (Some (yf_record date info hist))) /\
    requested events = replicate (S k) (symbol, date) /\
    map Returned (sleeps events) =
      map (fun j => exponential_backoff j (Num 1%Qc) (Num (Qc_of_Z 60))) (seq a k).
Proof.
  intros Hmr. revert n a Hmr.
  induction k as [|k IH]; intros n a Hmr Hk Hbound Hraise Hdata.
  - destruct n as [|n]; [lia|]. cbn [seq yf_attempts].
    rewrite Nat.add_0_r in Hdata. rewrite Hdata.
    eexists. split; [reflexivity|]. split; reflexivity.
  - destruct n as [|n]; [lia|]. cbn [seq yf_attempts].
    rewrite (Hraise a) by lia.
    destruct (retry_or_give_up_retries max_retries a) as (delay & Eb & _ & ->);
      [lia|lia|].
    destruct (IH n (S a)) as (events & E & Hreq & Hsl); [lia|lia|lia| | |].
    { intros j Hj. apply Hraise. lia. }
    { replace (S a + k)%nat with (a + S k)%nat by lia. exact Hdata. }
    rewrite E. cbn [fst snd].
    eexists. split; [reflexivity|]. split.
    + unfold requested in *. cbn [omap list_omap]. rewrite Hreq. reflexivity.
    + unfold sleeps in *. cbn [omap list_omap seq map]. rewrite Eb, Hsl. reflexivity.
Qed.

(** X21. [YFinanceFetcher.fetch_price] returns the record built from the
    first attempt that does not raise, provided it is one of the first
    [max_retries] attempts and of the first 1025 (the handler of a later
    failure would raise [OverflowError]): it has then queried Yahoo
    Finance once per attempt up to that one and paused after each failed
    attempt for the delay of [exponential_backoff], [min(2 ** attempt,
    60)].  An answer without any row is such an answer: it gives a record
    without price and is not retried. *)
Theorem yfinance_first_answer_decides
    (yahoo : Yahoo) (max_retries : Z) (symbol : string) (date : option string)
    (k : nat) (info : list (string * option string)) (hist : list (string * float)) :
  Z.of_nat k < max_retries -> (k <= 1024)%nat ->
  (forall attempt, (attempt < k)%nat -> yahoo symbol date attempt = YfRaises) ->
  yahoo symbol date k = YfData info hist ->
  exists events,
    yfinance_fetch_price yahoo max_retries symbol date =
      (events, Returned (Some (yf_record date info hist))) /\
    requested events = replicate (S k) (symbol, date) /\
    map Returned (sleeps events) =
      map (fun j => exponential_backoff j (Num 1%Qc) (Num (Qc_of_Z 60))) (seq 0 k) /\
    (hist = [] -> price (yf_record date info hist) = None).
Proof.
  intros Hk Hbound Hraise Hdata. unfold yfinance_fetch_price.
  destruct (yf_attempts_first_answer yahoo max_retries symbol date info hist k
              (Z.to_nat max_retries) 0) as (events & E & Hreq & Hsl);
    [lia|lia|lia| |exact Hdata|].
  { intros j Hj. apply Hraise. lia. }
  exists events. split; [exact E|]. split; [exact Hreq|]. split; [exact Hsl|].
  intros ->. unfold yf_record. destruct (truthy date); reflexivity.
Qed.

Lemma yf_attempts_total (yahoo : Yahoo) max_retries symbol date (n a : nat) :
  max_retries = Z.of_nat (a + n) -> (1 <= n)%nat -> max_retries <= 1025 ->
  exists events r,
    yf_attempts yahoo max_retries symbol date (seq a n) = (events, Returned (Some r)).
Proof.
  intros Hmr. revert a Hmr. induction n as [|n IH]; intros a Hmr Hn Hmax; [lia|].
  cbn [seq yf_attempts].
  destruct (yahoo symbol date a) as [|info hist]; [|eexists; eexists; reflexivity].
  destruct n as [|n].
  - rewrite retry_or_give_up_gives_up by lia. eexists. eexists. reflexivity.
  - destruct (retry_or_give_up_retries max_retries a) as (delay & _ & _ & ->);
      [lia|lia|].
    destruct (IH (S a)) as (events & r & E); [lia|lia|lia|].
    rewrite E. eexists. eexists. reflexivity.
Qed.

(** *** Polygon *)

Lemma pg_attempts_bounded (polygon : PolygonApi) local_day max_retries clean_symbol date
    (n a : nat) :
  max_retries = Z.of_nat (a + n) -> (1 <= n)%nat -> (a <= 1024)%nat ->
  exists events out,
    pg_attempts polygon local_day max_retries clean_symbol date (seq a n) =
      (events, out) /\
    match out with
    | Returned (Some r) => currency r = Some "USD"
    | Returned None => False
    | Raised OverflowError =>
        1026 <= max_retries /\ length (requested events) = (1025 - a)%nat
    end /\
    (1 <= length (requested events) <= n)%nat /\
    Forall (fun q => q = (clean_symbol, date)) (requested events) /\
    Forall (fun d => fle d (Num (Qc_of_Z 60)) = true) (sleeps events).
Proof.
  intros Hmr. revert a Hmr. induction n as [|n IH]; intros a Hmr Hn Ha; [lia|].
  pose (post := fun (events : list event) (out : outcome (option price_record)) =>
          match out with
          | Returned (Some r) => currency r = Some "USD"
          | Returned None => False
          | Raised OverflowError =>
              1026 <= max_retries /\ length (requested events) = (1025 - a)%nat
          end /\
          (1 <= length (requested events) <= S n)%nat /\
          Forall (fun q => q = (clean_symbol, date)) (requested events) /\
          Forall (fun d => fle d (Num (Qc_of_Z 60)) = true) (sleeps events)).
  set (request := Request clean_symbol date).
  set (next := pg_attempts polygon local_day max_retries clean_symbol date (seq (S a) n)).
  assert (post [request] (Returned (Some no_price))) as Hgive.
  { unfold post. split; [reflexivity|]. cbn. split; [lia|]. split; repeat constructor. }
  assert ((1 <= n)%nat -> (1024 <= a)%nat -> post [request] (Raised OverflowError)) as Hover.
  { intros H1 H2. unfold post. split; [split; [lia|cbn; lia]|].
    cbn. split; [lia|]. split; repeat constructor. }
  assert (forall delay, (1 <= n)%nat -> (a <= 1023)%nat ->
            fle delay (Num (Qc_of_Z 60)) = true ->
            post (request :: Sleep delay :: fst next) (snd next)) as Hnext.
  { intros delay H1 H2 Hdelay.
    destruct (IH (S a)) as (events & out & E & Hout & Hlen & Hreq & Hsl); [lia|lia|lia|].
    fold next in E. rewrite E. cbn [fst snd]. unfold post, request.
    unfold requested, sleeps in *. cbn [omap list_omap length].
    split; [|split; [lia|split; constructor; try assumption; reflexivity]].
    destruct out as [[r|]|[]]; [exact Hout|exact Hout|].
    destruct Hout as [Hbig Hcount]. split; [exact Hbig|]. rewrite Hcount. lia. }
  assert (post (fst (retry_or_give_up max_retries a request next))
               (snd (retry_or_give_up max_retries a request next))) as Hhandler.
  { destruct (Z_lt_le_dec (Z.of_nat a) (max_retries - 1)) as [Hlt|Hge].
    - destruct (le_lt_dec 1024 a) as [Hbig|Hsmall].
      + rewrite retry_or_give_up_overflows by lia. apply Hover; lia.
      + destruct (retry_or_give_up_retries max_retries a) as (delay & _ & Hle & ->);
          [lia|lia|].
        apply Hnext; [lia|lia|exact Hle].
    - rewrite retry_or_give_up_gives_up by lia. exact Hgive. }
  assert (forall r, currency r = Some "USD" ->
            post [request; Sleep polygon_pause] (Returned (Some r))) as Hdone.
  { intros r Hr. unfold post. split; [exact Hr|]. cbn. split; [lia|].
    split; repeat constructor. }
  assert (forall result : list event * outcome (option price_record),
            post (fst result) (snd result) ->
            exists events out, result = (events, out) /\ post events out) as Hpack.
  { intros [events out] H. exists events, out. split; [reflexivity|exact H]. }
  cbn [seq pg_attempts]. cbn zeta. fold request. fold next.
  apply Hpack.
  destruct (polygon clean_symbol date a) as [| |close results].
  - exact Hhandler.
  - destruct (Z.ltb_spec (Z.of_nat a) (max_retries - 1)) as [Hlt|Hge]; [|exact Hgive].
    destruct (exponential_backoff_cases a (Qc_of_Z 2)) as [[Hs (delay & -> & Hle)]|[Hb ->]].
    + apply Hnext; [lia|exact Hs|exact Hle].
    + exact Hhandler.
  - destruct (truthy date) as [d|]; [apply Hdone; reflexivity|].
    destruct results as [|[c [t|]] rest]; [apply Hdone; reflexivity..|exact Hhandler].
Qed.

(** X22. Whatever Polygon answers, [PolygonFetcher.fetch_price] with
    [max_retries >= 1] makes at least one and at most [max_retries]
    requests, all for the symbol without its [.TW] parts and for the date
    it was given, and none of its pauses is longer than 60 seconds.  With
    [max_retries <= 1025] it returns a record, and the currency of the
    record is USD.  With a larger [max_retries] it returns such a record
    or raises [OverflowError], the latter after exactly 1025 requests
    (the delay of attempt 1024 cannot be computed). *)
Theorem polygon_fetch_price_is_bounded
    (polygon : PolygonApi) (local_day : Z -> string) (self : PolygonFetcher)
    (symbol : string) (date : option string) :
  1 <= self_max_retries self ->
  exists events out,
    polygon_fetch_price polygon local_day self symbol date = (events, out) /\
    ((exists r, out = Returned (Some r) /\ currency r = Some "USD") \/
     (out = Raised OverflowError /\ 1026 <= self_max_retries self /\
      length (requested events) = 1025%nat)) /\
    (1 <= length (requested events) <= Z.to_nat (self_max_retries self))%nat /\
    Forall (fun q => q = (remove_TW symbol, date)) (requested events) /\
    Forall (fun d => fle d (Num (Qc_of_Z 60)) = true) (sleeps events).
Proof.
  intros Hmax. unfold polygon_fetch_price. cbn zeta.
  destruct (pg_attempts_bounded polygon local_day (self_max_retries self)
              (remove_TW symbol) date (Z.to_nat (self_max_retries self)) 0)
    as (events & out & E & Hout & H); [lia|lia|lia|].
  exists events, out. split; [exact E|]. split; [|exact H].
  destruct out as [[r|]|[]].
  - left. exists r. split; [reflexivity|exact Hout].
  - destruct Hout.
  - right. destruct Hout as [Hbig Hcount]. rewrite Nat.sub_0_r in Hcount.
    split; [reflexivity|]. split; assumption.
Qed.

Lemma pg_attempts_rate_limited (polygon : PolygonApi) local_day max_retries clean_symbol
    date close results (k n a : nat) (d : string) :
  max_retries = Z.of_nat (a + n) -> (k < n)%nat -> (a + k <= 1024)%nat ->
  truthy date = Some d ->
  (forall j, (a <= j < a + k)%nat -> polygon clean_symbol date j = PgRateLimited) ->
  polygon clean_symbol date (a + k)%nat = PgData close results ->
  exists events,
    pg_attempts polygon local_day max_retries clean_symbol date (seq a n) =
      (events, Returned (Some (mkPriceRecord close (Some d) (Some "USD")))) /\
    length (requested events) = S k /\
    map Returned (sleeps events) =
      map (fun j => exponential_backoff j (Num (Qc_of_Z 2)) (Num (Qc_of_Z 60))) (seq a k)
      ++ [Returned polygon_pause].
Proof.
  intros Hmr Hk Hbound Hdate. revert n a Hmr Hk Hbound.
  induction k as [|k IH]; intros n a Hmr Hk Hbound Hlimited Hdata.
  - destruct n as [|n]; [lia|]. cbn [seq pg_attempts]. cbn zeta.
    rewrite Nat.add_0_r in Hdata. rewrite Hdata, Hdate.
    eexists. split; [reflexivity|]. split; reflexivity.
  - destruct n as [|n]; [lia|]. cbn [seq pg_attempts]. cbn zeta.
    rewrite (Hlimited a) by lia.
    rewrite (proj2 (Z.ltb_lt (Z.of_nat a) (max_retries - 1))) by lia.
    destruct (exponential_backoff_cases a (Qc_of_Z 2)) as [[_ (delay & Eb & _)]|[Hb _]];
      [|lia].
    rewrite Eb.
    destruct (IH n (S a)) as (events & E & Hreq & Hsl); [lia|lia|lia| | |].
    { intros j Hj. apply Hlimited. lia. }
    { replace (S a + k)%nat with (a + S k)%nat by lia. exact Hdata. }
    rewrite E. cbn [fst snd].
    eexists. split; [reflexivity|]. split.
    + unfold requested in *. cbn [omap list_omap length]. rewrite Hreq. reflexivity.
    + unfold sleeps in *. cbn [omap list_omap seq map]. rewrite Eb, Hsl. reflexivity.
Qed.

(** X23. When Polygon limits the rate (status 429) on the first [k]
    requests for a dated price and answers the next one, within
    [max_retries] attempts and within the first 1025 (the delay of a
    later limited attempt would raise [OverflowError]),
    [PolygonFetcher.fetch_price] returns the ['close'] of the answer
    under the date it was asked for, in USD; it has paused after each
    limited attempt for the delay of [exponential_backoff] with base 2,
    [min(2 * 2 ** attempt, 60)], and for 12.5 seconds after the answer. *)
Theorem polygon_retries_when_rate_limited
    (polygon : PolygonApi) (local_day : Z -> string) (self : PolygonFetcher)
    (symbol : string) (date : option string) (d : string) (k : nat)
    (close : option float) (results : list (option float * option Z)) :
  Z.of_nat k < self_max_retries self -> (k <= 1024)%nat ->
  truthy date = Some d ->
  (forall attempt, (attempt < k)%nat ->
                   polygon (remove_TW symbol) date attempt = PgRateLimited) ->
  polygon (remove_TW symbol) date k = PgData close results ->
  exists events,
    polygon_fetch_price polygon local_day self symbol date =
      (events, Returned (Some (mkPriceRecord close (Some d) (Some "USD")))) /\
    length (requested events) = S k /\
    map Returned (sleeps events) =
      map (fun j => exponential_backoff j (Num (Qc_of_Z 2)) (Num (Qc_of_Z 60))) (seq 0 k)
      ++ [Returned polygon_pause].
Proof.
  intros Hk Hbound Hdate Hlimited Hdata. unfold polygon_fetch_price. cbn zeta.
  destruct (pg_attempts_rate_limited polygon local_day (self_max_retries self)
              (remove_TW symbol) date close results k
              (Z.to_nat (self_max_retries self)) 0 d)
    as (events & E & H); [lia|lia|lia|exact Hdate| |exact Hdata|].
  { intros j Hj. apply Hlimited. lia. }
  exists events. split; [exact E|exact H].
Qed.

(** When every request raises and attempt 1024 is not the last one. *)
Lemma pg_attempts_overflow (polygon : PolygonApi) local_day max_retries clean_symbol date
    (n a : nat) :
  max_retries = Z.of_nat (a + n) -> (a <= 1024)%nat -> 1026 <= max_retries ->
  (forall j, (a <= j <= 1024)%nat -> polygon clean_symbol date j = PgRaises) ->
  snd (pg_attempts polygon local_day max_retries clean_symbol date (seq a n)) =
  Raised OverflowError.
Proof.
  intros Hmr. revert a Hmr. induction n as [|n IH]; intros a Hmr Ha Hmax Hraise; [lia|].
  cbn [seq pg_attempts]. cbn zeta. rewrite (Hraise a) by lia.
  destruct (le_lt_dec 1024 a) as [Hbig|Hsmall].
  - rewrite retry_or_give_up_overflows by lia. reflexivity.
  - destruct (retry_or_give_up_retries max_retries a) as (delay & _ & _ & ->);
      [lia|lia|].
    cbn [snd]. apply IH; [lia|lia|lia|].
    intros j Hj. apply Hraise. lia.
Qed.

(** X24. With [max_retries <= 1025], and whatever the services answer,
    [fetch_price] returns a record exactly when [max_retries >= 1], for
    both fetchers: with at least one attempt the loop ends on a [return]
    with a record and no exception escapes, and with [max_retries <= 0]
    no request is made and the call falls off the end of its loop,
    returning [None] instead of a record.  The bound matters: with
    [max_retries >= 1026] and a service that fails at every attempt,
    [OverflowError] escapes both fetchers. *)
Theorem fetch_price_returns_a_record_iff_it_may_try
    (yahoo : Yahoo) (polygon : PolygonApi) (local_day : Z -> string)
    (self : PolygonFetcher) (max_retries : Z) (symbol : string) (date : option string) :
  (max_retries <= 1025 ->
   ((exists r, snd (yfinance_fetch_price yahoo max_retries symbol date)
               = Returned (Some r)) <->
    1 <= max_retries)) /\
  (self_max_retries self <= 1025 ->
   ((exists r, snd (polygon_fetch_price polygon local_day self symbol date)
               = Returned (Some r)) <->
    1 <= self_max_retries self)) /\
  (max_retries <= 0 ->
   yfinance_fetch_price yahoo max_retries symbol date = ([], Returned None)) /\
  (self_max_retries self <= 0 ->
   polygon_fetch_price polygon local_day self symbol date = ([], Returned None)) /\
  (1026 <= max_retries ->
   (forall attempt, yahoo symbol date attempt = YfRaises) ->
   snd (yfinance_fetch_price yahoo max_retries symbol date) = Raised OverflowError) /\
  (1026 <= self_max_retries self ->
   (forall attempt, polygon (remove_TW symbol) date attempt = PgRaises) ->
   snd (polygon_fetch_price polygon local_day self symbol date) = Raised OverflowError).
Proof.
  assert (max_retries <= 0 ->
          yfinance_fetch_price yahoo max_retries symbol date = ([], Returned None)) as Hy.
  { intros H. unfold yfinance_fetch_price.
    replace (Z.to_nat max_retries) with 0%nat by lia. reflexivity. }
  assert (self_max_retries self <= 0 ->
          polygon_fetch_price polygon local_day self symbol date = ([], Returned None))
    as Hp.
  { intros H. unfold polygon_fetch_price. cbn zeta.
    replace (Z.to_nat (self_max_retries self)) with 0%nat by lia. reflexivity. }
  split; [|split; [|split; [exact Hy|split; [exact Hp|split]]]].
  - intros Hsmall. split.
    + intros [r Hr]. destruct (Z_lt_le_dec max_retries 1) as [Hlt|Hle]; [|exact Hle].
      rewrite Hy in Hr by lia. discriminate.
    + intros Hmax. unfold yfinance_fetch_price.
      destruct (yf_attempts_total yahoo max_retries symbol date (Z.to_nat max_retries) 0)
        as (events & r & E); [lia|lia|lia|].
      exists r. rewrite E. reflexivity.
  - intros Hsmall. split.
    + intros [r Hr].
      destruct (Z_lt_le_dec (self_max_retries self) 1) as [Hlt|Hle]; [|exact Hle].
      rewrite Hp in Hr by lia. discriminate.
    + intros Hmax. unfold polygon_fetch_price. cbn zeta.
      destruct (pg_attempts_bounded polygon local_day (self_max_retries self)
                  (remove_TW symbol) date (Z.to_nat (self_max_retries self)) 0)
        as (events & out & E & Hout & _); [lia|lia|lia|].
      rewrite E. cbn [snd]. destruct out as [[r|]|[]].
      * exists r. reflexivity.
      * destruct Hout.
      * lia.
  - intros Hbig Hraise. unfold yfinance_fetch_price.
    destruct (yf_attempts_overflow yahoo max_retries symbol date (Z.to_nat max_retries) 0)
      as (events & E & _); [lia|lia|lia| |].
    { intros j _. apply Hraise. }
    rewrite E. reflexivity.
  - intros Hbig Hraise. unfold polygon_fetch_price. cbn zeta.
    apply pg_attempts_overflow; [lia|lia|lia|].
    intros j _. apply Hraise.
Qed.

(** *** The choice of the fetcher *)

(** X25. [get_fetcher] called without a backend never raises: it returns
    a Polygon fetcher holding the key of the environment when
    [POLYGON_API_KEY] is set to a non-empty value, and a Yahoo Finance
    fetcher otherwise, both with three attempts.  Asked for the polygon
    backend without such a key, or for a backend other than yfinance and
    polygon, it raises [ValueError]. *)
Theorem get_fetcher_default_never_raises
    (getenv : string -> option string) (backend : string) :
  get_fetcher getenv None =
    Ok (match truthy (getenv "POLYGON_API_KEY") with
        | Some key => PolygonFetcherObject (mkPolygonFetcher key 3)
        | None => YFinanceFetcher 3
        end) /\
  (truthy (getenv "POLYGON_API_KEY") = None ->
   get_fetcher getenv (Some "polygon") = Raise ValueError) /\
  (backend <> "yfinance" -> backend <> "polygon" ->
   get_fetcher getenv (Some backend) = Raise ValueError).
Proof.
  unfold get_fetcher, determine_backend, polygon_init. cbn [truthy].
  split; [|split].
  - destruct (truthy (getenv "POLYGON_API_KEY")) as [key|] eqn:E.
    + rewrite decide_False by discriminate. rewrite decide_True by reflexivity.
      reflexivity.
    + rewrite decide_True by reflexivity. reflexivity.
  - intros ->. rewrite decide_False by discriminate.
    rewrite decide_True by reflexivity. reflexivity.
  - intros H1 H2. rewrite decide_False by exact H1. rewrite decide_False by exact H2.
    reflexivity.
Qed.
(** ** Ranges of the historical value at risk and of the variance *)

Lemma this_Qc_of_Z (z : Z) : (this (Qc_of_Z z) == inject_Z z)%Q.
Proof. apply Qeq_refl. Qed.

Lemma Qfloor_nonneg (x : Q) : (0 <= x)%Q -> 0 <= Qfloor x.
Proof.
  intros H. apply Qfloor_resp_le in H. change 0%Q with (inject_Z 0) in H.
  rewrite Qfloor_Z in H. exact H.
Qed.

(** The fraction used for the interpolation between two order statistics. *)
Lemma interpolation_fraction (pos : Qc) :
  (0 <= pos)%Qc ->
  (0 <= pos - Qc_of_nat (Z.to_nat (Qfloor (this pos))) /\
   pos - Qc_of_nat (Z.to_nat (Qfloor (this pos))) <= 1)%Qc.
Proof.
  intros Hpos. unfold Qc_of_nat.
  assert (0 <= Qfloor (this pos)) as Hfloor by (apply Qfloor_nonneg; exact Hpos).
  rewrite Z2Nat.id by exact Hfloor.
  pose proof (Qfloor_le (this pos)) as Hle.
  pose proof (Qlt_floor (this pos)) as Hlt.
  rewrite inject_Z_plus in Hlt. change (inject_Z 1) with 1%Q in Hlt.
  pose proof (this_Qc_of_Z (Qfloor (this pos))) as E.
  unfold Qcle, Qcminus, Qcplus, Qcopp. cbn [this Q2Qc].
  rewrite !Qred_correct. rewrite E.
  change (this 0%Qc) with 0%Q. change (this 1%Qc) with 1%Q. split; lra.
Qed.

Lemma Qc_mult_nonneg (a b : Qc) : (0 <= a)%Qc -> (0 <= b)%Qc -> (0 <= a * b)%Qc.
Proof. intros Ha Hb. to_Q. change (this 0%Qc) with 0%Q in *. nra. Qed.

Lemma lower_index_in_range (q : Qc) (n : nat) :
  (0 <= q)%Qc -> (q <= 1)%Qc -> (1 <= n)%nat ->
  (0 <= q * Qc_of_nat (n - 1))%Qc /\
  (Z.to_nat (Qfloor (this (q * Qc_of_nat (n - 1))%Qc)) <= n - 1)%nat.
Proof.
  intros H0 H1 Hn.
  assert (0 <= Qc_of_nat (n - 1))%Qc as Hn0.
  { unfold Qc_of_nat. rewrite <- Z2Qc_inj_0. apply Qc_of_Z_le. lia. }
  assert (0 <= q * Qc_of_nat (n - 1))%Qc as Hpos.
  { apply Qc_mult_nonneg; assumption. }
  split; [exact Hpos|].
  assert (q * Qc_of_nat (n - 1) <= Qc_of_nat (n - 1))%Qc as Hle.
  { rewrite <- (Qcmult_1_l (Qc_of_nat (n - 1))) at 2.
    apply Qcmult_le_compat_r; assumption. }
  assert (Qfloor (this (q * Qc_of_nat (n - 1))%Qc) <= Z.of_nat (n - 1)) as Hfloor.
  { unfold Qcle in Hle. apply Qfloor_resp_le in Hle.
    unfold Qc_of_nat in Hle at 2. rewrite (Qfloor_comp _ _ (this_Qc_of_Z _)) in Hle.
    rewrite Qfloor_Z in Hle. exact Hle. }
  lia.
Qed.

Lemma interpolation_within (a b g m M : Qc) :
  (0 <= g)%Qc -> (g <= 1)%Qc ->
  (m <= a)%Qc -> (a <= M)%Qc -> (m <= b)%Qc -> (b <= M)%Qc ->
  (m <= a + (b - a) * g /\ a + (b - a) * g <= M)%Qc.
Proof.
  intros Hg0 Hg1 Hma HaM Hmb HbM. to_Q.
  change (this 0%Qc) with 0%Q in *. change (this 1%Qc) with 1%Q in *.
  split; nra.
Qed.

(** A quantile of a column of finite cells lies within the range of the
    column. *)
Lemma pd_quantile_within (q : Qc) (qs : list Qc) (m M : Qc) :
  (0 <= q)%Qc -> (q <= 1)%Qc -> qs <> [] ->
  Forall (fun x => (m <= x)%Qc /\ (x <= M)%Qc) qs ->
  exists v, pd_quantile q (map Num qs) = Num v /\ (m <= v)%Qc /\ (v <= M)%Qc.
Proof.
  intros H0 H1 Hne Hrange. unfold pd_quantile. rewrite valid_finite.
  set (vs := sort_by fle (map Num qs)).
  assert (vs ≡ₚ map Num qs) as Hperm by apply sort_by_perm.
  assert (length vs = length qs) as Hlen.
  { rewrite (Permutation_length Hperm). apply length_map. }
  assert (Forall (fun x => exists a, x = Num a /\ (m <= a)%Qc /\ (a <= M)%Qc) vs) as Hvs.
  { rewrite Hperm. rewrite Forall_map. eapply Forall_impl; [exact Hrange|].
    intros a Ha. exists a. split; [reflexivity|exact Ha]. }
  assert (1 <= length vs)%nat as Hn.
  { rewrite Hlen. destruct qs; [congruence|cbn; lia]. }
  destruct vs as [|v0 vr] eqn:Evs; [cbn in Hn; lia|]. rewrite <- Evs in *. cbn zeta.
  destruct (lower_index_in_range q (length vs) H0 H1 Hn) as [Hpos Hlo].
  set (pos := (q * Qc_of_nat (length vs - 1))%Qc) in *.
  set (lo := Z.to_nat (Qfloor (this pos))) in *.
  destruct (interpolation_fraction pos Hpos) as [Hg0 Hg1]. fold lo in Hg0, Hg1.
  destruct (lookup_lt_is_Some_2 vs lo ltac:(lia)) as [x Hx].
  destruct (lookup_lt_is_Some_2 vs (Nat.min (S lo) (length vs - 1)) ltac:(lia))
    as [y Hy].
  rewrite (nth_lookup_Some _ _ _ _ Hx), (nth_lookup_Some _ _ _ _ Hy).
  destruct (Forall_lookup_1 _ _ _ _ Hvs Hx) as (a & -> & Hma & HaM).
  destruct (Forall_lookup_1 _ _ _ _ Hvs Hy) as (b & -> & Hmb & HbM).
  cbn [fsub fmul fadd]. eexists. split; [reflexivity|].
  apply interpolation_within; assumption.
Qed.

(** X26. For a column of finite returns with at least one row and a
    confidence level between 0 and 1, the historical value at risk of the
    symbol is a number within the range of the column: it is not below
    any lower bound of the observed returns and not above any upper
    bound. *)
Theorem historical_var_within_observed_range
    (h : heap) (returns : loc) (df : DataFrame) (confidence_level : Qc)
    (symbol : string) (qs : list Qc) (m M : Qc) :
  frames h !! returns = Some df ->
  assoc_get symbol (columns df) = Some (map Num qs) ->
  qs <> [] ->
  (0 <= confidence_level)%Qc -> (confidence_level <= 1)%Qc ->
  Forall (fun x => (m <= x)%Qc /\ (x <= M)%Qc) qs ->
  exists var v,
    eval (calculate_value_at_risk returns (Num confidence_level) "historical") h
      = Ok var /\
    sr_get var (Sym symbol) = Num v /\
    (m <= v)%Qc /\ (v <= M)%Qc.
Proof.
  intros H Hcol Hne Hc0 Hc1 Hrange. unfold eval.
  rewrite (calculate_value_at_risk_historical _ _ _ _ H). cbn [fst fsub df_quantile].
  assert (0 <= 1 - confidence_level /\ 1 - confidence_level <= 1)%Qc as [Hq0 Hq1].
  { clear -Hc0 Hc1. to_Q. change (this 0%Qc) with 0%Q in *.
    change (this 1%Qc) with 1%Q in *. split; lra. }
  assert (Qc_leb 0 (1 - confidence_level) = true) as -> by (apply Qc_leb_le, Hq0).
  assert (Qc_leb (1 - confidence_level) 1 = true) as -> by (apply Qc_leb_le, Hq1).
  cbn [andb].
  destruct (pd_quantile_within _ qs m M Hq0 Hq1 Hne Hrange) as (v & Hv & Hmv & HvM).
  eexists. exists v. split; [reflexivity|].
  rewrite sr_get_df_reduce, Hcol. split; [exact Hv|]. split; assumption.
Qed.

(** *** Variance *)

Lemma sum_nonneg (a : Qc) (l : list Qc) :
  (0 <= a)%Qc -> Forall (fun x => (0 <= x)%Qc) l -> (0 <= foldl Qcplus a l)%Qc.
Proof.
  intros Ha Hl. revert a Ha. induction Hl as [|x r Hx _ IH]; intros a Ha; [exact Ha|].
  cbn [foldl]. apply IH.
  clear -Ha Hx. to_Q. change (this 0%Qc) with 0%Q in *. lra.
Qed.

Lemma square_nonneg (x : Qc) : (0 <= x * x)%Qc.
Proof. to_Q. change (this 0%Qc) with 0%Q. nra. Qed.

Lemma Qc_of_nat_neq_0 (n : nat) : (0 < n)%nat -> Qc_eqb (Qc_of_nat n) 0 = false.
Proof. intros H. apply Qc_pos_neq_0, Qc_of_nat_pos, H. Qed.

Lemma Qc_div_nonneg (s n : Qc) : (0 <= s)%Qc -> (0 < n)%Qc -> (0 <= s / n)%Qc.
Proof.
  intros Hs Hn. to_Q. change (this 0%Qc) with 0%Q in *.
  apply Qle_shift_div_l; [exact Hn|]. lra.
Qed.

Lemma pd_var_finite (qs : list Qc) :
  (2 <= length qs)%nat ->
  exists v, pd_var (map Num qs) = Num v /\ (0 <= v)%Qc.
Proof.
  intros Hlen. unfold pd_var. rewrite valid_finite, length_map.
  assert ((length qs <=? 1)%nat = false) as -> by (apply Nat.leb_gt; lia).
  unfold fsum. rewrite fsum_from_finite. unfold float_of_nat. cbn [fdiv].
  rewrite Qc_of_nat_neq_0 by lia.
  set (avg := (foldl Qcplus 0 qs / Qc_of_nat (length qs))%Qc).
  assert (map (fun x => fsquare (fsub x (Num avg))) (map Num qs) =
          map Num (map (fun q => ((q - avg) * (q - avg))%Qc) qs)) as ->.
  { rewrite !map_map. reflexivity. }
  rewrite fsum_from_finite. cbn [fdiv]. rewrite Qc_of_nat_neq_0 by lia.
  eexists. split; [reflexivity|].
  assert (0 <= foldl Qcplus 0 (map (fun q => ((q - avg) * (q - avg))%Qc) qs))%Qc as Hsum.
  { apply sum_nonneg; [apply Qcle_refl|]. rewrite Forall_map. apply Forall_forall.
    intros q _. apply square_nonneg. }
  assert (0 < Qc_of_nat (length qs - 1))%Qc as Hn by (apply Qc_of_nat_pos; lia).
  apply Qc_div_nonneg; assumption.
Qed.

(** X27. For a column of at least two finite returns, the variance
    returned by [calculate_variance] is a non-negative number, annualized
    (with a non-negative number of trading days) or not. *)
Theorem variance_is_nonnegative
    (h : heap) (returns : loc) (df : DataFrame) (annualize : bool) (trading_days : Z)
    (symbol : string) (qs : list Qc) :
  frames h !! returns = Some df ->
  assoc_get symbol (columns df) = Some (map Num qs) ->
  (2 <= length qs)%nat ->
  0 <= trading_days ->
  exists variance v,
    eval (calculate_variance returns annualize trading_days) h = Ok variance /\
    sr_get variance (Sym symbol) = Num v /\
    (0 <= v)%Qc.
Proof.
  intros H Hcol Hlen Hdays. unfold eval.
  rewrite (calculate_variance_run _ _ _ _ _ H). cbn [fst].
  destruct (pd_var_finite qs Hlen) as (v & Hv & Hv0).
  assert (symbol ∈ col_names df) as Hin.
  { apply assoc_get_elem in Hcol. unfold col_names. apply list_elem_of_fmap.
    exists (symbol, map Num qs). split; [reflexivity|exact Hcol]. }
  destruct annualize.
  - eexists. eexists. split; [reflexivity|]. unfold scale.
    rewrite sr_get_map.
    2:{ rewrite sr_index_reduce. apply list_elem_of_fmap.
        exists symbol. split; [reflexivity|exact Hin]. }
    rewrite sr_get_df_reduce, Hcol, Hv. unfold float_of_Z. cbn [fmul].
    split; [reflexivity|].
    apply Qc_mult_nonneg; [exact Hv0|].
    rewrite <- Z2Qc_inj_0. apply Qc_of_Z_le, Hdays.
  - eexists. exists v. split; [reflexivity|].
    rewrite sr_get_df_reduce, Hcol. split; [exact Hv|exact Hv0].
Qed.
(** ** The currency converter *)

Lemma _exponential_backoff_cases (attempt : nat) (base_delay : Qc) :
  ((attempt <= 1023)%nat /\
   exists delay,
     _exponential_backoff attempt (Num base_delay) (Num (Qc_of_Z 60)) = Returned delay) \/
  ((1024 <= attempt)%nat /\
   forall base max, _exponential_backoff attempt base max = Raised OverflowError).
Proof.
  destruct (exponential_backoff_cases attempt base_delay)
    as [[H (delay & E & _)]|[H E]]; [left|right].
  - split; [exact H|]. exists delay. exact E.
  - split; [exact H|]. exact E.
Qed.

Lemma rate_retry_or_give_up_retries (max_retries : Z) (attempt : nat) :
  Z.of_nat attempt < max_retries - 1 -> (attempt <= 1023)%nat ->
  exists delay,
    forall request cache next,
      rate_retry_or_give_up max_retries attempt request cache next =
      (request :: RateSleep delay :: fst (fst next), snd (fst next), snd next).
Proof.
  intros Hlt Hsmall.
  destruct (_exponential_backoff_cases attempt 1%Qc) as [[_ (delay & E)]|[H _]]; [|lia].
  exists delay. intros request cache next. unfold rate_retry_or_give_up.
  rewrite (proj2 (Z.ltb_lt _ _) Hlt), E. reflexivity.
Qed.

Lemma rate_retry_or_give_up_gives_up (max_retries : Z) (attempt : nat) request cache next :
  max_retries - 1 <= Z.of_nat attempt ->
  rate_retry_or_give_up max_retries attempt request cache next =
  ([request], Returned None, cache).
Proof.
  intros H. unfold rate_retry_or_give_up. rewrite (proj2 (Z.ltb_ge _ _) H). reflexivity.
Qed.

Lemma rate_attempts_cache (api : RateApi) max_retries from_currency to_currency cache
    attempts :
  let result := rate_attempts api max_retries from_currency to_currency cache attempts in
  match snd (fst result) with
  | Returned (Some rate) =>
      snd result = <[cache_key from_currency to_currency := rate]> cache
  | _ => snd result = cache
  end.
Proof.
  cbn zeta. induction attempts as [|attempt rest IH]; [reflexivity|].
  cbn [rate_attempts]. cbn zeta.
  set (next := rate_attempts api max_retries from_currency to_currency cache rest) in *.
  set (request := RateRequest from_currency).
  assert (match snd (fst (rate_retry_or_give_up max_retries attempt request cache next))
          with
          | Returned (Some rate) =>
              snd (rate_retry_or_give_up max_retries attempt request cache next) =
              <[cache_key from_currency to_currency := rate]> cache
          | _ => snd (rate_retry_or_give_up max_retries attempt request cache next) = cache
          end) as Hhandler.
  { unfold rate_retry_or_give_up.
    destruct (Z.of_nat attempt <? max_retries - 1); [|reflexivity].
    destruct (_exponential_backoff attempt (Num 1%Qc) (Num (Qc_of_Z 60)));
      [cbn [fst snd]; exact IH|reflexivity]. }
  destruct (api from_currency attempt) as [| |rates].
  - exact Hhandler.
  - destruct (Z.of_nat attempt <? max_retries - 1); [|reflexivity].
    destruct (_exponential_backoff attempt (Num (Qc_of_Z 2)) (Num (Qc_of_Z 60)));
      [cbn [fst snd]; exact IH|exact Hhandler].
  - destruct (assoc_get to_currency rates) as [rate|]; [|reflexivity].
    destruct (float_truthy rate); reflexivity.
Qed.

(** X28. [get_rate] for two different currencies changes the cache only
    by recording the rate it returns: when it returns no rate (or raises)
    the cache is as before, and when it returns a rate the cache holds
    that rate under the pair's key (and is otherwise as before), so that
    every later [get_rate] for the pair returns the same rate without any
    request, whatever the service then answers. *)
Theorem get_rate_caches_what_it_returns
    (api : RateApi) (cache : gmap string float) (from_currency to_currency : string)
    (max_retries : Z) (events : list rate_event) (r : outcome (option float))
    (cache' : gmap string float) :
  from_currency <> to_currency ->
  get_rate api cache from_currency to_currency max_retries = (events, r, cache') ->
  match r with
  | Returned (Some rate) =>
      (cache' = cache \/ cache' = <[cache_key from_currency to_currency := rate]> cache) /\
      cache' !! cache_key from_currency to_currency = Some rate /\
      forall (api' : RateApi) (max_retries' : Z),
        get_rate api' cache' from_currency to_currency max_retries'
        = ([], Returned (Some rate), cache')
  | Returned None => cache' = cache
  | Raised _ => cache' = cache
  end.
Proof.
  intros Hne Hget. unfold get_rate in Hget. rewrite decide_False in Hget by exact Hne.
  assert (forall rate, cache' !! cache_key from_currency to_currency = Some rate ->
            forall (api' : RateApi) (max_retries' : Z),
              get_rate api' cache' from_currency to_currency max_retries'
              = ([], Returned (Some rate), cache')) as Hlater.
  { intros rate Hrate api' max_retries'. unfold get_rate.
    rewrite decide_False by exact Hne. rewrite Hrate. reflexivity. }
  destruct (cache !! cache_key from_currency to_currency) as [rate|] eqn:Ecache.
  - inversion Hget; subst. split; [left; reflexivity|]. split; [exact Ecache|].
    apply Hlater, Ecache.
  - pose proof (rate_attempts_cache api max_retries from_currency to_currency cache
                  (seq 0 (Z.to_nat max_retries))) as Hcache.
    cbn zeta in Hcache. rewrite Hget in Hcache. cbn [fst snd] in Hcache.
    destruct r as [[rate|]|e]; [|exact Hcache|exact Hcache].
    subst cache'. split; [right; reflexivity|].
    split; [apply lookup_insert_eq|]. apply Hlater, lookup_insert_eq.
Qed.

Lemma rate_attempts_all_fail (api : RateApi) max_retries from_currency to_currency cache
    (n a : nat) :
  max_retries = Z.of_nat (a + n) -> (1 <= n)%nat -> max_retries <= 1025 ->
  (forall j, (a <= j < a + n)%nat ->
             api from_currency j = RateRaises \/ api from_currency j = RateLimited) ->
  exists events,
    rate_attempts api max_retries from_currency to_currency cache (seq a n)
      = (events, Returned None, cache) /\
    rate_requests events = replicate n from_currency.
Proof.
  intros Hmr. revert a Hmr. induction n as [|n IH]; intros a Hmr Hn Hmax Hfail; [lia|].
  cbn [seq rate_attempts]. cbn zeta.
  destruct n as [|n].
  - rewrite rate_retry_or_give_up_gives_up by lia.
    rewrite (proj2 (Z.ltb_ge (Z.of_nat a) (max_retries - 1))) by lia.
    destruct (Hfail a ltac:(lia)) as [-> | ->]; eexists; split; reflexivity.
  - destruct (rate_retry_or_give_up_retries max_retries a) as (delay & ->); [lia|lia|].
    rewrite (proj2 (Z.ltb_lt (Z.of_nat a) (max_retries - 1))) by lia.
    destruct (_exponential_backoff_cases a (Qc_of_Z 2)) as [[_ (delay2 & ->)]|[Hb _]];
      [|lia].
    destruct (IH (S a)) as (events & E & Hreq); [lia|lia|lia| |].
    { intros j Hj. apply Hfail. lia. }
    rewrite E. cbn [fst snd].
    destruct (Hfail a ltac:(lia)) as [-> | ->];
      (eexists; split; [reflexivity|];
       unfold rate_requests in *; cbn [omap list_omap]; rewrite Hreq; reflexivity).
Qed.

(** With at most 1025 attempts no delay overflows: the loop returns. *)
Lemma rate_attempts_returns (api : RateApi) max_retries from_currency to_currency cache
    (n a : nat) :
  max_retries = Z.of_nat (a + n) -> max_retries <= 1025 ->
  exists events r cache',
    rate_attempts api max_retries from_currency to_currency cache (seq a n)
      = (events, Returned r, cache').
Proof.
  intros Hmr. revert a Hmr. induction n as [|n IH]; intros a Hmr Hmax.
  - eexists. eexists. eexists. reflexivity.
  - cbn [seq rate_attempts]. cbn zeta.
    destruct (IH (S a)) as (events & r & cache' & E); [lia|lia|].
    assert (exists events r cache',
              rate_retry_or_give_up max_retries a (RateRequest from_currency) cache
                (rate_attempts api max_retries from_currency to_currency cache
                               (seq (S a) n)) = (events, Returned r, cache')) as Hhandler.
    { destruct (Z_lt_le_dec (Z.of_nat a) (max_retries - 1)) as [Hlt|Hge].
      - destruct (rate_retry_or_give_up_retries max_retries a) as (delay & ->);
          [lia|lia|].
        rewrite E. eexists. eexists. eexists. reflexivity.
      - rewrite rate_retry_or_give_up_gives_up by lia.
        eexists. eexists. eexists. reflexivity. }
    destruct (api from_currency a) as [| |rates].
    + exact Hhandler.
    + destruct (Z.of_nat a <? max_retries - 1);
        [|eexists; eexists; eexists; reflexivity].
      destruct (_exponential_backoff a (Num (Qc_of_Z 2)) (Num (Qc_of_Z 60)));
        [|exact Hhandler].
      rewrite E. eexists. eexists. eexists. reflexivity.
    + destruct (assoc_get to_currency rates) as [rate|];
        [|eexists; eexists; eexists; reflexivity].
      destruct (float_truthy rate); eexists; eexists; eexists; reflexivity.
Qed.

(** X29. [convert] never loses the price.  A missing price stays missing
    and a price in the target currency is returned as it is, both without
    any request and whatever the service and the cache.  A price in
    another currency always comes back as a price: [convert] does not
    raise and does not return [None], whatever the service answers.  And
    when the three attempts to get the rate all fail (exception or status
    429) with nothing cached, the price is returned unconverted after
    exactly three requests and with the cache unchanged. *)
Theorem convert_falls_back_to_the_price
    (api : RateApi) (cache : gmap string float) (p : float)
    (from_currency to_currency : string) :
  convert api cache None from_currency to_currency = ([], Returned None, cache) /\
  convert api cache (Some p) from_currency from_currency = ([], Returned (Some p), cache) /\
  (exists events q cache',
     convert api cache (Some p) from_currency to_currency
     = (events, Returned (Some q), cache')) /\
  (from_currency <> to_currency ->
   cache !! cache_key from_currency to_currency = None ->
   (forall attempt, (attempt < 3)%nat ->
      api from_currency attempt = RateRaises \/ api from_currency attempt = RateLimited) ->
   exists events,
     convert api cache (Some p) from_currency to_currency
     = (events, Returned (Some p), cache) /\
     rate_requests events = [from_currency; from_currency; from_currency]).
Proof.
  split; [reflexivity|]. split; [|split].
  - unfold convert. rewrite decide_True by reflexivity. reflexivity.
  - unfold convert, get_rate.
    destruct (decide (from_currency = to_currency)) as [Heq|Hne];
      [eexists; eexists; eexists; reflexivity|].
    cbn zeta.
    destruct (cache !! cache_key from_currency to_currency) as [rate|];
      [eexists; eexists; eexists; reflexivity|].
    destruct (rate_attempts_returns api 3 from_currency to_currency cache 3 0)
      as (events & r & cache' & E); [lia|lia|].
    change (Z.to_nat 3) with 3%nat. rewrite E.
    eexists. eexists. eexists. reflexivity.
  - intros Hne Hcache Hfail.
    destruct (rate_attempts_all_fail api 3 from_currency to_currency cache 3 0)
      as (events & E & Hreq); [lia|lia|lia| |].
    { intros j Hj. apply Hfail. lia. }
    exists events. split; [|exact Hreq].
    unfold convert, get_rate. rewrite !decide_False by exact Hne.
    rewrite Hcache. cbn zeta.
    change (Z.to_nat 3) with 3%nat. rewrite E. reflexivity.
Qed.
(** ** From the fetched prices to the returns *)

Lemma price_data_nonempty fetcher dates symbols :
  symbols <> [] -> price_data fetcher dates symbols [] <> [].
Proof.
  intros Hne Hempty. destruct symbols as [|s r]; [congruence|].
  assert (s ∈ map fst (price_data fetcher dates (s :: r) [])) as Hin.
  { apply price_data_keys. left. left. }
  rewrite Hempty in Hin. apply elem_of_nil in Hin. exact Hin.
Qed.

Lemma assoc_get_NoDup {A} k (v : A) (l : list (string * A)) :
  NoDup (map fst l) -> (k, v) ∈ l -> assoc_get k l = Some v.
Proof.
  induction l as [|[k0 v0] r IH]; intros Hnd Hin; [apply elem_of_nil in Hin; contradiction|].
  cbn in Hnd. inversion Hnd as [|? ? Hk Hnd']; subst.
  apply elem_of_cons in Hin as [Heq|Hin]; cbn.
  - inversion Heq; subst. rewrite decide_True by reflexivity. reflexivity.
  - rewrite decide_False; [apply IH; assumption|].
    intros ->. apply Hk. apply list_elem_of_fmap. exists (k, v). split; [reflexivity|exact Hin].
Qed.

(** The simple returns of a rectangular table. *)
Lemma returns_have_no_missing_cell_frames h prices df :
  frames h !! prices = Some df ->
  rectangular df -> columns df <> [] ->
  exists l h' out,
    calculate_returns prices "simple" h = (Ok l, h') /\
    frames h !! l = None /\
    frames h' = <[l := out]> (frames h) /\
    col_names out = col_names df /\
    Forall (fun c => Forall (fun x => x <> NaN) (snd c)) (columns out) /\
    index out `sublist_of` tail (index df) /\
    fetch_log h' = fetch_log h.
Proof.
  intros H Hrect Hne.
  rewrite (calculate_returns_simple_run _ _ _ H), pct_change_columns.
  unfold alloc. eexists. eexists. eexists. split; [reflexivity|]. cbn [frames fetch_log].
  split; [apply fresh_not_allocated|]. split; [reflexivity|].
  destruct (returns_frame_properties df
              (fun xs => map (fun x => fsub x (Num 1%Qc))
                             (zip_with fdiv (pd_ffill xs) (pd_shift (pd_ffill xs))))
              Hrect Hne) as (Hnames & _ & Hmissing & Hidx).
  - intros xs. rewrite length_shifted_ratio. unfold pd_ffill. apply length_ffill_from.
  - intros xs. apply hd_shifted_ratio. reflexivity.
  - split; [exact Hnames|]. split; [exact Hmissing|]. split; [exact Hidx|reflexivity].
Qed.

(** X30. The first two steps of [main] compose: when every requested
    symbol (there is at least one) gets a price on at least one date of
    the daily grid, fetching the prices and computing their simple returns
    gives two distinct new tables; the price table has no missing cell,
    and the returns table has the same columns (the requested symbols), no
    missing cell, and rows among the dates after the first one.  One call
    to the fetcher was made per symbol and date, all of them by the first
    step. *)
Theorem fetched_prices_give_returns_without_gaps
    (h : heap) (fetcher : Fetcher) (symbols : list string) (start_date end_date : Z) :
  symbols <> [] ->
  (forall s, s ∈ symbols ->
     exists d, d ∈ dates_of start_date end_date 1 /\ price_of (fetcher s d) <> NaN) ->
  exists prices returns h' dfp dfr,
    fetch_prices_and_returns fetcher symbols start_date end_date h
      = (Ok (prices, returns), h') /\
    prices <> returns /\
    frames h !! prices = None /\ frames h !! returns = None /\
    frames h' !! prices = Some dfp /\
    frames h' !! returns = Some dfr /\
    Forall (fun c => Forall (fun x => x <> NaN) (snd c)) (columns dfp) /\
    Forall (fun c => Forall (fun x => x <> NaN) (snd c)) (columns dfr) /\
    col_names dfr = col_names dfp /\
    (forall s, s ∈ col_names dfr <-> s ∈ symbols) /\
    index dfr `sublist_of` tail (map Date (dates_of start_date end_date 1)) /\
    fetch_log h' = fetch_log h ++ fetch_calls symbols (dates_of start_date end_date 1).
Proof.
  intros Hne Hprices. unfold fetch_prices_and_returns.
  set (dates := dates_of start_date end_date 1) in *.
  set (dfp := df_map pd_bfill
                (df_map pd_ffill
                   (mkDataFrame (map Date dates) (price_data fetcher dates symbols [])))).
  set (prices := fresh (dom (frames h))).
  set (h1 := mkHeap (self_risk_free_rate h) (<[prices := dfp]> (frames h))
                    (fetch_log h ++ fetch_calls symbols dates)).
  assert (fetch_historical_data fetcher symbols start_date (Some end_date) "daily" h
          = (Ok prices, h1)) as Efetch.
  { rewrite (fetch_historical_data_run h fetcher symbols start_date (Some end_date)
               "daily" 1 eq_refl).
    reflexivity. }
  rewrite (bind_ok _ _ _ _ _ Efetch).
  assert (frames h1 !! prices = Some dfp) as Hp1 by apply lookup_insert_eq.
  assert (rectangular dfp) as Hrect.
  { unfold rectangular, dfp, nrows. cbn [index columns df_map].
    rewrite !Forall_map. cbn [snd].
    eapply Forall_impl; [apply (price_data_lengths fetcher dates symbols []); constructor|].
    intros c Hc. cbn in Hc.
    rewrite pd_bfill_bfill_to, length_bfill_to. unfold pd_ffill.
    rewrite length_ffill_from, length_map. exact Hc. }
  assert (columns dfp <> []) as Hcols.
  { unfold dfp. cbn [columns df_map]. intros E.
    apply (price_data_nonempty fetcher dates symbols Hne).
    destruct (price_data fetcher dates symbols []); [reflexivity|discriminate]. }
  destruct (returns_have_no_missing_cell_frames h1 prices dfp Hp1 Hrect Hcols)
    as (returns & h' & dfr & Eret & Hfresh & Hframes & Hnames & Hmissing & Hidx & Hlog).
  erewrite bind_ok by exact Eret.
  exists prices, returns, h', dfp, dfr. split; [reflexivity|].
  assert (prices <> returns) as Hdiff.
  { intros E. rewrite <- E, Hp1 in Hfresh. discriminate. }
  split; [exact Hdiff|]. split; [apply fresh_not_allocated|].
  split.
  { cbn [frames h1] in Hfresh. rewrite lookup_insert_ne in Hfresh by exact Hdiff.
    exact Hfresh. }
  split; [rewrite Hframes, lookup_insert_ne by congruence; exact Hp1|].
  split; [rewrite Hframes; apply lookup_insert_eq|].
  assert (forall s, s ∈ col_names dfp <-> s ∈ symbols) as Hsyms.
  { intros s. unfold col_names, dfp. cbn [columns df_map]. rewrite !map_map. cbn [fst].
    rewrite (price_data_keys fetcher dates symbols [] s). cbn.
    rewrite elem_of_nil. propositional. }
  split.
  { unfold dfp. cbn [columns df_map]. rewrite !Forall_map. cbn [snd].
    apply Forall_forall. intros [s xs] Hin. cbn [snd].
    assert (s ∈ symbols) as Hs.
    { assert (s ∈ map fst (price_data fetcher dates symbols [])) as Hkey.
      { apply list_elem_of_fmap. exists (s, xs). split; [reflexivity|exact Hin]. }
      apply price_data_keys in Hkey as [Hs|Hs]; [exact Hs|].
      apply elem_of_nil in Hs. contradiction. }
    assert (xs = fetched_prices fetcher dates s) as ->.
    { assert (assoc_get s (price_data fetcher dates symbols []) = Some xs) as Hget.
      { apply assoc_get_NoDup; [|exact Hin].
        apply (price_data_NoDup fetcher dates symbols []). constructor. }
      rewrite price_data_get, decide_True in Hget by exact Hs. congruence. }
    apply filled_no_gap. destruct (Hprices s Hs) as (d & Hd & Hp).
    exists (price_of (fetcher s d)). split; [|exact Hp].
    unfold fetched_prices. apply list_elem_of_fmap. exists d. split; [reflexivity|exact Hd]. }
  split; [exact Hmissing|]. split; [exact Hnames|].
  split; [intros s; rewrite Hnames; apply Hsyms|].
  split; [exact Hidx|]. rewrite Hlog. reflexivity.
Qed.

End Analyzer.

(** ** The claims on the example data *)

Lemma invalid_arguments_raise_value_error_witness :
  ("hourly" <> "daily" /\ "hourly" <> "weekly" /\ "hourly" <> "monthly" /\
   "geometric" <> "simple" /\ "geometric" <> "log" /\
   "montecarlo" <> "historical" /\ "montecarlo" <> "parametric") /\
  (fetch_historical_data 738888 no_fetcher ["A"; "B"] 738886 None "hourly" example_heap
     = (Raise ValueError, example_heap) /\
   calculate_returns example_ln 0%nat "geometric" example_heap
     = (Raise ValueError, example_heap) /\
   calculate_value_at_risk example_sqrt example_norm_ppf 1%nat confidence_95
     "montecarlo" example_heap = (Raise ValueError, example_heap)).
Proof.
  split; [repeat split; discriminate|].
  apply (invalid_arguments_raise_value_error example_sqrt example_ln example_norm_ppf
           738888 no_fetcher ["A"; "B"] 738886 None "hourly" 0%nat "geometric"
           1%nat confidence_95 "montecarlo" example_heap); discriminate.
Defined.

Lemma conditional_var_tail_mean_or_threshold_witness :
  let var := df_reduce (pd_quantile (1 - Q2Qc (95 # 100))%Qc) example_returns in
  let xs := [Num (Q2Qc (1 # 10)); Num (Q2Qc (1 # 10))] in
  (frames example_heap !! 1%nat = Some example_returns /\
   assoc_get "A" (columns example_returns) = Some xs /\
   length xs = nrows example_returns /\
   eval (calculate_value_at_risk example_sqrt example_norm_ppf 1%nat confidence_95
           "historical") example_heap = Ok var) /\
  exists cvar,
    eval (calculate_conditional_var 1%nat confidence_95) example_heap = Ok cvar /\
    let threshold := sr_get var (Sym "A") in
    let tail_returns := filter (fun x => fle x threshold) xs in
    (tail_returns = [] -> sr_get cvar (Sym "A") = threshold) /\
    (tail_returns <> [] ->
     sr_get cvar (Sym "A") =
     fdiv (fsum tail_returns) (float_of_nat (length tail_returns))).
Proof.
  cbn zeta. split; [repeat split; reflexivity|].
  apply (conditional_var_tail_mean_or_threshold example_sqrt example_norm_ppf
           example_heap 1%nat example_returns confidence_95 "A"); reflexivity.
Defined.

Lemma conditional_var_le_value_at_risk_witness :
  let var := df_reduce (pd_quantile (1 - Q2Qc (95 # 100))%Qc) example_returns in
  let xs := [Num (Q2Qc (-1 # 2)); Num (Q2Qc (1 # 2))] in
  (frames example_heap !! 1%nat = Some example_returns /\
   assoc_get "B" (columns example_returns) = Some xs /\
   length xs = nrows example_returns /\
   Forall is_finite_or_nan xs /\
   eval (calculate_value_at_risk example_sqrt example_norm_ppf 1%nat confidence_95
           "historical") example_heap = Ok var /\
   (exists x, x ∈ xs /\ flt x (sr_get var (Sym "B")) = true)) /\
  exists cvar,
    eval (calculate_conditional_var 1%nat confidence_95) example_heap = Ok cvar /\
    fle (sr_get cvar (Sym "B")) (sr_get var (Sym "B")) = true.
Proof.
  cbn zeta.
  assert (exists x, x ∈ [Num (Q2Qc (-1 # 2)); Num (Q2Qc (1 # 2))] /\
                    flt x (sr_get (df_reduce (pd_quantile (1 - Q2Qc (95 # 100))%Qc)
                                     example_returns) (Sym "B")) = true) as Hbelow.
  { exists (Num (Q2Qc (-1 # 2))). split; [left|vm_compute; reflexivity]. }
  assert (Forall is_finite_or_nan [Num (Q2Qc (-1 # 2)); Num (Q2Qc (1 # 2))]) as Hfin.
  { repeat constructor. }
  split; [repeat split; try reflexivity; assumption|].
  apply (conditional_var_le_value_at_risk example_sqrt example_norm_ppf
           example_heap 1%nat example_returns "B"
           [Num (Q2Qc (-1 # 2)); Num (Q2Qc (1 # 2))]);
    try reflexivity; assumption.
Defined.

Lemma max_drawdown_nonpositive_witness :
  (frames example_heap !! 0%nat = Some (finite_frame example_dates example_price_columns) /\
   Forall (fun c => snd c <> [] /\ Forall (fun q => (0 < q)%Qc) (snd c))
          example_price_columns) /\
  exists max_drawdown,
    eval (calculate_max_drawdown 0%nat) example_heap = Ok max_drawdown /\
    Forall2 (fun c e =>
               fst e = Sym (fst c) /\
               exists m, snd e = Num m /\ (m <= 0)%Qc /\
                         (nondecreasing (snd c) -> m = 0%Qc))
            example_price_columns max_drawdown.
Proof.
  assert (Forall (fun c => snd c <> [] /\ Forall (fun q => (0 < q)%Qc) (snd c))
                 example_price_columns) as Hpos.
  { repeat constructor; try discriminate; vm_compute; reflexivity. }
  split; [split; [reflexivity|exact Hpos]|].
  apply (max_drawdown_nonpositive example_heap 0%nat example_dates example_price_columns);
    [reflexivity|exact Hpos].
Defined.

Lemma risk_report_columns_witness :
  (frames example_heap !! 1%nat = Some example_returns /\
   frames example_heap !! 0%nat = Some example_prices) /\
  exists report h' rep,
    generate_risk_report example_sqrt example_norm_ppf 1%nat 0%nat (Some example_market)
      example_heap
      = (Ok report, h') /\
    frames h' !! report = Some rep /\
    col_names rep = base_metrics ++ market_metrics /\
    Forall (fun name => name ∈ col_names rep) market_metrics /\
    index rep = map Sym (col_names example_returns) /\
    Forall (fun c => length (snd c) = length (col_names example_returns)) (columns rep).
Proof.
  split; [split; reflexivity|].
  apply (risk_report_columns example_sqrt example_norm_ppf example_heap 1%nat 0%nat
           example_returns example_prices (Some example_market)); reflexivity.
Defined.

Lemma alpha_of_one_symbol_spans_all_symbols_witness :
  (frames example_heap !! 1%nat = Some example_returns /\
   NoDup (col_names example_returns) /\
   (2 <= length (col_names example_returns))%nat /\
   "A" ∈ col_names example_returns /\
   "A" <> "") /\
  exists alpha,
    eval (calculate_alpha 1%nat example_market None 252 (Some "A")) example_heap
      = Ok alpha /\
    sr_index alpha ≡ₚ map Sym (col_names example_returns) /\
    forall l x, (l, x) ∈ alpha -> l <> Sym "A" -> x = NaN.
Proof.
  assert (NoDup (col_names example_returns)) as Hnd.
  { refine (bool_decide_unpack _ _). vm_compute. exact I. }
  assert ("A" ∈ col_names example_returns) as Hin by left.
  split; [repeat split; try reflexivity; try assumption; try discriminate; cbn; lia|].
  apply (alpha_of_one_symbol_spans_all_symbols example_heap 1%nat example_returns
           example_market None 252 "A");
    try reflexivity; try assumption; try discriminate; cbn; lia.
Defined.

Lemma returns_of_finite_prices_witness :
  (frames example_heap !! 0%nat = Some (finite_frame example_dates example_price_columns) /\
   example_dates <> [] /\ example_price_columns <> [] /\
   Forall (fun c => length (snd c) = length example_dates) example_price_columns /\
   Forall (fun c => Forall (fun q => q <> 0%Qc) (snd c)) example_price_columns) /\
  exists l h' out,
    calculate_returns example_ln 0%nat "simple" example_heap = (Ok l, h') /\
    frames h' !! l = Some out /\
    out = finite_frame (tail example_dates)
            (map (fun c => (fst c, simple_returns (snd c))) example_price_columns) /\
    nrows out = (nrows (finite_frame example_dates example_price_columns) - 1)%nat /\
    Forall (fun c => Forall (fun x => x <> NaN) (snd c)) (columns out).
Proof.
  assert (Forall (fun c => Forall (fun q => q <> 0%Qc) (snd c)) example_price_columns)
    as Hnz by (repeat constructor; discriminate).
  assert (Forall (fun c => length (snd c) = length example_dates) example_price_columns)
    as Hlen by (repeat constructor).
  split; [repeat split; try reflexivity; try assumption; discriminate|].
  apply (returns_of_finite_prices example_ln example_heap 0%nat example_dates
           example_price_columns "simple");
    [reflexivity|discriminate|discriminate|exact Hlen|left; split; [reflexivity|exact Hnz]].
Defined.

Lemma date_index_steps_from_start_witness :
  (738886 <= 738900 /\
   ("weekly", 7) ∈ [("daily", 1); ("weekly", 7); ("monthly", 30)]) /\
  exists l h' df,
    fetch_historical_data 738888 no_fetcher ["A"; "B"] 738886 (Some 738900) "weekly"
      example_heap = (Ok l, h') /\
    frames h' !! l = Some df /\
    index df = map Date (date_grid 738886 738900 7) /\
    Date 738886 ∈ index df /\
    (forall d, Date d ∈ index df -> 738886 <= d <= 738900) /\
    (Date 738900 ∈ index df <-> (7 | 738900 - 738886)) /\
    ("weekly" = "daily" -> Date 738900 ∈ index df).
Proof.
  assert (("weekly", 7) ∈ [("daily", 1); ("weekly", 7); ("monthly", 30)]) as Hin
    by (right; left).
  split; [split; [lia|exact Hin]|].
  apply (date_index_steps_from_start 738888 example_heap no_fetcher ["A"; "B"]
           738886 (Some 738900) "weekly" 7); [cbn; lia|exact Hin].
Defined.

(** Where the claims as stated fail. *)

(** C1 as stated: two days at price zero have no null cell, yet the simple
    return of the second day is 0/0, a missing value, and [dropna] removes
    its row too: the result has no row instead of one. *)
Lemma returns_row_count_counterexample :
  Forall (fun c => Forall (fun x => x <> NaN) (snd c)) (columns zero_prices) /\
  nrows zero_prices = 2%nat /\
  exists l h' out,
    calculate_returns example_ln 0%nat "simple" zero_heap = (Ok l, h') /\
    frames h' !! l = Some out /\
    nrows out = 0%nat /\
    nrows out <> (nrows zero_prices - 1)%nat.
Proof.
  split; [repeat constructor; discriminate|]. split; [reflexivity|].
  rewrite (calculate_returns_simple_run example_ln zero_heap 0%nat zero_prices eq_refl).
  unfold alloc. eexists. eexists. eexists.
  split; [reflexivity|]. split; [cbn; apply lookup_insert_eq|].
  split; [vm_compute; reflexivity|vm_compute; discriminate].
Qed.

(** C5 as stated: stepping by a week from 2024-01-01 towards 2024-01-04
    gives the single date 2024-01-01; the end date is not in the index. *)
Lemma end_date_off_grid_counterexample :
  738886 <= 738889 /\
  exists l h' df,
    fetch_historical_data 738888 no_fetcher ["A"] 738886 (Some 738889) "weekly"
      (init (Num (Q2Qc (4 # 100)))) = (Ok l, h') /\
    frames h' !! l = Some df /\
    index df = [Date 738886] /\
    Date 738889 ∉ index df.
Proof.
  split; [lia|].
  eexists. eexists. eexists. split; [vm_compute; reflexivity|].
  split; [vm_compute; reflexivity|]. split; [reflexivity|].
  intros H. apply list_elem_of_singleton in H. discriminate.
Qed.

(** C3 as stated: a column with returns of both infinite signs.  Its 5%
    quantile lies between its second smallest value, 0, and its third,
    [+inf], and is [+inf]; the first observation, [-inf], is strictly below
    it.  Every observation is then in the tail, the mean of the tail is not
    a number, and a missing CVaR is not at most the VaR. *)
Lemma conditional_var_above_value_at_risk_counterexample :
  frames unbounded_heap !! 0%nat = Some unbounded_returns /\
  assoc_get "A" (columns unbounded_returns) = Some ([NInf; Num 0%Qc] ++ replicate 20 PInf) /\
  exists var cvar,
    eval (calculate_value_at_risk example_sqrt example_norm_ppf 0%nat confidence_95
            "historical") unbounded_heap = Ok var /\
    eval (calculate_conditional_var 0%nat confidence_95) unbounded_heap = Ok cvar /\
    NInf ∈ [NInf; Num 0%Qc] ++ replicate 20 PInf /\
    flt NInf (sr_get var (Sym "A")) = true /\
    sr_get var (Sym "A") = PInf /\
    sr_get cvar (Sym "A") = NaN /\
    fle (sr_get cvar (Sym "A")) (sr_get var (Sym "A")) = false.
Proof.
  split; [reflexivity|]. split; [reflexivity|].
  eexists. eexists. split; [vm_compute; reflexivity|].
  split; [vm_compute; reflexivity|].
  split; [left|]. repeat split; vm_compute; reflexivity.
Qed.

(** ** The scenarios of the specification, computed *)

Ltac by_computation := refine (bool_decide_unpack _ _); vm_compute; exact I.

Example float_division_by_zero :
  fdiv (Num 0%Qc) (Num 0%Qc) = NaN /\
  fdiv (Num (Qc_of_Z 5)) (Num 0%Qc) = PInf /\
  fmul NInf (Num (Qc_of_Z 2)) = NInf /\
  fsub PInf PInf = NaN.
Proof. repeat split; by_computation. Qed.

(** Prices 100, 110, 121 give the simple returns 0.10, 0.10, and prices
    100, 50, 75 give -0.50, 0.50. *)
Example simple_returns_of_example_prices :
  df_dropna (df_pct_change example_prices) = example_returns.
Proof. by_computation. Qed.

(** The rising prices have a maximum drawdown of 0, the prices 100, 50, 75
    of -0.50. *)
Example max_drawdown_of_example_prices :
  calculate_max_drawdown 0%nat example_heap =
  (Ok [(Sym "A", Num 0%Qc); (Sym "B", Num (Q2Qc (-1 # 2)))], example_heap).
Proof.
  rewrite (calculate_max_drawdown_run example_heap 0%nat example_prices eq_refl).
  do 2 f_equal. by_computation.
Qed.

(** The 5% quantile of -0.50, 0.50 is -0.45 and the mean of the returns at
    or below it is -0.50. *)
Example tail_risk_of_example_returns :
  eval (calculate_value_at_risk example_sqrt example_norm_ppf 1%nat confidence_95
          "historical") example_heap
    = Ok [(Sym "A", Num (Q2Qc (1 # 10))); (Sym "B", Num (Q2Qc (-9 # 20)))] /\
  eval (calculate_conditional_var 1%nat confidence_95) example_heap
    = Ok [(Sym "A", Num (Q2Qc (1 # 10))); (Sym "B", Num (Q2Qc (-1 # 2)))].
Proof.
  split.
  - rewrite (value_at_risk_95_returns example_sqrt example_norm_ppf example_heap 1%nat
               example_returns eq_refl).
    f_equal. by_computation.
  - unfold eval.
    rewrite (calculate_conditional_var_run example_heap 1%nat example_returns
               confidence_95 _ eq_refl eq_refl).
    cbn [fst]. f_equal; try by_computation.
Qed.

(** Weekly steps from 2024-01-01 to 2024-01-15, and monthly steps of 30
    days from 2024-01-01 to 2024-03-01. *)
Example date_range_scenarios :
  date_range 15 738886 738900 7 = Some [738886; 738893; 738900] /\
  date_range 61 738886 738946 30 = Some [738886; 738916; 738946].
Proof. split; reflexivity. Qed.

(** Without a market series the report of the example has the eight base
    columns and two rows. *)
Example risk_report_of_example :
  exists report h' rep,
    generate_risk_report example_sqrt example_norm_ppf 1%nat 0%nat None example_heap
      = (Ok report, h') /\
    frames h' !! report = Some rep /\
    col_names rep = base_metrics /\
    index rep = [Sym "A"; Sym "B"].
Proof.
  eexists. eexists. eexists.
  split; [vm_compute; reflexivity|].
  split; [vm_compute; reflexivity|]. split; reflexivity.
Qed.

(** ** The further properties on the example data *)

Lemma fetch_historical_data_calls_witness :
  delta_of_interval "daily" = Some 1 /\
  exists l h',
    fetch_historical_data 738890 example_fetcher ["A"; "B"] 738886 None "daily"
      example_heap = (Ok l, h') /\
    fetch_log h' =
      fetch_log example_heap ++ fetch_calls ["A"; "B"] (dates_of 738886 738890 1) /\
    length (fetch_log h') =
      (length (fetch_log example_heap) + 2 * length (dates_of 738886 738890 1))%nat.
Proof.
  split; [reflexivity|].
  apply (fetch_historical_data_calls 738890 example_heap example_fetcher ["A"; "B"]
           738886 None "daily" 1).
  reflexivity.
Defined.

Lemma fetch_historical_data_shape_witness :
  delta_of_interval "daily" = Some 1 /\
  exists l h' df,
    fetch_historical_data 738890 example_fetcher ["A"; "B"; "A"] 738886 None "daily"
      example_heap = (Ok l, h') /\
    frames example_heap !! l = None /\
    frames h' = <[l := df]> (frames example_heap) /\
    index df = map Date (dates_of 738886 738890 1) /\
    NoDup (col_names df) /\
    (forall s, s ∈ col_names df <-> s ∈ ["A"; "B"; "A"]) /\
    Forall (fun c => length (snd c) = length (dates_of 738886 738890 1)) (columns df).
Proof.
  split; [reflexivity|].
  apply (fetch_historical_data_shape 738890 example_heap example_fetcher ["A"; "B"; "A"]
           738886 None "daily" 1).
  reflexivity.
Defined.

Lemma fetch_historical_data_no_gap_witness :
  delta_of_interval "daily" = Some 1 /\
  exists l h' df,
    fetch_historical_data 738890 example_fetcher ["A"; "B"] 738886 None "daily"
      example_heap = (Ok l, h') /\
    frames h' !! l = Some df /\
    forall s, s ∈ ["A"; "B"] ->
      exists col,
        assoc_get s (columns df) = Some col /\
        length col = length (dates_of 738886 738890 1) /\
        ((exists d, d ∈ dates_of 738886 738890 1 /\ price_of (example_fetcher s d) <> NaN) ->
         Forall (fun x => x <> NaN) col) /\
        ((forall d, d ∈ dates_of 738886 738890 1 -> price_of (example_fetcher s d) = NaN) ->
         Forall (fun x => x = NaN) col).
Proof.
  split; [reflexivity|].
  apply (fetch_historical_data_no_gap 738890 example_heap example_fetcher ["A"; "B"]
           738886 None "daily" 1).
  reflexivity.
Defined.

Lemma fetch_historical_data_fills_gaps_witness :
  delta_of_interval "daily" = Some 1 /\
  exists l h' df,
    fetch_historical_data 738890 example_fetcher ["A"; "B"] 738886 None "daily"
      example_heap = (Ok l, h') /\
    frames h' !! l = Some df /\
    forall s, s ∈ ["A"; "B"] ->
      exists col,
        assoc_get s (columns df) = Some col /\
        forall i d p,
          dates_of 738886 738890 1 !! i = Some d ->
          price_of (example_fetcher s d) = p -> p <> NaN ->
          col !! i = Some p /\
          (forall j, (i <= j < length (dates_of 738886 738890 1))%nat ->
             (forall k d', (i < k <= j)%nat -> dates_of 738886 738890 1 !! k = Some d' ->
                           price_of (example_fetcher s d') = NaN) ->
             col !! j = Some p) /\
          ((forall k d', (k < i)%nat -> dates_of 738886 738890 1 !! k = Some d' ->
                         price_of (example_fetcher s d') = NaN) ->
           forall j, (j <= i)%nat -> col !! j = Some p).
Proof.
  split; [reflexivity|].
  apply (fetch_historical_data_fills_gaps 738890 example_heap example_fetcher ["A"; "B"]
           738886 None "daily" 1).
  reflexivity.
Defined.

Lemma fetch_historical_data_empty_range_witness :
  (delta_of_interval "weekly" = Some 7 /\ 738880 < 738886) /\
  exists l h' df,
    fetch_historical_data 738890 example_fetcher ["A"; "B"] 738886 (Some 738880) "weekly"
      example_heap = (Ok l, h') /\
    frames h' !! l = Some df /\
    fetch_log h' = fetch_log example_heap /\
    index df = [] /\
    (forall s, s ∈ ["A"; "B"] -> assoc_get s (columns df) = Some []).
Proof.
  split; [split; [reflexivity|lia]|].
  apply (fetch_historical_data_empty_range 738890 example_heap example_fetcher ["A"; "B"]
           738886 (Some 738880) "weekly" 7); [reflexivity|cbn; lia].
Defined.

Lemma returns_have_no_missing_cell_witness :
  (frames zero_heap !! 0%nat = Some zero_prices /\
   rectangular zero_prices /\ columns zero_prices <> [] /\
   Forall (fun c => Exists (fun x => x <> NaN) (snd c)) (columns zero_prices) /\
   ("simple" = "simple" \/ "simple" = "log")) /\
  exists l h' out,
    calculate_returns example_ln 0%nat "simple" zero_heap = (Ok l, h') /\
    frames zero_heap !! l = None /\
    frames h' = <[l := out]> (frames zero_heap) /\
    col_names out = col_names zero_prices /\
    rectangular out /\
    Forall (fun c => Forall (fun x => x <> NaN) (snd c)) (columns out) /\
    index out `sublist_of` tail (index zero_prices).
Proof.
  assert (rectangular zero_prices) as Hrect by (repeat constructor).
  assert (Forall (fun c => Exists (fun x => x <> NaN) (snd c)) (columns zero_prices))
    as Hprice by (repeat constructor; discriminate).
  split; [repeat split; try assumption; try discriminate; left; reflexivity|].
  apply (returns_have_no_missing_cell example_ln zero_heap 0%nat zero_prices "simple");
    [reflexivity|exact Hrect|discriminate|exact Hprice|left; reflexivity].
Defined.

Lemma simple_returns_compound_to_prices_witness :
  (frames example_heap !! 0%nat = Some (finite_frame example_dates example_price_columns) /\
   example_dates <> [] /\ example_price_columns <> [] /\
   Forall (fun c => length (snd c) = length example_dates) example_price_columns /\
   Forall (fun c => Forall (fun q => q <> 0%Qc) (snd c)) example_price_columns) /\
  exists l h' out,
    calculate_returns example_ln 0%nat "simple" example_heap = (Ok l, h') /\
    frames h' !! l = Some out /\
    Forall2 (fun c o =>
               fst o = fst c /\
               exists rs, snd o = map Num rs /\
                          compound (hd 0%Qc (snd c)) rs = snd c)
            example_price_columns (columns out).
Proof.
  assert (Forall (fun c => Forall (fun q => q <> 0%Qc) (snd c)) example_price_columns)
    as Hnz by (repeat constructor; discriminate).
  assert (Forall (fun c => length (snd c) = length example_dates) example_price_columns)
    as Hlen by (repeat constructor).
  split; [repeat split; try reflexivity; try assumption; discriminate|].
  apply (simple_returns_compound_to_prices example_ln example_heap 0%nat example_dates
           example_price_columns);
    [reflexivity|discriminate|discriminate|exact Hlen|exact Hnz].
Defined.

Lemma max_drawdown_is_worst_decline_witness :
  let qs := [Qc_of_Z 100; Qc_of_Z 50; Qc_of_Z 75] in
  (frames example_heap !! 0%nat = Some (finite_frame example_dates example_price_columns) /\
   assoc_get "B" example_price_columns = Some qs /\
   qs <> [] /\ Forall (fun q => (0 < q)%Qc) qs) /\
  exists max_drawdown m,
    eval (calculate_max_drawdown 0%nat) example_heap = Ok max_drawdown /\
    sr_get max_drawdown (Sym "B") = Num m /\
    (forall i j p q, (i <= j)%nat -> qs !! i = Some p -> qs !! j = Some q ->
                     (m <= (q - p) / p)%Qc) /\
    (exists i j p q, (i <= j)%nat /\ qs !! i = Some p /\ qs !! j = Some q /\
                     m = ((q - p) / p)%Qc).
Proof.
  cbn zeta.
  assert (Forall (fun q => (0 < q)%Qc) [Qc_of_Z 100; Qc_of_Z 50; Qc_of_Z 75]) as Hpos
    by (repeat constructor).
  split; [repeat split; try reflexivity; try assumption; discriminate|].
  apply (max_drawdown_is_worst_decline example_heap 0%nat example_dates
           example_price_columns "B" [Qc_of_Z 100; Qc_of_Z 50; Qc_of_Z 75]);
    [reflexivity|reflexivity|discriminate|exact Hpos].
Defined.

Lemma max_drawdown_bounds_witness :
  let qs := [Qc_of_Z 100; Qc_of_Z 50; Qc_of_Z 75] in
  (frames example_heap !! 0%nat = Some (finite_frame example_dates example_price_columns) /\
   assoc_get "B" example_price_columns = Some qs /\
   qs <> [] /\ Forall (fun q => (0 < q)%Qc) qs) /\
  exists max_drawdown m,
    eval (calculate_max_drawdown 0%nat) example_heap = Ok max_drawdown /\
    sr_get max_drawdown (Sym "B") = Num m /\
    (- (1) < m)%Qc /\
    (m = 0%Qc <-> nondecreasing qs).
Proof.
  cbn zeta.
  assert (Forall (fun q => (0 < q)%Qc) [Qc_of_Z 100; Qc_of_Z 50; Qc_of_Z 75]) as Hpos
    by (repeat constructor).
  split; [repeat split; try reflexivity; try assumption; discriminate|].
  apply (max_drawdown_bounds example_heap 0%nat example_dates
           example_price_columns "B" [Qc_of_Z 100; Qc_of_Z 50; Qc_of_Z 75]);
    [reflexivity|reflexivity|discriminate|exact Hpos].
Defined.

Lemma sortino_is_sharpe_without_gains_witness :
  (frames falling_heap !! 0%nat = Some falling_returns /\
   Forall (fun c => Forall (fun x => flt (Num 0%Qc) x = false) (snd c))
          (columns falling_returns)) /\
  exists ratio,
    eval (calculate_sharpe_ratio example_sqrt 0%nat None 252) falling_heap = Ok ratio /\
    eval (calculate_sortino_ratio example_sqrt 0%nat None 252) falling_heap = Ok ratio.
Proof.
  assert (Forall (fun c => Forall (fun x => flt (Num 0%Qc) x = false) (snd c))
                 (columns falling_returns)) as Hgains by (repeat constructor).
  split; [split; [reflexivity|exact Hgains]|].
  apply (sortino_is_sharpe_without_gains example_sqrt falling_heap 0%nat falling_returns
           None 252); [reflexivity|exact Hgains].
Defined.

Lemma missing_symbol_raises_value_error_witness :
  (frames example_heap !! 1%nat = Some example_returns /\
   ("C" ∉ col_names example_returns) /\ "C" <> "") /\
  calculate_beta 1%nat example_market (Some "C") example_heap
    = (Raise ValueError, example_heap) /\
  calculate_pairwise_correlation example_corr_pair 1%nat "C" "A" "pearson" example_heap
    = (Raise ValueError, example_heap) /\
  calculate_pairwise_correlation example_corr_pair 1%nat "A" "C" "pearson" example_heap
    = (Raise ValueError, example_heap).
Proof.
  assert ("C" ∉ col_names example_returns) as Habsent by by_computation.
  split; [repeat split; try reflexivity; try assumption; discriminate|].
  apply (missing_symbol_raises_value_error example_corr_pair example_heap 1%nat
           example_returns example_market "C" "A" "pearson");
    [reflexivity|exact Habsent|discriminate].
Defined.

Lemma alpha_of_missing_symbol_raises_key_error_witness :
  (frames example_heap !! 1%nat = Some example_returns /\
   ("C" ∉ col_names example_returns) /\ "C" <> "") /\
  calculate_alpha 1%nat example_market None 252 (Some "C") example_heap
    = (Raise KeyError, example_heap).
Proof.
  assert ("C" ∉ col_names example_returns) as Habsent by by_computation.
  split; [repeat split; try reflexivity; try assumption; discriminate|].
  apply (alpha_of_missing_symbol_raises_key_error example_heap 1%nat example_returns
           example_market None 252 "C");
    [reflexivity|exact Habsent|discriminate].
Defined.

Lemma beta_of_named_symbol_witness :
  (frames example_heap !! 1%nat = Some example_returns /\
   "A" ∈ col_names example_returns /\ "A" <> "") /\
  exists column all_betas,
    df_col example_returns "A" = Some column /\
    eval (calculate_beta 1%nat example_market (Some "A")) example_heap =
      Ok [(Sym "A",
           fdiv (pd_cov column example_market) (pd_var (sr_values example_market)))] /\
    eval (calculate_beta 1%nat example_market None) example_heap = Ok all_betas /\
    sr_get all_betas (Sym "A") =
      fdiv (pd_cov column example_market) (pd_var (sr_values example_market)).
Proof.
  assert ("A" ∈ col_names example_returns) as Hin by left.
  split; [repeat split; try reflexivity; try assumption; discriminate|].
  apply (beta_of_named_symbol example_heap 1%nat example_returns example_market "A");
    [reflexivity|exact Hin|discriminate].
Defined.

Lemma beta_of_the_market_is_one_witness :
  (frames example_heap !! 1%nat = Some example_returns /\
   df_col example_returns "B" = Some example_own_market /\
   NoDup (sr_index example_own_market) /\
   Forall (fun x => x <> NaN) (sr_values example_own_market) /\
   pd_var (sr_values example_own_market) = Num (Q2Qc (1 # 2)) /\
   Q2Qc (1 # 2) <> 0%Qc) /\
  exists beta,
    eval (calculate_beta 1%nat example_own_market None) example_heap = Ok beta /\
    sr_get beta (Sym "B") = Num 1%Qc.
Proof.
  assert (NoDup (sr_index example_own_market)) as Hnd by by_computation.
  assert (Forall (fun x => x <> NaN) (sr_values example_own_market)) as Hval
    by (repeat constructor; discriminate).
  assert (pd_var (sr_values example_own_market) = Num (Q2Qc (1 # 2))) as Hvar
    by by_computation.
  assert (Q2Qc (1 # 2) <> 0%Qc) as Hnz by discriminate.
  split; [repeat split; try reflexivity; assumption|].
  apply (beta_of_the_market_is_one example_heap 1%nat example_returns example_own_market
           "B" (Q2Qc (1 # 2)));
    [reflexivity|reflexivity|exact Hnd|exact Hval|exact Hvar|exact Hnz].
Defined.

Lemma alpha_entry_follows_capm_witness :
  let xs := [Num (Q2Qc (1 # 10)); Num (Q2Qc (1 # 10))] in
  let rate := self_risk_free_rate example_heap in
  let market_return := fmul (pd_mean (sr_values example_market)) (float_of_Z 252) in
  (frames example_heap !! 1%nat = Some example_returns /\
   assoc_get "A" (columns example_returns) = Some xs /\
   (Some "A" = None \/ Some "A" = Some "A")) /\
  exists alpha beta,
    eval (calculate_alpha 1%nat example_market None 252 (Some "A")) example_heap
      = Ok alpha /\
    eval (calculate_beta 1%nat example_market None) example_heap = Ok beta /\
    sr_get alpha (Sym "A") =
      fsub (fmul (pd_mean xs) (float_of_Z 252))
           (fadd rate (fmul (sr_get beta (Sym "A")) (fsub market_return rate))).
Proof.
  cbn zeta.
  split; [repeat split; try reflexivity; right; reflexivity|].
  apply (alpha_entry_follows_capm example_heap 1%nat example_returns example_market
           None 252 (Some "A") "A" [Num (Q2Qc (1 # 10)); Num (Q2Qc (1 # 10))]);
    [reflexivity|reflexivity|right; reflexivity].
Defined.

Lemma only_fetch_historical_data_calls_the_fetcher_witness :
  (forall fetcher symbols start_date end_date interval,
     GenerateRiskReport 1%nat 0%nat (Some example_market) <>
     FetchHistoricalData fetcher symbols start_date end_date interval) /\
  fetch_log (exec (call example_sqrt example_ln example_norm_ppf example_corr_matrix
                        example_corr_pair 738890
                        (GenerateRiskReport 1%nat 0%nat (Some example_market)))
                  example_heap)
  = fetch_log example_heap.
Proof.
  split; [discriminate|].
  apply (only_fetch_historical_data_calls_the_fetcher example_sqrt example_ln
           example_norm_ppf example_corr_matrix example_corr_pair 738890
           (GenerateRiskReport 1%nat 0%nat (Some example_market)) example_heap).
  discriminate.
Defined.

Lemma risk_report_cells_witness :
  (frames example_heap !! 1%nat = Some example_returns /\
   frames example_heap !! 0%nat = Some example_prices /\
   NoDup (col_names example_returns)) /\
  exists report h' rep,
    generate_risk_report example_sqrt example_norm_ppf 1%nat 0%nat (Some example_market)
      example_heap = (Ok report, h') /\
    frames h' !! report = Some rep /\
    assoc_get "Mean Return (Annual)" (columns rep) =
      Some (map (fun c => fmul (pd_mean (snd c)) (float_of_Z 252))
                (columns example_returns)) /\
    Forall (fun e =>
              exists s,
                eval (snd e) example_heap = Ok s /\
                assoc_get (fst e) (columns rep) =
                  Some (map (fun symbol => sr_get s (Sym symbol))
                            (col_names example_returns)))
           (report_methods example_sqrt example_norm_ppf 1%nat 0%nat (Some example_market)).
Proof.
  assert (NoDup (col_names example_returns)) as Hnd by by_computation.
  split; [repeat split; try reflexivity; exact Hnd|].
  apply (risk_report_cells example_sqrt example_norm_ppf example_heap 1%nat 0%nat
           example_returns example_prices (Some example_market));
    [reflexivity|reflexivity|exact Hnd].
Defined.

Lemma exponential_backoff_capped_and_monotone_witness :
  let base_delay := Qc_of_Z 2 in
  let max_delay := Qc_of_Z 60 in
  ((0 <= base_delay)%Qc /\ (4 <= 5)%nat /\ (5 <= 1023)%nat) /\
  (exists delay delay',
     exponential_backoff 4 (Num base_delay) (Num max_delay) = Returned (Num delay) /\
     exponential_backoff 5 (Num base_delay) (Num max_delay) = Returned (Num delay') /\
     (delay <= max_delay)%Qc /\
     (delay <= delay')%Qc /\
     ((base_delay * Qc_of_Z (2 ^ Z.of_nat 4) <= max_delay)%Qc ->
      delay = (base_delay * Qc_of_Z (2 ^ Z.of_nat 4))%Qc) /\
     ((max_delay < base_delay * Qc_of_Z (2 ^ Z.of_nat 4))%Qc ->
      delay = max_delay)) /\
  (forall (beyond : nat) (base max : float),
     (1024 <= beyond)%nat ->
     exponential_backoff beyond base max = Raised OverflowError).
Proof.
  cbn zeta.
  assert (0 <= Qc_of_Z 2)%Qc as Hbase by (vm_compute; discriminate).
  split; [split; [exact Hbase|split; lia]|].
  apply (exponential_backoff_capped_and_monotone 4 5 (Qc_of_Z 2) (Qc_of_Z 60));
    [exact Hbase|lia|lia].
Defined.

Lemma yfinance_gives_up_after_max_retries_witness :
  (1 <= 3 /\
   (forall attempt, Z.of_nat attempt < 3 ->
                    failing_yahoo "2330.TW" (Some "2024-01-02") attempt = YfRaises)) /\
  exists events out,
    yfinance_fetch_price failing_yahoo 3 "2330.TW" (Some "2024-01-02") = (events, out) /\
    List.last events (Sleep NaN) = Request "2330.TW" (Some "2024-01-02") /\
    (3 <= 1025 ->
     out = Returned (Some no_price) /\
     requested events = replicate (Z.to_nat 3) ("2330.TW", Some "2024-01-02") /\
     map Returned (sleeps events) =
       map (fun k => exponential_backoff k (Num 1%Qc) (Num (Qc_of_Z 60)))
           (seq 0 (Z.to_nat 3 - 1))) /\
    (1026 <= 3 ->
     out = Raised OverflowError /\
     requested events = replicate 1025 ("2330.TW", Some "2024-01-02") /\
     map Returned (sleeps events) =
       map (fun k => exponential_backoff k (Num 1%Qc) (Num (Qc_of_Z 60))) (seq 0 1024)).
Proof.
  split; [split; [lia|reflexivity]|].
  apply (yfinance_gives_up_after_max_retries failing_yahoo 3 "2330.TW"
           (Some "2024-01-02")); [lia|reflexivity].
Defined.

Lemma yfinance_first_answer_decides_witness :
  let info := [("currency", Some "TWD")] in
  let hist := [("2024-01-03", Num (Qc_of_Z 593))] in
  (Z.of_nat 2 < 3 /\ (2 <= 1024)%nat /\
   (forall attempt, (attempt < 2)%nat ->
                    example_yahoo "2330.TW" (Some "2024-01-02") attempt = YfRaises) /\
   example_yahoo "2330.TW" (Some "2024-01-02") 2%nat = YfData info hist) /\
  exists events,
    yfinance_fetch_price example_yahoo 3 "2330.TW" (Some "2024-01-02") =
      (events, Returned (Some (yf_record (Some "2024-01-02") info hist))) /\
    requested events = replicate 3 ("2330.TW", Some "2024-01-02") /\
    map Returned (sleeps events) =
      map (fun j => exponential_backoff j (Num 1%Qc) (Num (Qc_of_Z 60))) (seq 0 2) /\
    (hist = [] -> price (yf_record (Some "2024-01-02") info hist) = None).
Proof.
  cbn zeta.
  assert (forall attempt, (attempt < 2)%nat ->
            example_yahoo "2330.TW" (Some "2024-01-02") attempt = YfRaises) as Hraise.
  { intros [|[|attempt]] H; [reflexivity|reflexivity|lia]. }
  split; [split; [lia|split; [lia|split; [exact Hraise|reflexivity]]]|].
  apply (yfinance_first_answer_decides example_yahoo 3 "2330.TW" (Some "2024-01-02") 2
           [("currency", Some "TWD")] [("2024-01-03", Num (Qc_of_Z 593))]);
    [lia|lia|exact Hraise|reflexivity].
Defined.

Lemma polygon_fetch_price_is_bounded_witness :
  let self := mkPolygonFetcher "key" 3 in
  1 <= self_max_retries self /\
  exists events out,
    polygon_fetch_price busy_polygon example_local_day self "2330.TW" None
      = (events, out) /\
    ((exists r, out = Returned (Some r) /\ currency r = Some "USD") \/
     (out = Raised OverflowError /\ 1026 <= self_max_retries self /\
      length (requested events) = 1025%nat)) /\
    (1 <= length (requested events) <= Z.to_nat (self_max_retries self))%nat /\
    Forall (fun q => q = (remove_TW "2330.TW", None)) (requested events) /\
    Forall (fun d => fle d (Num (Qc_of_Z 60)) = true) (sleeps events).
Proof.
  cbn zeta. split; [cbn; lia|].
  apply (polygon_fetch_price_is_bounded busy_polygon example_local_day
           (mkPolygonFetcher "key" 3) "2330.TW" None).
  cbn. lia.
Defined.

Lemma polygon_retries_when_rate_limited_witness :
  let self := mkPolygonFetcher "key" 3 in
  let date := Some "2024-01-02" in
  (Z.of_nat 1 < self_max_retries self /\ (1 <= 1024)%nat /\
   truthy date = Some "2024-01-02" /\
   (forall attempt, (attempt < 1)%nat ->
                    example_polygon (remove_TW "2330.TW") date attempt = PgRateLimited) /\
   example_polygon (remove_TW "2330.TW") date 1%nat
     = PgData (Some (Num (Qc_of_Z 10))) []) /\
  exists events,
    polygon_fetch_price example_polygon example_local_day self "2330.TW" date =
      (events, Returned (Some (mkPriceRecord (Some (Num (Qc_of_Z 10)))
                                             (Some "2024-01-02") (Some "USD")))) /\
    length (requested events) = 2%nat /\
    map Returned (sleeps events) =
      map (fun j => exponential_backoff j (Num (Qc_of_Z 2)) (Num (Qc_of_Z 60))) (seq 0 1)
      ++ [Returned polygon_pause].
Proof.
  cbn zeta.
  assert (forall attempt, (attempt < 1)%nat ->
            example_polygon (remove_TW "2330.TW") (Some "2024-01-02") attempt
            = PgRateLimited) as Hlimited.
  { intros [|attempt] H; [reflexivity|lia]. }
  split; [split; [cbn; lia|split; [lia|split; [reflexivity|split;
            [exact Hlimited|reflexivity]]]]|].
  apply (polygon_retries_when_rate_limited example_polygon example_local_day
           (mkPolygonFetcher "key" 3) "2330.TW" (Some "2024-01-02") "2024-01-02" 1
           (Some (Num (Qc_of_Z 10))) []);
    [cbn; lia|lia|reflexivity|exact Hlimited|reflexivity].
Defined.

Lemma historical_var_within_observed_range_witness :
  let qs := [Q2Qc (-1 # 2); Q2Qc (1 # 2)] in
  let c := Q2Qc (95 # 100) in
  (frames example_heap !! 1%nat = Some example_returns /\
   assoc_get "B" (columns example_returns) = Some (map Num qs) /\
   qs <> [] /\ (0 <= c)%Qc /\ (c <= 1)%Qc /\
   Forall (fun x => (Q2Qc (-1 # 2) <= x)%Qc /\ (x <= Q2Qc (1 # 2))%Qc) qs) /\
  exists var v,
    eval (calculate_value_at_risk example_sqrt example_norm_ppf 1%nat (Num c)
            "historical") example_heap = Ok var /\
    sr_get var (Sym "B") = Num v /\
    (Q2Qc (-1 # 2) <= v)%Qc /\ (v <= Q2Qc (1 # 2))%Qc.
Proof.
  cbn zeta.
  assert (0 <= Q2Qc (95 # 100))%Qc as Hc0 by (vm_compute; discriminate).
  assert (Q2Qc (95 # 100) <= 1)%Qc as Hc1 by (vm_compute; discriminate).
  assert (Forall (fun x => (Q2Qc (-1 # 2) <= x)%Qc /\ (x <= Q2Qc (1 # 2))%Qc)
                 [Q2Qc (-1 # 2); Q2Qc (1 # 2)]) as Hrange.
  { repeat constructor; vm_compute; discriminate. }
  split; [repeat split; try reflexivity; try assumption; discriminate|].
  apply (historical_var_within_observed_range example_sqrt example_norm_ppf example_heap
           1%nat example_returns (Q2Qc (95 # 100)) "B" [Q2Qc (-1 # 2); Q2Qc (1 # 2)]
           (Q2Qc (-1 # 2)) (Q2Qc (1 # 2)));
    [reflexivity|reflexivity|discriminate|exact Hc0|exact Hc1|exact Hrange].
Defined.

Lemma variance_is_nonnegative_witness :
  let qs := [Q2Qc (-1 # 2); Q2Qc (1 # 2)] in
  (frames example_heap !! 1%nat = Some example_returns /\
   assoc_get "B" (columns example_returns) = Some (map Num qs) /\
   (2 <= length qs)%nat /\ 0 <= 252) /\
  exists variance v,
    eval (calculate_variance 1%nat true 252) example_heap = Ok variance /\
    sr_get variance (Sym "B") = Num v /\
    (0 <= v)%Qc.
Proof.
  cbn zeta. split; [repeat split; try reflexivity; cbn; lia|].
  apply (variance_is_nonnegative example_heap 1%nat example_returns true 252 "B"
           [Q2Qc (-1 # 2); Q2Qc (1 # 2)]);
    [reflexivity|reflexivity|cbn; lia|lia].
Defined.

Lemma get_rate_caches_what_it_returns_witness :
  let rate := Num (Q2Qc (1 # 32)) in
  let events :=
    [RateRequest "TWD";
     RateSleep (py_min (fmul (Num (Qc_of_Z 2)) (float_of_Z (2 ^ Z.of_nat 0)))
                       (Num (Qc_of_Z 60)));
     RateRequest "TWD"] in
  let cache' : gmap string float := <[cache_key "TWD" "USD" := rate]> ∅ in
  ("TWD" <> "USD" /\
   get_rate example_rates ∅ "TWD" "USD" 3 = (events, Returned (Some rate), cache')) /\
  (cache' = ∅ \/ cache' = <[cache_key "TWD" "USD" := rate]> ∅) /\
  cache' !! cache_key "TWD" "USD" = Some rate /\
  forall (api' : RateApi) (max_retries' : Z),
    get_rate api' cache' "TWD" "USD" max_retries' = ([], Returned (Some rate), cache').
Proof.
  cbn zeta.
  assert (get_rate example_rates ∅ "TWD" "USD" 3 =
          ([RateRequest "TWD";
            RateSleep (py_min (fmul (Num (Qc_of_Z 2)) (float_of_Z (2 ^ Z.of_nat 0)))
                              (Num (Qc_of_Z 60)));
            RateRequest "TWD"],
           Returned (Some (Num (Q2Qc (1 # 32)))),
           <[cache_key "TWD" "USD" := Num (Q2Qc (1 # 32))]> ∅)) as Hget by reflexivity.
  split; [split; [discriminate|exact Hget]|].
  apply (get_rate_caches_what_it_returns example_rates ∅ "TWD" "USD" 3
           [RateRequest "TWD";
            RateSleep (py_min (fmul (Num (Qc_of_Z 2)) (float_of_Z (2 ^ Z.of_nat 0)))
                              (Num (Qc_of_Z 60)));
            RateRequest "TWD"]
           (Returned (Some (Num (Q2Qc (1 # 32)))))
           (<[cache_key "TWD" "USD" := Num (Q2Qc (1 # 32))]> ∅));
    [discriminate|exact Hget].
Defined.

Lemma convert_falls_back_to_the_price_witness :
  let p := Num (Qc_of_Z 593) in
  ("TWD" <> "USD" /\
   (∅ : gmap string float) !! cache_key "TWD" "USD" = None /\
   (forall attempt, (attempt < 3)%nat ->
      failing_rates "TWD" attempt = RateRaises \/
      failing_rates "TWD" attempt = RateLimited)) /\
  exists events,
    convert failing_rates ∅ (Some p) "TWD" "USD" = (events, Returned (Some p), ∅) /\
    rate_requests events = ["TWD"; "TWD"; "TWD"].
Proof.
  cbn zeta.
  assert (forall attempt, (attempt < 3)%nat ->
            failing_rates "TWD" attempt = RateRaises \/
            failing_rates "TWD" attempt = RateLimited) as Hfail
    by (intros attempt _; left; reflexivity).
  split; [split; [discriminate|split; [reflexivity|exact Hfail]]|].
  apply (convert_falls_back_to_the_price failing_rates ∅ (Num (Qc_of_Z 593))
           "TWD" "USD"); [discriminate|reflexivity|exact Hfail].
Defined.

Lemma fetched_prices_give_returns_without_gaps_witness :
  let dates := dates_of 738886 738890 1 in
  (["A"] <> [] /\
   (forall s, s ∈ ["A"] ->
      exists d, d ∈ dates /\ price_of (example_fetcher s d) <> NaN)) /\
  exists prices returns h' dfp dfr,
    fetch_prices_and_returns example_ln 738890 example_fetcher ["A"] 738886 738890
      example_heap = (Ok (prices, returns), h') /\
    prices <> returns /\
    frames example_heap !! prices = None /\ frames example_heap !! returns = None /\
    frames h' !! prices = Some dfp /\
    frames h' !! returns = Some dfr /\
    Forall (fun c => Forall (fun x => x <> NaN) (snd c)) (columns dfp) /\
    Forall (fun c => Forall (fun x => x <> NaN) (snd c)) (columns dfr) /\
    col_names dfr = col_names dfp /\
    (forall s, s ∈ col_names dfr <-> s ∈ ["A"]) /\
    index dfr `sublist_of` tail (map Date dates) /\
    fetch_log h' = fetch_log example_heap ++ fetch_calls ["A"] dates.
Proof.
  cbn zeta.
  assert (forall s, s ∈ ["A"] ->
            exists d, d ∈ dates_of 738886 738890 1 /\
                      price_of (example_fetcher s d) <> NaN) as Hprices.
  { intros s Hs. apply list_elem_of_singleton in Hs. subst s.
    exists 738887. split; [by_computation|discriminate]. }
  split; [split; [discriminate|exact Hprices]|].
  apply (fetched_prices_give_returns_without_gaps example_ln 738890 example_heap
           example_fetcher ["A"] 738886 738890); [discriminate|exact Hprices].
Defined.
